(** * Castle Breaker: the game canvas core, embedded and verified

    The development follows [GameCanvas] (the physics canvas component), with
    the constants of [constants.ts] and the records of [types.ts].  The game
    state of [App], the library of custom levels and the level editor follow
    in the modules [App] and [Editor].

    Numbers.  JavaScript numbers are modelled as exact rationals ([Q]); the
    comparisons of the source become the boolean comparisons of [Q].  The
    explosion impulse needs [Math.sqrt], so module [Explosion] works over the
    real numbers instead.

    External libraries.  The rigid-body engine (cannon-es) is a dependency: one
    [world.step] is an oracle that hands every body its new kinematic state
    and the collide events it dispatched.  The few vector operations of the
    engine that the source calls ([Quaternion.vmult], [Vec3.normalize],
    [Body.applyImpulse]) are written out after the library.  Meshes and the
    renderer do not influence any state read back by the game logic and are
    left out; the framing of the camera and the particle bursts are modelled
    apart, after the core. *)

From Stdlib Require Import QArith Qminmax Qround Qabs ZArith List Bool String.
From Stdlib Require Import DecimalString.
From Stdlib Require Import Reals.
From Stdlib Require Import Lia Psatz.
Import ListNotations.

Open Scope Q_scope.

(** ** Comparisons of numbers *)

Definition Qltb (a b : Q) : bool := negb (Qle_bool b a).

(** ** Constants ([constants.ts]) *)

Definition PROJECTILE_RADIUS : Q := 25 # 100.
Definition PROJECTILE_MASS : Q := 10.
Definition PROJECTILE_VELOCITY_MULTIPLIER : Q := 25.
Definition BLOCK_SIZE : Q := 1.
Definition BLOCK_MASS : Q := 5 # 10.
Definition MAX_CHARGE_DURATION_MS : Q := 1500.
Definition MIN_LAUNCH_POWER : Q := 1 # 10.
Definition MAX_LAUNCH_POWER : Q := 1.
Definition HEAVY_PROJECTILE_RADIUS : Q := 35 # 100.
Definition HEAVY_PROJECTILE_MASS : Q := 25.
Definition EXPLOSIVE_PROJECTILE_RADIUS : Q := 28 # 100.
Definition EXPLOSIVE_PROJECTILE_MASS : Q := 12.
Definition EXPLOSION_RADIUS : Q := 35 # 10.
Definition EXPLOSION_STRENGTH : Q := 36 # 10.
Definition EXPLOSIVE_PROJECTILE_LIFESPAN_MS : Q := 3000.
Definition CLUSTER_PROJECTILE_RADIUS : Q := 3 # 10.
Definition CLUSTER_PROJECTILE_MASS : Q := 15.
Definition CLUSTER_SPLIT_DELAY_MS : Q := 1000.
Definition SUBMUNITION_COUNT : nat := 5.
Definition SUBMUNITION_RADIUS : Q := 15 # 100.
Definition SUBMUNITION_MASS : Q := 2.
Definition SUBMUNITION_SPREAD_IMPULSE : Q := 3.
Definition SUBMUNITION_LIFESPAN_MS : Q := 5000.
Definition CYLINDER_SEGMENTS : nat := 16.

(** ** Vectors and quaternions of the engine *)

Record Vec3 : Type := mkVec3 { vx : Q; vy : Q; vz : Q }.

Record Quaternion : Type := mkQuat { qx : Q; qy : Q; qz : Q; qw : Q }.

Definition vadd (a b : Vec3) : Vec3 :=
  mkVec3 (vx a + vx b) (vy a + vy b) (vz a + vz b).

Definition vscale (k : Q) (a : Vec3) : Vec3 :=
  mkVec3 (k * vx a) (k * vy a) (k * vz a).

Definition lengthSquared (a : Vec3) : Q :=
  vx a * vx a + vy a * vy a + vz a * vz a.

(** Component-wise equality of vectors up to the equality of rationals. *)
Definition veq (a b : Vec3) : Prop :=
  vx a == vx b /\ vy a == vy b /\ vz a == vz b.

(** [Quaternion.vmult] of cannon-es: the vector [v] rotated by [q]. *)
Definition vmult (q : Quaternion) (v : Vec3) : Vec3 :=
  let x := vx v in let y := vy v in let z := vz v in
  let ix := qw q * x + qy q * z - qz q * y in
  let iy := qw q * y + qz q * x - qx q * z in
  let iz := qw q * z + qx q * y - qy q * x in
  let iw := - qx q * x - qy q * y - qz q * z in
  mkVec3 (ix * qw q + iw * - qx q + iy * - qz q - iz * - qy q)
         (iy * qw q + iw * - qy q + iz * - qx q - ix * - qz q)
         (iz * qw q + iw * - qz q + ix * - qy q - iy * - qx q).

Definition identityQuaternion : Quaternion := mkQuat 0 0 0 1.

(** ** Bodies *)

Inductive Shape : Type :=
  | Sphere (radius : Q)
  | Box (halfExtents : Vec3)
  | Cylinder (radiusTop radiusBottom height : Q) (numSegments : nat).

(** [Shape.type] of cannon-es ([Shape.types]). *)
Definition shapeType (s : Shape) : Z :=
  match s with
  | Sphere _ => 1
  | Box _ => 4
  | Cylinder _ _ _ _ => 128
  end%Z.

(** [init] sets the module variable to the type of a freshly built sphere. *)
Definition sphereShapeTypeNumber : Z := shapeType (Sphere (1 # 10)).

Inductive SleepState : Type := AWAKE | SLEEPY | SLEEPING.

Definition isSleeping (s : SleepState) : bool :=
  match s with SLEEPING => true | _ => false end.

(** What one [world.step] rewrites in a body. *)
Record Kinematics : Type := mkKin {
  kPosition : Vec3;
  kQuaternion : Quaternion;
  kVelocity : Vec3;
  kSleepState : SleepState
}.

Record Body : Type := mkBody {
  shapes : list Shape;
  mass : Q;
  linearDamping : Q;
  position : Vec3;
  quaternion : Quaternion;
  velocity : Vec3;
  sleepState : SleepState
}.

Definition newBody (m : Q) (s : Shape) : Body :=
  mkBody [s] m (1 # 100) (mkVec3 0 0 0) identityQuaternion (mkVec3 0 0 0) AWAKE.

Definition setPosition (b : Body) (p : Vec3) : Body :=
  mkBody (shapes b) (mass b) (linearDamping b) p (quaternion b) (velocity b)
         (sleepState b).

Definition setLinearDamping (b : Body) (d : Q) : Body :=
  mkBody (shapes b) (mass b) d (position b) (quaternion b) (velocity b)
         (sleepState b).

Definition setVelocity (b : Body) (v : Vec3) : Body :=
  mkBody (shapes b) (mass b) (linearDamping b) (position b) (quaternion b) v
         (sleepState b).

Definition setKinematics (b : Body) (k : Kinematics) : Body :=
  mkBody (shapes b) (mass b) (linearDamping b) (kPosition k) (kQuaternion k)
         (kVelocity k) (kSleepState k).

Definition invMass (b : Body) : Q :=
  if Qltb 0 (mass b) then / mass b else 0.

(** [Body.applyImpulse] of cannon-es, linear part: the velocity gains the
    impulse scaled by the inverse mass.  (The angular part changes the angular
    velocity only, which the game logic never reads.) *)
Definition applyImpulse (b : Body) (impulse : Vec3) : Body :=
  setVelocity b (vadd (velocity b) (vscale (invMass b) impulse)).

(** ** Records of [types.ts] *)

Inductive ProjectileType : Type := STANDARD | HEAVY | EXPLOSIVE | CLUSTER.

Definition ProjectileType_eqb (a b : ProjectileType) : bool :=
  match a, b with
  | STANDARD, STANDARD | HEAVY, HEAVY | EXPLOSIVE, EXPLOSIVE
  | CLUSTER, CLUSTER => true
  | _, _ => false
  end.

Definition projectileTypeName (t : ProjectileType) : string :=
  match t with
  | STANDARD => "STANDARD"
  | HEAVY => "HEAVY"
  | EXPLOSIVE => "EXPLOSIVE"
  | CLUSTER => "CLUSTER"
  end.

Inductive BlockShape : Type :=
  | cube | cylinder | sphere | cube_2x1x1 | cube_3x1x1.

Record BlockConfig : Type := mkBlockConfig {
  bcId : string;
  bcX : Q;
  bcY : Q;
  bcZ : Q;
  bcShape : option BlockShape;
  bcIsKing : option bool
}.

Record LevelConfiguration : Type := mkLevel {
  structure : list BlockConfig
}.

(** [PhysicsObject]; an optional field of the interface is an [option].
    The mesh is left out.  [mesh] and [body] are required fields, so the
    guards of the source on their presence ([obj.mesh && obj.body],
    [!proj.body], [obj.body]) always pass and are not repeated below.
    [onCollideHandler] tells whether [launchProjectile] attached the listener
    of explosive projectiles. *)
Record PhysicsObject : Type := mkObj {
  body : Body;
  id : string;
  isKing : option bool;
  initialY : Q;
  isFallen : bool;
  projectileType : option ProjectileType;
  lifeSpan : option Q;
  creationTime : option Q;
  hasSplit : option bool;
  isSubmunition : option bool;
  onCollideHandler : bool
}.

(** Truthiness of optional booleans and numbers. *)
Definition truthyB (o : option bool) : bool :=
  match o with Some b => b | None => false end.

Definition truthyN (o : option Q) : bool :=
  match o with Some q => negb (Qeq_bool q 0) | None => false end.

Definition setBody (o : PhysicsObject) (b : Body) : PhysicsObject :=
  mkObj b (id o) (isKing o) (initialY o) (isFallen o) (projectileType o)
        (lifeSpan o) (creationTime o) (hasSplit o) (isSubmunition o)
        (onCollideHandler o).

Definition setIsFallen (o : PhysicsObject) (f : bool) : PhysicsObject :=
  mkObj (body o) (id o) (isKing o) (initialY o) f (projectileType o)
        (lifeSpan o) (creationTime o) (hasSplit o) (isSubmunition o)
        (onCollideHandler o).

Definition setHasSplit (o : PhysicsObject) (f : bool) : PhysicsObject :=
  mkObj (body o) (id o) (isKing o) (initialY o) (isFallen o) (projectileType o)
        (lifeSpan o) (creationTime o) (Some f) (isSubmunition o)
        (onCollideHandler o).

(** ** [createBlockVisualAndPhysics] and [createStructure] *)

Definition blockCannonShape (shapeTag : BlockShape) : Shape :=
  match shapeTag with
  | cylinder =>
      Cylinder (BLOCK_SIZE / 2) (BLOCK_SIZE / 2) BLOCK_SIZE CYLINDER_SEGMENTS
  | sphere => Sphere (BLOCK_SIZE / 2)
  | cube_2x1x1 => Box (mkVec3 BLOCK_SIZE (BLOCK_SIZE / 2) (BLOCK_SIZE / 2))
  | cube_3x1x1 =>
      Box (mkVec3 (BLOCK_SIZE * (15 # 10)) (BLOCK_SIZE / 2) (BLOCK_SIZE / 2))
  | cube => Box (mkVec3 (BLOCK_SIZE / 2) (BLOCK_SIZE / 2) (BLOCK_SIZE / 2))
  end.

Definition createBlockVisualAndPhysics (blockConf : BlockConfig)
  : PhysicsObject :=
  let shapeTag := match bcShape blockConf with Some s => s | None => cube end in
  let b := setPosition (newBody BLOCK_MASS (blockCannonShape shapeTag))
             (mkVec3 (bcX blockConf) (bcY blockConf) (bcZ blockConf)) in
  mkObj b (bcId blockConf) (Some (truthyB (bcIsKing blockConf)))
        (bcY blockConf) false None None None None None false.

(** ** The canvas state *)

(** [mounted] stands for the four references (world, scene, renderer,
    camera) that [init] sets together and the unmount clean-up clears. *)
Record Canvas : Type := mkCanvas {
  mounted : bool;
  physicsObjects : list PhysicsObject;
  projectiles : list PhysicsObject;
  lastCallTime : Q
}.

Definition createStructure (levelConfig : LevelConfiguration) (c : Canvas)
  : Canvas :=
  if mounted c then
    mkCanvas (mounted c)
             (map createBlockVisualAndPhysics (structure levelConfig))
             (projectiles c) (lastCallTime c)
  else c.

(** [resetLevel] at time [now] (the value of [performance.now()]). *)
Definition resetLevel (levelConfig : LevelConfiguration) (now : Q) (c : Canvas)
  : Canvas :=
  if mounted c then
    let c1 := createStructure levelConfig
                (mkCanvas (mounted c) (physicsObjects c) [] (lastCallTime c)) in
    mkCanvas (mounted c1) (physicsObjects c1) (projectiles c1) now
  else c.

(** The canvas right after [init] has mounted it on a level. *)
Definition initCanvas (levelConfig : LevelConfiguration) (now : Q) : Canvas :=
  createStructure levelConfig (mkCanvas true [] [] now).

(** ** [getGoldenBlockPosition] *)

Definition getGoldenBlockPosition (c : Canvas) : option Vec3 :=
  match find (fun obj => truthyB (isKing obj) && negb (isFallen obj))
             (physicsObjects c) with
  | Some goldenBlock => Some (position (body goldenBlock))
  | None => None
  end.

(** ** Fall detection (the first loop of [animate]) *)

Definition hasDroppedSignificantly (obj : PhysicsObject) : bool :=
  Qltb (vy (position (body obj))) (initialY obj - BLOCK_SIZE * (375 # 1000)).

Definition bodyUpDirection (obj : PhysicsObject) : Vec3 :=
  vmult (quaternion (body obj)) (mkVec3 0 1 0).

Definition isSignificantlyTilted (obj : PhysicsObject) : bool :=
  Qltb (vy (bodyUpDirection obj)) (1 # 2).

Definition isSphere (obj : PhysicsObject) : bool :=
  match shapes (body obj) with
  | s :: _ => Z.eqb (shapeType s) sphereShapeTypeNumber
  | [] => false
  end.

Definition fallCondition (obj : PhysicsObject) : bool :=
  hasDroppedSignificantly obj
  || (negb (isSphere obj) && isSignificantlyTilted obj).

(** A block-fallen event: the arguments of [onBlockFallen]. *)
Definition FallEvent : Type := (string * bool)%type.

(** The body of the loop for one structure object: the object afterwards and
    the events it fired. *)
Definition detectFall (obj : PhysicsObject) : PhysicsObject * list FallEvent :=
  if negb (isFallen obj) then
    if fallCondition obj then
      (setIsFallen obj true, [(id obj, truthyB (isKing obj))])
    else (obj, [])
  else (obj, []).

Fixpoint detectFalls (objs : list PhysicsObject)
  : list PhysicsObject * list FallEvent :=
  match objs with
  | [] => ([], [])
  | obj :: rest =>
      let (obj', ev) := detectFall obj in
      let (rest', evs) := detectFalls rest in
      (obj' :: rest', ev ++ evs)
  end.

(** ** One [world.step] *)

Inductive BodyRef : Type :=
  | BlockBody (index : nat)
  | OtherBody.

Record Contact : Type := mkContact {
  otherBody : BodyRef;
  impactVelocityAlongNormal : Q
}.

(** A collide event as the listener of an explosive projectile sees it;
    [positionAtEvent] is the position of the projectile's body when the engine
    dispatches the event. *)
Record CollideEvent : Type := mkCollide {
  contact : option Contact;
  positionAtEvent : Vec3
}.

Record StepOutcome : Type := mkOutcome {
  blockKinematics : nat -> Kinematics;
  projectileKinematics : nat -> Kinematics;
  collideEvents : nat -> list CollideEvent
}.

(** [onCollideExplosive], the listener [launchProjectile] attaches to an
    explosive projectile: the object afterwards and the centres of the
    explosions it triggered. *)
Definition onCollideExplosive (blocks : list PhysicsObject)
  (projectileObject : PhysicsObject) (event : CollideEvent)
  : PhysicsObject * list Vec3 :=
  if truthyB (hasSplit projectileObject) then (projectileObject, [])
  else
    match contact event with
    | None => (projectileObject, [])
    | Some ct =>
        let isBlock :=
          match otherBody ct with
          | BlockBody i => Nat.ltb i (List.length blocks)
          | OtherBody => false
          end in
        if isBlock && Qltb 1 (Qabs (impactVelocityAlongNormal ct)) then
          (setHasSplit projectileObject true, [positionAtEvent event])
        else (projectileObject, [])
    end.

Fixpoint dispatchCollide (blocks : list PhysicsObject) (p : PhysicsObject)
  (events : list CollideEvent) : PhysicsObject * list Vec3 :=
  match events with
  | [] => (p, [])
  | e :: rest =>
      let (p1, x1) := onCollideExplosive blocks p e in
      let (p2, x2) := dispatchCollide blocks p1 rest in
      (p2, x1 ++ x2)
  end.

(** The step as one projectile lives it: the listener of an explosive
    projectile sees the collide events of the step, then the body holds its
    new kinematic state. *)
Definition stepProjectile (blocks : list PhysicsObject) (o : StepOutcome)
  (j : nat) (p : PhysicsObject) : PhysicsObject * list Vec3 :=
  let (p1, xs) :=
    if onCollideHandler p then dispatchCollide blocks p (collideEvents o j)
    else (p, []) in
  (setBody p1 (setKinematics (body p1) (projectileKinematics o j)), xs).

Fixpoint stepProjectiles (blocks : list PhysicsObject) (o : StepOutcome)
  (j : nat) (ps : list PhysicsObject) : list PhysicsObject * list Vec3 :=
  match ps with
  | [] => ([], [])
  | p :: rest =>
      let (p', xs) := stepProjectile blocks o j p in
      let (rest', ys) := stepProjectiles blocks o (S j) rest in
      (p' :: rest', xs ++ ys)
  end.

(** The step as the structure lives it: every body holds its new kinematic
    state. *)
Fixpoint stepBlocks (o : StepOutcome) (i : nat) (objs : list PhysicsObject)
  : list PhysicsObject :=
  match objs with
  | [] => []
  | obj :: rest =>
      setBody obj (setKinematics (body obj) (blockKinematics o i))
      :: stepBlocks o (S i) rest
  end.

(** ** The projectile sweep (the second loop of [animate]) *)

Definition isType (t : ProjectileType) (proj : PhysicsObject) : bool :=
  match projectileType proj with
  | Some t' => ProjectileType_eqb t' t
  | None => false
  end.

Definition hasProjectileType (proj : PhysicsObject) : bool :=
  match projectileType proj with Some _ => true | None => false end.

Definition expiredAt (currentTime : Q) (proj : PhysicsObject) : bool :=
  if truthyN (lifeSpan proj) && truthyN (creationTime proj) then
    match lifeSpan proj, creationTime proj with
    | Some l, Some c => Qltb l (currentTime - c)
    | _, _ => false
    end
  else false.

Definition decimal (n : nat) : string :=
  NilEmpty.string_of_uint (Nat.to_uint n).

(** The object pushed for submunition [i]; [spreadDir] is the value of
    [new CANNON.Vec3(Math.random() - 0.5, ...).unit()], a vector of length
    one. *)
Definition makeSubmunition (proj : PhysicsObject) (currentTime : Q)
  (spreadDir : Vec3) (i : nat) : PhysicsObject :=
  let b0 := setLinearDamping
              (newBody SUBMUNITION_MASS (Sphere SUBMUNITION_RADIUS)) (2 # 10) in
  let b1 := setPosition b0 (position (body proj)) in
  let b2 := setVelocity b1 (velocity (body proj)) in
  let b3 := applyImpulse b2 (vscale SUBMUNITION_SPREAD_IMPULSE spreadDir) in
  mkObj b3 ("sub_" ++ id proj ++ "_" ++ decimal i)%string None
        (vy (position b3)) false
        (Some STANDARD) (Some SUBMUNITION_LIFESPAN_MS) (Some currentTime) None
        (Some true) false.

(** What the loop body does with one projectile: the projectile afterwards,
    whether it was pushed to [projectilesToRemove], the submunitions pushed to
    [newSubmunitions] and the centres handed to [handleExplosion]. *)
Record SweepResult : Type := mkSweep {
  swept : PhysicsObject;
  shouldRemove : bool;
  spawned : list PhysicsObject;
  exploded : list Vec3
}.

Definition transition (currentTime : Q) (spreadDir : nat -> Vec3)
  (proj : PhysicsObject) : PhysicsObject * list PhysicsObject * list Vec3 :=
  let expired := expiredAt currentTime proj in
  if isType EXPLOSIVE proj && negb (truthyB (hasSplit proj)) then
    if expired || isSleeping (sleepState (body proj)) then
      (setHasSplit proj true, [], [position (body proj)])
    else (proj, [], [])
  else if isType CLUSTER proj && negb (truthyB (hasSplit proj)) && expired then
    (setHasSplit proj true,
     map (fun i => makeSubmunition proj currentTime (spreadDir i) i)
         (seq 0 SUBMUNITION_COUNT),
     [])
  else (proj, [], []).

Definition removalCheck (expired : bool) (proj : PhysicsObject) : bool :=
  if Qltb (vy (position (body proj))) (-10) then true
  else if truthyB (hasSplit proj) then true
  else if expired && truthyB (isSubmunition proj) then true
  else if isSleeping (sleepState (body proj))
          && Qltb (lengthSquared (velocity (body proj))) (1 # 100) then
    negb (hasProjectileType proj) || truthyB (isSubmunition proj)
  else false.

Definition sweepProjectile (currentTime : Q) (spreadDir : nat -> Vec3)
  (proj : PhysicsObject) : SweepResult :=
  let '(proj1, subs, xs) := transition currentTime spreadDir proj in
  mkSweep proj1 (removalCheck (expiredAt currentTime proj) proj1) subs xs.

Fixpoint sweepProjectiles (currentTime : Q) (spreadDir : nat -> nat -> Vec3)
  (j : nat) (ps : list PhysicsObject) : list SweepResult :=
  match ps with
  | [] => []
  | p :: rest =>
      sweepProjectile currentTime (spreadDir j) p
      :: sweepProjectiles currentTime spreadDir (S j) rest
  end.

(** The projectiles that stay: those the loop did not push to
    [projectilesToRemove]. *)
Definition keptProjectiles (rs : list SweepResult) : list PhysicsObject :=
  map swept (filter (fun r => negb (shouldRemove r)) rs).

Definition newSubmunitions (rs : list SweepResult) : list PhysicsObject :=
  List.concat (map spawned rs).

(** ** [animate]: one frame *)

Record FrameInput : Type := mkFrame {
  currentTime : Q;
  stepWorld : Q -> StepOutcome;
  spreadDirection : nat -> nat -> Vec3
}.

Record FrameOutput : Type := mkOutput {
  fallenEvents : list FallEvent;
  explosions : list Vec3;
  sweep : list SweepResult
}.

Definition noOutput : FrameOutput := mkOutput [] [] [].

Definition animate (inp : FrameInput) (c : Canvas) : Canvas * FrameOutput :=
  let deltaTime :=
    Qmax 0 (Qmin (1 / 30) ((currentTime inp - lastCallTime c) / 1000)) in
  if mounted c then
    let o := stepWorld inp deltaTime in
    let (projs1, xs1) :=
      stepProjectiles (physicsObjects c) o 0 (projectiles c) in
    let (blocks, evs) := detectFalls (stepBlocks o 0 (physicsObjects c)) in
    let rs :=
      sweepProjectiles (currentTime inp) (spreadDirection inp) 0 projs1 in
    (mkCanvas (mounted c) blocks (keptProjectiles rs ++ newSubmunitions rs)
              (currentTime inp),
     mkOutput evs (xs1 ++ List.concat (map exploded rs)) rs)
  else
    (mkCanvas (mounted c) (physicsObjects c) (projectiles c) (currentTime inp),
     noOutput).

(** ** [launchProjectile] *)

Record LaunchInput : Type := mkLaunch {
  camPos : Vec3;
  camDir : Vec3;
  dateNow : Z;
  randomText : string;
  launchTime : Q
}.

Definition projectileRadius (t : ProjectileType) : Q :=
  match t with
  | HEAVY => HEAVY_PROJECTILE_RADIUS
  | EXPLOSIVE => EXPLOSIVE_PROJECTILE_RADIUS
  | CLUSTER => CLUSTER_PROJECTILE_RADIUS
  | STANDARD => PROJECTILE_RADIUS
  end.

Definition projectileMass (t : ProjectileType) : Q :=
  match t with
  | HEAVY => HEAVY_PROJECTILE_MASS
  | EXPLOSIVE => EXPLOSIVE_PROJECTILE_MASS
  | CLUSTER => CLUSTER_PROJECTILE_MASS
  | STANDARD => PROJECTILE_MASS
  end.

Definition projectileLifeSpan (t : ProjectileType) : option Q :=
  match t with
  | EXPLOSIVE => Some EXPLOSIVE_PROJECTILE_LIFESPAN_MS
  | CLUSTER => Some CLUSTER_SPLIT_DELAY_MS
  | HEAVY | STANDARD => None
  end.

Definition newProjectile (launchPower : Q) (t : ProjectileType)
  (li : LaunchInput) : PhysicsObject :=
  let radius := projectileRadius t in
  let launchOffset := radius + (5 # 10) + BLOCK_SIZE / 2 in
  let finalVelocity := PROJECTILE_VELOCITY_MULTIPLIER * launchPower in
  let b0 :=
    setLinearDamping (newBody (projectileMass t) (Sphere radius)) (1 # 10) in
  let b1 :=
    setPosition b0 (vadd (camPos li) (vscale launchOffset (camDir li))) in
  let b2 := setVelocity b1 (vscale finalVelocity (camDir li)) in
  mkObj b2
        ("proj_" ++ projectileTypeName t ++ "_"
           ++ NilEmpty.string_of_int (Z.to_int (dateNow li)) ++ "_"
           ++ randomText li)%string
        None (vy (position b2)) false (Some t) (projectileLifeSpan t)
        (Some (launchTime li)) (Some false) None
        (ProjectileType_eqb t EXPLOSIVE).

Definition launchProjectile (launchPower : Q) (t : ProjectileType)
  (li : LaunchInput) (c : Canvas) : Canvas :=
  if mounted c then
    mkCanvas (mounted c) (physicsObjects c)
             (projectiles c ++ [newProjectile launchPower t li])
             (lastCallTime c)
  else c.

(** ** Sessions: what happens between two loads of a level *)

Inductive Action : Type :=
  | Frame (inp : FrameInput)
  | Launch (launchPower : Q) (t : ProjectileType) (li : LaunchInput).

Definition perform (a : Action) (c : Canvas) : Canvas * FrameOutput :=
  match a with
  | Frame inp => animate inp c
  | Launch launchPower t li => (launchProjectile launchPower t li c, noOutput)
  end.

Fixpoint run (actions : list Action) (c : Canvas)
  : Canvas * list FrameOutput :=
  match actions with
  | [] => (c, [])
  | a :: rest =>
      let (c1, out) := perform a c in
      let (c2, outs) := run rest c1 in
      (c2, out :: outs)
  end.

(** ** The charge controller *)

(** The remainder operator [%] of JavaScript on finite numbers with a
    non-zero divisor: the dividend minus the divisor times the quotient
    truncated towards zero. *)
Definition jsRem (a b : Q) : Q :=
  let q := a / b in
  a - b * inject_Z (Z.quot (Qnum q) (Zpos (Qden q))).

Record ChargeState : Type := mkCharge {
  isChargingActive : bool;
  chargeStartTime : Q
}.

(** The gates [handlePointerDown] reads. *)
Record PointerDown : Type := mkPointerDown {
  button : Z;
  canAttemptCharge : bool;
  isDraggingCamera : bool;
  isDelegateModeActive : bool;
  onCanvas : bool
}.

Definition handlePointerDown (ev : PointerDown) (now : Q) (st : ChargeState)
  : ChargeState :=
  if negb (Z.eqb (button ev) 0) then st
  else if negb (canAttemptCharge ev) || isDraggingCamera ev
          || isChargingActive st || isDelegateModeActive ev then st
  else if onCanvas ev then mkCharge true now
  else st.

(** Lines of [chargeUpdateLoop] after the elapsed time is read. *)
Definition displayPowerAfter (elapsedTime : Q) : Q :=
  let rawPower := elapsedTime / MAX_CHARGE_DURATION_MS in
  let displayPower := jsRem rawPower MAX_LAUNCH_POWER in
  if Qeq_bool displayPower 0 && Qltb 0 rawPower then MAX_LAUNCH_POWER
  else displayPower.

(** [chargeUpdateLoop] at time [now]: the power handed to [onChargeProgress]. *)
Definition chargeUpdateLoop (now : Q) (st : ChargeState) : option Q :=
  if negb (isChargingActive st) then None
  else Some (displayPowerAfter (now - chargeStartTime st)).

(** Lines of [handlePointerUpGlobal] after the elapsed time is read. *)
Definition finalLaunchPowerAfter (elapsedTime : Q) : Q :=
  let rawFinalPower := elapsedTime / MAX_CHARGE_DURATION_MS in
  let effectiveFinalPower := jsRem rawFinalPower MAX_LAUNCH_POWER in
  let effectiveFinalPower :=
    if Qeq_bool effectiveFinalPower 0 && Qltb 0 rawFinalPower
    then MAX_LAUNCH_POWER else effectiveFinalPower in
  Qmax MIN_LAUNCH_POWER effectiveFinalPower.

(** [handlePointerUpGlobal] at time [now]: the state afterwards and the power
    handed to [onChargeComplete]. *)
Definition handlePointerUpGlobal (now : Q) (st : ChargeState)
  : ChargeState * option Q :=
  if negb (isChargingActive st) then (st, None)
  else (mkCharge false (chargeStartTime st),
        Some (finalLaunchPowerAfter (now - chargeStartTime st))).

(** The power curve in the words of the specification: the mathematical
    remainder of the raw power modulo the maximum power, and the maximum power
    where that remainder is zero. *)
Definition specRemainder (x m : Q) : Q := x - m * inject_Z (Qfloor (x / m)).

Definition specPower (elapsedMs : Q) : Q :=
  let r := specRemainder (elapsedMs / 1500) 1 in
  if Qeq_bool r 0 then 1 else r.

(** ** The explosion impulse, over the reals *)

Module Explosion.

Local Open Scope R_scope.

Record Vec3 : Type := mkVec3 { x : R; y : R; z : R }.

Definition vsub (a b : Vec3) : Vec3 :=
  mkVec3 (x a - x b) (y a - y b) (z a - z b).

Definition scale (k : R) (a : Vec3) : Vec3 :=
  mkVec3 (k * x a) (k * y a) (k * z a).

Definition length (a : Vec3) : R :=
  sqrt (x a * x a + y a * y a + z a * z a).

(** [Vec3.normalize] of cannon-es: a vector of norm zero is set to zero. *)
Definition normalize (a : Vec3) : Vec3 :=
  let n := length a in
  if Rlt_dec 0 n then
    let invN := 1 / n in mkVec3 (x a * invN) (y a * invN) (z a * invN)
  else mkVec3 0 0 0.

Record Body : Type := mkBody {
  position : Vec3;
  sleepState : SleepState
}.

(** The two lists of objects of the canvas, by their bodies. *)
Record World : Type := mkWorld {
  mounted : bool;
  physicsObjects : list Body;
  projectiles : list Body
}.

Inductive BodyRef : Type :=
  | StructureBody (index : nat)
  | ProjectileBody (index : nat).

(** The calls [handleExplosion] makes on bodies of the engine. *)
Inductive Effect : Type :=
  | ApplyImpulse (target : BodyRef) (impulse : Vec3) (relativePoint : Vec3)
  | WakeUp (target : BodyRef).

Definition targetOf (e : Effect) : BodyRef :=
  match e with
  | ApplyImpulse t _ _ => t
  | WakeUp t => t
  end.

(** The body of the loop over [physicsObjectsRef.current]. *)
Definition blast (center : Vec3) (explosionRadius explosionStrength : R)
  (i : nat) (b : Body) : list Effect :=
  let distVec := vsub (position b) center in
  let distance := length distVec in
  if Rlt_dec distance explosionRadius then
    let direction := normalize distVec in
    let strengthFactor := Rmax 0 (1 - distance / explosionRadius) in
    let impulseMagnitude := explosionStrength * strengthFactor in
    ApplyImpulse (StructureBody i) (scale impulseMagnitude direction)
                 (position b)
    :: (if isSleeping (sleepState b) then [WakeUp (StructureBody i)] else [])
  else [].

Fixpoint blastAll (center : Vec3) (explosionRadius explosionStrength : R)
  (i : nat) (bodies : list Body) : list Effect :=
  match bodies with
  | [] => []
  | b :: rest =>
      blast center explosionRadius explosionStrength i b
      ++ blastAll center explosionRadius explosionStrength (S i) rest
  end.

Definition handleExplosion (center : Vec3)
  (explosionRadius explosionStrength : R) (w : World) : list Effect :=
  if mounted w then
    blastAll center explosionRadius explosionStrength 0 (physicsObjects w)
  else [].

(** The effects aimed at one body. *)
Definition BodyRef_eqb (a b : BodyRef) : bool :=
  match a, b with
  | StructureBody i, StructureBody j => Nat.eqb i j
  | ProjectileBody i, ProjectileBody j => Nat.eqb i j
  | _, _ => false
  end.

Definition effectsOn (t : BodyRef) (es : list Effect) : list Effect :=
  filter (fun e => BodyRef_eqb (targetOf e) t) es.

(** The impulses one body receives. *)
Fixpoint impulsesOn (t : BodyRef) (es : list Effect) : list Vec3 :=
  match es with
  | [] => []
  | ApplyImpulse t' impulse _ :: rest =>
      if BodyRef_eqb t' t then impulse :: impulsesOn t rest
      else impulsesOn t rest
  | WakeUp _ :: rest => impulsesOn t rest
  end.

(** An explosion at the origin with the radius and strength of the explosive
    projectile, one awake block at the centre and one projectile at distance
    one. *)
Definition center0 : Vec3 := mkVec3 0 0 0.

Definition crowdedWorld : World :=
  mkWorld true [mkBody (mkVec3 0 0 0) AWAKE] [mkBody (mkVec3 1 0 0) AWAKE].

(** A sleeping block at distance two from the centre. *)
Definition sleepyWorld : World :=
  mkWorld true [mkBody (mkVec3 0 2 0) SLEEPING] [].

End Explosion.

(** ** Notions used to state the properties *)

(** How many of the events carry the identifier [ident]. *)
Definition countEvents (ident : string) (evs : list FallEvent) : nat :=
  List.length (filter (fun ev => String.eqb (fst ev) ident) evs).

(** The structure object with index [i] as the frame of [inp] sees it when
    fall detection runs, that is after the step of the world. *)
Definition steppedBlock (inp : FrameInput) (c : Canvas) (i : nat)
  : option PhysicsObject :=
  let deltaTime :=
    Qmax 0 (Qmin (1 / 30) ((currentTime inp - lastCallTime c) / 1000)) in
  nth_error (stepBlocks (stepWorld inp deltaTime) 0 (physicsObjects c)) i.

(** The action is a frame in which a fall condition holds for object [i]. *)
Definition fallsIn (a : Action) (c : Canvas) (i : nat) : bool :=
  match a with
  | Frame inp =>
      mounted c &&
      match steppedBlock inp c i with
      | Some obj => fallCondition obj
      | None => false
      end
  | Launch _ _ _ => false
  end.

(** The first action of the session in which a fall condition holds for
    object [i], if there is one. *)
Fixpoint firstFallStep (actions : list Action) (c : Canvas) (i : nat)
  : option nat :=
  match actions with
  | [] => None
  | a :: rest =>
      if fallsIn a c i then Some O
      else option_map S (firstFallStep rest (fst (perform a c)) i)
  end.

(** The events of action [k] of a session. *)
Definition eventsAt (k : nat) (outs : list FrameOutput) : list FallEvent :=
  match nth_error outs k with
  | Some out => fallenEvents out
  | None => []
  end.

(** The canvas holds the structure of [levelConfig] as [createStructure]
    builds it. *)
Definition loadedWith (levelConfig : LevelConfiguration) (c : Canvas) : Prop :=
  map id (physicsObjects c) = map bcId (structure levelConfig)
  /\ map (fun o => truthyB (isKing o)) (physicsObjects c)
     = map (fun b => truthyB (bcIsKing b)) (structure levelConfig).

Definition isStep (o : option nat) (k : nat) : bool :=
  match o with
  | Some n => Nat.eqb n k
  | None => false
  end.

Definition isSome {A : Type} (o : option A) : bool :=
  match o with Some _ => true | None => false end.

(** ** Notions used to state the properties of projectiles *)

(** A cluster projectile as [launchProjectile] builds it at time [t0], before
    it has split. *)
Definition launchedCluster (t0 : Q) (p : PhysicsObject) : Prop :=
  projectileType p = Some CLUSTER
  /\ hasSplit p = Some false
  /\ lifeSpan p = Some CLUSTER_SPLIT_DELAY_MS
  /\ creationTime p = Some t0
  /\ isSubmunition p = None
  /\ onCollideHandler p = false.




(** The submunitions a frame spawned from the projectiles named [ident]. *)
Definition spawnedBy (ident : string) (out : FrameOutput)
  : list PhysicsObject :=
  List.concat
    (map spawned
         (filter (fun r => String.eqb (id (swept r)) ident) (sweep out))).

Definition spawnedByAt (k : nat) (ident : string) (outs : list FrameOutput)
  : list PhysicsObject :=
  match nth_error outs k with
  | Some out => spawnedBy ident out
  | None => []
  end.

(** No launch among the actions reuses the identifier [ident]. *)
Definition launchesAvoid (ident : string) (actions : list Action) : bool :=
  forallb (fun a =>
             match a with
             | Frame _ => true
             | Launch launchPower t li =>
                 negb (String.eqb (id (newProjectile launchPower t li)) ident)
             end) actions.

(** The outcome of the step of the world in the frame of [inp]. *)
Definition outcomeOf (inp : FrameInput) (c : Canvas) : StepOutcome :=
  stepWorld inp
    (Qmax 0 (Qmin (1 / 30) ((currentTime inp - lastCallTime c) / 1000))).

(** No projectile of the list is a cluster projectile named [ident]. *)
Definition noClusterNamed (ident : string) (ps : list PhysicsObject) : Prop :=
  forall q, In q ps -> id q = ident -> isType CLUSTER q = false.

(** ** Sample levels, frames and sessions *)

Definition baseConf : BlockConfig :=
  mkBlockConfig "base" 0 (1 # 2) 0 None None.
Definition drumConf : BlockConfig :=
  mkBlockConfig "drum" 0 (3 # 2) 0 (Some cylinder) None.
Definition ballConf : BlockConfig :=
  mkBlockConfig "ball" 0 (5 # 2) 0 (Some sphere) (Some false).
Definition crownConf : BlockConfig :=
  mkBlockConfig "crown" 0 (7 # 2) 0 (Some cube) (Some true).

(** Three supports and the golden block on top. *)
Definition towerLevel : LevelConfiguration :=
  mkLevel [baseConf; drumConf; ballConf; crownConf].

(** A level without a golden block. *)
Definition plainLevel : LevelConfiguration := mkLevel [baseConf; drumConf].

Definition atRest (y : Q) : Kinematics :=
  mkKin (mkVec3 0 y 0) identityQuaternion (mkVec3 0 0 0) AWAKE.

Definition asleep (y : Q) : Kinematics :=
  mkKin (mkVec3 0 y 0) identityQuaternion (mkVec3 0 0 0) SLEEPING.

(** A unit quaternion that turns the up axis into the horizontal z axis: the
    up axis is tilted by 90 degrees. *)
Definition quarterTurn : Quaternion :=
  mkQuat (1 # 2) (1 # 2) (1 # 2) (1 # 2).

Definition tilted (y : Q) : Kinematics :=
  mkKin (mkVec3 0 y 0) quarterTurn (mkVec3 0 0 0) AWAKE.

(** Every block stays where the level put it; projectiles fly at height 3. *)
Definition standing : StepOutcome :=
  mkOutcome (fun i => atRest (inject_Z (Z.of_nat i) + (1 # 2)))
            (fun _ => mkKin (mkVec3 0 3 0) identityQuaternion (mkVec3 0 0 (-5))
                            AWAKE)
            (fun _ => []).

(** The top block has dropped to height 1; the others stand. *)
Definition toppled : StepOutcome :=
  mkOutcome (fun i => if Nat.eqb i 3 then atRest 1
                      else atRest (inject_Z (Z.of_nat i) + (1 # 2)))
            (fun _ => mkKin (mkVec3 0 3 0) identityQuaternion (mkVec3 0 0 (-5))
                            AWAKE)
            (fun _ => []).

(** The lowest block has dropped out of the world; the others stand. *)
Definition undermined : StepOutcome :=
  mkOutcome (fun i => if Nat.eqb i 0 then atRest (-3)
                      else atRest (inject_Z (Z.of_nat i) + (1 # 2)))
            (fun _ => atRest (1 # 4))
            (fun _ => []).

(** Every projectile lies asleep on the ground, at the height of its
    radius. *)
Definition settled : StepOutcome :=
  mkOutcome (fun i => atRest (inject_Z (Z.of_nat i) + (1 # 2)))
            (fun _ => asleep (1 # 4))
            (fun _ => []).

(** Every projectile has fallen through the floor, to height -20. *)
Definition sunk : StepOutcome :=
  mkOutcome (fun i => atRest (inject_Z (Z.of_nat i) + (1 # 2)))
            (fun _ => mkKin (mkVec3 0 (-20) 0) identityQuaternion
                            (mkVec3 0 (-9) 0) AWAKE)
            (fun _ => []).

Definition frameAt (t : Q) (o : StepOutcome) : FrameInput :=
  mkFrame t (fun _ => o) (fun _ _ => mkVec3 (3 # 5) (4 # 5) 0).

Definition towerCanvas : Canvas := initCanvas towerLevel 0.

Definition crown : PhysicsObject := createBlockVisualAndPhysics crownConf.

Definition shot (t : Q) (stamp : Z) : LaunchInput :=
  mkLaunch (mkVec3 0 4 8) (mkVec3 0 0 (-1)) stamp "0.42" t.

Definition towerSession : list Action :=
  [Frame (frameAt 16 standing); Launch 1 STANDARD (shot 20 1700000000020);
   Frame (frameAt 32 toppled); Frame (frameAt 48 toppled)].

Definition plainSession : list Action :=
  [Frame (frameAt 16 standing); Frame (frameAt 32 undermined)].

(** A cluster projectile launched at time 100 into the tower level. *)
Definition clusterCanvas : Canvas :=
  launchProjectile 1 CLUSTER (shot 100 1700000000100) towerCanvas.

Definition clusterParent : PhysicsObject :=
  newProjectile 1 CLUSTER (shot 100 1700000000100).

Definition afterSplit : list Action :=
  [Frame (frameAt 1216 standing); Launch 1 CLUSTER (shot 1220 1700000001220);
   Frame (frameAt 2400 standing)].

(** The first submunition of the cluster parent when it splits at time 1200
    below the floor. *)
Definition sunkSubmunition : PhysicsObject :=
  makeSubmunition
    (fst (stepProjectile (physicsObjects clusterCanvas) sunk 0 clusterParent))
    1200 (mkVec3 (3 # 5) (4 # 5) 0) 0.


(** A charge that started at time 1000. *)
Definition pressed : ChargeState :=
  handlePointerDown (mkPointerDown 0 true false false true) 1000
    (mkCharge false 0).

(** * The rest of the canvas *)

(** ** Camera framing in [createStructure] *)

(** The box the loop over the blocks accumulates. *)
Record Bounds : Type := mkBounds {
  minX : Q; maxX : Q;
  minY : Q; maxY : Q;
  minZ : Q; maxZ : Q
}.

Definition halfWidthOf (b : BlockConfig) : Q :=
  match bcShape b with
  | Some cube_2x1x1 => BLOCK_SIZE
  | Some cube_3x1x1 => BLOCK_SIZE * (15 # 10)
  | _ => BLOCK_SIZE / 2
  end.

Definition halfDepth : Q := BLOCK_SIZE / 2.

(** One round of the loop. *)
Definition extendBounds (acc : Bounds) (b : BlockConfig) : Bounds :=
  mkBounds (Qmin (minX acc) (bcX b - halfWidthOf b))
           (Qmax (maxX acc) (bcX b + halfWidthOf b))
           (Qmin (minY acc) (bcY b - BLOCK_SIZE / 2))
           (Qmax (maxY acc) (bcY b + BLOCK_SIZE / 2))
           (Qmin (minZ acc) (bcZ b - halfDepth))
           (Qmax (maxZ acc) (bcZ b + halfDepth)).

(** The loop starts from plus and minus infinity, so its first round leaves
    the footprint of the first block. *)
Definition footprint (b : BlockConfig) : Bounds :=
  mkBounds (bcX b - halfWidthOf b) (bcX b + halfWidthOf b)
           (bcY b - BLOCK_SIZE / 2) (bcY b + BLOCK_SIZE / 2)
           (bcZ b - halfDepth) (bcZ b + halfDepth).

Definition boundsOf (first : BlockConfig) (rest : list BlockConfig) : Bounds :=
  fold_left extendBounds rest (footprint first).

Definition centerOf (bx : Bounds) : Vec3 :=
  mkVec3 ((minX bx + maxX bx) / 2) ((minY bx + maxY bx) / 2)
         ((minZ bx + maxZ bx) / 2).

(** [Math.max(...) || BLOCK_SIZE * 5]. *)
Definition extentOf (bx : Bounds) : Q :=
  let m := Qmax (Qmax (Qmax (maxX bx - minX bx) (maxY bx - minY bx))
                      (maxZ bx - minZ bx))
                (BLOCK_SIZE * 5) in
  if Qeq_bool m 0 then BLOCK_SIZE * 5 else m.

(** What the camera part of [createStructure] hands to
    [camera.position.set] ([cameraAt]) and to [controls.target.set]
    ([lookingAt]). *)
Record Framing : Type := mkFraming {
  cameraAt : Vec3;
  lookingAt : Vec3
}.

(** The camera part of [createStructure] up to its closing
    [controls.update()], run when the camera and the controls exist:
    the two vectors it sets.  [cameraPosition] and [cameraTarget] are the
    optional fields of the level. *)
Definition frameStructure (cameraPosition cameraTarget : option Vec3)
  (blocks : list BlockConfig) : Framing :=
  mkFraming
    match cameraPosition with
    | Some p => p
    | None =>
        match blocks with
        | first :: rest =>
            let bx := boundsOf first rest in
            let c := centerOf bx in
            let extent := extentOf bx in
            mkVec3 (vx c) (vy c + extent * (75 # 100))
                   (vz c + extent * (15 # 10))
        | [] => mkVec3 0 (BLOCK_SIZE * 2) (BLOCK_SIZE * 5)
        end
    end
    match cameraTarget with
    | Some t => t
    | None =>
        match blocks with
        | first :: rest => centerOf (boundsOf first rest)
        | [] => mkVec3 0 BLOCK_SIZE 0
        end
    end.

(** The distance limits [init] gives the orbit controls. *)
Definition CONTROLS_MIN_DISTANCE : Q := BLOCK_SIZE * 2.
Definition CONTROLS_MAX_DISTANCE : Q := BLOCK_SIZE * 20.

(** The camera part of [createStructure] with its closing
    [controls.update()].  OrbitControls is a dependency: [update] stands for
    that call, from the position and target it finds to those it leaves.  It
    keeps the camera between the two distance limits from the target and
    applies what is left of a damped drag, so the camera it leaves need not
    be the one that was set. *)
Definition cameraAfterLoad (update : Framing -> Framing)
  (cameraPosition cameraTarget : option Vec3) (blocks : list BlockConfig)
  : Framing :=
  update (frameStructure cameraPosition cameraTarget blocks).

(** The footprint of [b] lies inside the box. *)
Definition encloses (bx : Bounds) (b : BlockConfig) : Prop :=
  minX bx <= bcX b - halfWidthOf b /\ bcX b + halfWidthOf b <= maxX bx
  /\ minY bx <= bcY b - BLOCK_SIZE / 2 /\ bcY b + BLOCK_SIZE / 2 <= maxY bx
  /\ minZ bx <= bcZ b - halfDepth /\ bcZ b + halfDepth <= maxZ bx.

(** ** The particle bursts of explosions *)

Definition EXPLOSION_PARTICLE_COUNT : nat := 80.
Definition EXPLOSION_PARTICLE_SIZE : Q := 12 # 100.
Definition EXPLOSION_PARTICLE_LIFESPAN_MS : Q := 800.
Definition EXPLOSION_PARTICLE_INITIAL_SPEED : Q := 6.
Definition EXPLOSION_PARTICLE_GRAVITY : Q := - (25 # 10).
Definition EXPLOSION_PARTICLE_DAMPING : Q := 97 # 100.

(** Entry [j] of the position attribute together with entry [j] of
    [velocities]; [handleExplosion] builds both arrays with one entry per
    particle. *)
Record Particle : Type := mkParticle {
  particlePosition : Vec3;
  particleVelocity : Vec3
}.

(** [ExplosionParticleSystem], with the opacity and size of the material of
    its points. *)
Record ExplosionParticleSystem : Type := mkSystem {
  systemCenter : Vec3;
  particles : list Particle;
  systemCreationTime : Q;
  materialOpacity : Q;
  materialSize : Q
}.

(** The first part of [handleExplosion].  [direction i] is the vector
    (sin phi cos theta, sin phi sin theta, cos phi) drawn for particle [i], a
    vector of length one, and [jitter i] the last [Math.random()] of its
    round, a number in [0, 1). *)
Definition newParticleSystem (center : Vec3) (systemCreationTime : Q)
  (direction : nat -> Vec3) (jitter : nat -> Q) : ExplosionParticleSystem :=
  mkSystem center
    (map (fun i =>
            mkParticle (mkVec3 0 0 0)
              (vscale (EXPLOSION_PARTICLE_INITIAL_SPEED
                       * ((75 # 100) + jitter i * (5 # 10)))
                      (direction i)))
         (seq 0 EXPLOSION_PARTICLE_COUNT))
    systemCreationTime (9 # 10) EXPLOSION_PARTICLE_SIZE.

(** The inner loop of the particle update for one particle. *)
Definition advanceParticle (deltaTime : Q) (p : Particle) : Particle :=
  let pos := particlePosition p in
  let vel := particleVelocity p in
  let pos' := mkVec3 (vx pos + vx vel * deltaTime)
                     (vy pos + vy vel * deltaTime)
                     (vz pos + vz vel * deltaTime) in
  let vel1 := mkVec3 (vx vel) (vy vel + EXPLOSION_PARTICLE_GRAVITY * deltaTime)
                     (vz vel) in
  mkParticle pos' (vscale EXPLOSION_PARTICLE_DAMPING vel1).

(** The body of the loop for a system that is not removed. *)
Definition advanceSystem (currentTime deltaTime : Q)
  (system : ExplosionParticleSystem) : ExplosionParticleSystem :=
  let age := currentTime - systemCreationTime system in
  let lifeRatio := age / EXPLOSION_PARTICLE_LIFESPAN_MS in
  mkSystem (systemCenter system)
           (map (advanceParticle deltaTime) (particles system))
           (systemCreationTime system)
           (Qmax 0 (1 - lifeRatio * (15 # 10)))
           (Qmax (1 # 100)
                 (EXPLOSION_PARTICLE_SIZE * (1 - lifeRatio * (75 # 100)))).

(** The loop of [animate] over [explosionParticleSystemsRef.current], from
    the last system to the first; an expired system is spliced out. *)
Definition advanceSystems (currentTime deltaTime : Q)
  (systems : list ExplosionParticleSystem) : list ExplosionParticleSystem :=
  fold_right
    (fun system kept =>
       if Qltb EXPLOSION_PARTICLE_LIFESPAN_MS
               (currentTime - systemCreationTime system)
       then kept
       else advanceSystem currentTime deltaTime system :: kept)
    [] systems.

(** ** Notions used to state the life of the other projectiles *)

(** An explosive projectile as [launchProjectile] builds it at time [t0],
    before it has exploded. *)
Definition launchedExplosive (t0 : Q) (p : PhysicsObject) : Prop :=
  projectileType p = Some EXPLOSIVE
  /\ hasSplit p = Some false
  /\ lifeSpan p = Some EXPLOSIVE_PROJECTILE_LIFESPAN_MS
  /\ creationTime p = Some t0
  /\ isSubmunition p = None
  /\ onCollideHandler p = true.

(** The collide event is a contact with a structure block at an impact
    velocity above one. *)
Definition detonates (blocks : list PhysicsObject) (e : CollideEvent) : bool :=
  match contact e with
  | Some ct =>
      match otherBody ct with
      | BlockBody i => Nat.ltb i (List.length blocks)
      | OtherBody => false
      end
      && Qltb 1 (Qabs (impactVelocityAlongNormal ct))
  | None => false
  end.

(** The centres of all explosions projectile [p], with index [j], triggers in
    one frame: those of its collide listener during the step and the one of
    the sweep. *)
Definition explosionsOf (blocks : list PhysicsObject) (o : StepOutcome)
  (j : nat) (now : Q) (dirs : nat -> Vec3) (p : PhysicsObject) : list Vec3 :=
  snd (stepProjectile blocks o j p)
  ++ exploded (sweepProjectile now dirs (fst (stepProjectile blocks o j p))).

(** What the sweep of a frame does with projectile [p], with index [j]. *)
Definition sweepOf (blocks : list PhysicsObject) (o : StepOutcome)
  (j : nat) (now : Q) (dirs : nat -> Vec3) (p : PhysicsObject) : SweepResult :=
  sweepProjectile now dirs (fst (stepProjectile blocks o j p)).

(** A submunition as the split at time [t0] builds it. *)
Definition spawnedSubmunition (t0 : Q) (p : PhysicsObject) : Prop :=
  projectileType p = Some STANDARD
  /\ hasSplit p = None
  /\ lifeSpan p = Some SUBMUNITION_LIFESPAN_MS
  /\ creationTime p = Some t0
  /\ isSubmunition p = Some true
  /\ onCollideHandler p = false.

(** ** The power gauge *)

(** [Math.round]: the nearest integer, halves upwards. *)
Definition mathRound (x : Q) : Z := Qfloor (x + (1 # 2)).

(** [powerPercentage] of [PowerGauge]. *)
Definition powerPercentage (power : Q) : Z := mathRound (power * 100).

(** ** Notions used to state the properties of frames and launches *)

(** The time step [animate] hands to the world. *)
Definition frameDelta (inp : FrameInput) (c : Canvas) : Q :=
  Qmax 0 (Qmin (1 / 30) ((currentTime inp - lastCallTime c) / 1000)).

(** The vector from [a] to [b]. *)
Definition vminus (b a : Vec3) : Vec3 :=
  mkVec3 (vx b - vx a) (vy b - vy a) (vz b - vz a).

(** What a session leaves alone in a structure object. *)
Definition sameBlock (o o' : PhysicsObject) : Prop :=
  id o' = id o /\ isKing o' = isKing o /\ initialY o' = initialY o
  /\ shapes (body o') = shapes (body o)
  /\ (isFallen o = true -> isFallen o' = true).

(** ** Sample inputs for the rest of the canvas *)

Definition northEast : nat -> Vec3 := fun _ => mkVec3 (3 # 5) (4 # 5) 0.

(** A burst created at time 100, every particle with a jitter of one half. *)
Definition sampleBurst : ExplosionParticleSystem :=
  newParticleSystem (mkVec3 0 1 0) 100 northEast (fun _ => 1 # 2).

Definition sampleParticle : Particle :=
  mkParticle (mkVec3 0 0 0)
    (vscale (EXPLOSION_PARTICLE_INITIAL_SPEED * ((75 # 100) + (1 # 2) * (5 # 10)))
            (mkVec3 (3 # 5) (4 # 5) 0)).

(** Every block stands, and every projectile touches the top block at an
    impact velocity of 4. *)
Definition struck : StepOutcome :=
  mkOutcome (blockKinematics standing) (projectileKinematics standing)
            (fun _ => [mkCollide (Some (mkContact (BlockBody 3) 4))
                                 (mkVec3 0 (7 # 2) (1 # 2))]).

Definition explosiveShot : PhysicsObject :=
  newProjectile 1 EXPLOSIVE (shot 100 1700000000100).

(** The [canAttemptCharge] prop as a press reads it. *)
Definition chargeAllowed (ev : PointerDown) : bool := canAttemptCharge ev.

(** * The game state of [App]

    [App] keeps the score, the ammunition, the level index and the library of
    custom levels.  Its state lives in React hooks: a call
    [setGameState(prev => ...)] is modelled by the function it is given, and a
    value a handler reads from the render it was created in (or from a ref)
    is a parameter of the handler. *)

Module App.

Definition POINTS_PER_BLOCK : Z := 10.
Definition POINTS_PER_KING : Z := 100.

(** A number inside a template string; the numbers shown are integers. *)
Definition showZ (n : Z) : string := NilZero.string_of_int (Z.to_int n).

(** [!s] is false for every string but the empty one. *)
Definition truthyText (s : string) : bool := negb (String.eqb s "").

(** ** Levels ([types.ts], [levels.ts]) *)

(** [levelId: string | number] by its type.  A level read from a file or
    from the storage is whatever [JSON.parse] made of the text, so the field
    can also hold [true] or an array or object; [null], [false] and a missing
    field are the absent identifier.  An array or object is known by its
    [reference]: two of them are the same only when they are one object. *)
Inductive LevelId : Type :=
  | TextId (s : string)
  | NumberId (n : Q)
  | TrueId
  | ObjectId (reference : nat).

(** [===] on level identifiers, which is also how a [Set] of them compares
    its members. *)
Definition sameId (a b : LevelId) : bool :=
  match a, b with
  | TextId s, TextId s' => String.eqb s s'
  | NumberId n, NumberId n' => Qeq_bool n n'
  | TrueId, TrueId => true
  | ObjectId r, ObjectId r' => Nat.eqb r r'
  | _, _ => false
  end.

Definition truthyId (i : LevelId) : bool :=
  match i with
  | TextId s => truthyText s
  | NumberId n => negb (Qeq_bool n 0)
  | TrueId => true
  | ObjectId _ => true
  end.

(** [name: string] by its type, with the same further values as an
    identifier.  [shown] is the text JavaScript makes of the value inside a
    template string. *)
Inductive LevelName : Type :=
  | TextName (s : string)
  | NumberName (n : Q) (shown : string)
  | TrueName
  | ObjectName (reference : nat) (shown : string).

Coercion TextName : string >-> LevelName.

(** [===] on names, as a [Set] of names compares its members. *)
Definition sameName (a b : LevelName) : bool :=
  match a, b with
  | TextName s, TextName s' => String.eqb s s'
  | NumberName n _, NumberName n' _ => Qeq_bool n n'
  | TrueName, TrueName => true
  | ObjectName r _, ObjectName r' _ => Nat.eqb r r'
  | _, _ => false
  end.

Definition truthyName (n : LevelName) : bool :=
  match n with
  | TextName s => truthyText s
  | NumberName n _ => negb (Qeq_bool n 0)
  | TrueName => true
  | ObjectName _ _ => true
  end.

(** The name inside a template string. *)
Definition nameText (n : LevelName) : string :=
  match n with
  | TextName s => s
  | NumberName _ shown => shown
  | TrueName => "true"
  | ObjectName _ shown => shown
  end.

(** [LevelConfiguration] with the fields [App] and the library read;
    [blocks] is its [structure] and [startMessage] its optional
    [gameMessage]. *)
Record Level : Type := mkPlayable {
  levelId : LevelId;
  name : LevelName;
  initialProjectiles : Q;
  blocks : list BlockConfig;
  cameraPosition : option Vec3;
  cameraTarget : option Vec3;
  startMessage : option string
}.

Definition cubeAt (ident : string) (x y z : Q) : BlockConfig :=
  mkBlockConfig ident x y z (Some cube) None.

Definition kingAt (ident : string) (x y z : Q) : BlockConfig :=
  mkBlockConfig ident x y z (Some cube) (Some true).

(** [LEVEL_CONFIGS], imported as [PREDEFINED_LEVELS]. *)
Definition PREDEFINED_LEVELS : list Level :=
  [ mkPlayable (NumberId 1) (TextName "기본 성곽") 10
      [ cubeAt "l1_base_0" (- BLOCK_SIZE / 2 - (5 # 100)) (BLOCK_SIZE / 2) 0;
        cubeAt "l1_base_1" (BLOCK_SIZE / 2 + (5 # 100)) (BLOCK_SIZE / 2) 0;
        cubeAt "l1_mid_0" 0 (BLOCK_SIZE * (15 # 10)) 0;
        kingAt "l1_king" 0 (BLOCK_SIZE * (25 # 10)) 0 ]
      (Some (mkVec3 0 (BLOCK_SIZE * 2) (BLOCK_SIZE * 5)))
      (Some (mkVec3 0 BLOCK_SIZE 0))
      (Some "레벨 1: 기본 성곽. 황금 블록을 무너뜨리세요!"%string);
    mkPlayable (NumberId 2) (TextName "높은 탑") 8
      [ cubeAt "l2_base_0" 0 (BLOCK_SIZE / 2) 0;
        cubeAt "l2_l1_0" 0 (BLOCK_SIZE * (15 # 10)) 0;
        cubeAt "l2_l2_0" 0 (BLOCK_SIZE * (25 # 10)) 0;
        cubeAt "l2_l3_0" 0 (BLOCK_SIZE * (35 # 10)) 0;
        kingAt "l2_king" 0 (BLOCK_SIZE * (45 # 10)) 0 ]
      (Some (mkVec3 (BLOCK_SIZE * 1) (BLOCK_SIZE * 3) (BLOCK_SIZE * 8)))
      (Some (mkVec3 0 (BLOCK_SIZE * 2) 0))
      (Some "레벨 2: 높은 탑. 안정적으로 조준하세요!"%string);
    mkPlayable (NumberId 3) (TextName "견고한 요새") 7
      [ cubeAt "l3_base_0" (- BLOCK_SIZE * (5 # 10) - (2 # 100))
          (BLOCK_SIZE * (5 # 10)) (- BLOCK_SIZE * (5 # 10) - (2 # 100));
        cubeAt "l3_base_1" (BLOCK_SIZE * (5 # 10) + (2 # 100))
          (BLOCK_SIZE * (5 # 10)) (- BLOCK_SIZE * (5 # 10) - (2 # 100));
        cubeAt "l3_base_2" (- BLOCK_SIZE * (5 # 10) - (2 # 100))
          (BLOCK_SIZE * (5 # 10)) (BLOCK_SIZE * (5 # 10) + (2 # 100));
        cubeAt "l3_base_3" (BLOCK_SIZE * (5 # 10) + (2 # 100))
          (BLOCK_SIZE * (5 # 10)) (BLOCK_SIZE * (5 # 10) + (2 # 100));
        cubeAt "l3_mid_0" 0 (BLOCK_SIZE * (15 # 10))
          (- BLOCK_SIZE * (5 # 10) - (2 # 100));
        cubeAt "l3_mid_1" 0 (BLOCK_SIZE * (15 # 10))
          (BLOCK_SIZE * (5 # 10) + (2 # 100));
        cubeAt "l3_plat_0" 0 (BLOCK_SIZE * (25 # 10)) 0;
        kingAt "l3_king" 0 (BLOCK_SIZE * (35 # 10)) 0 ]
      (Some (mkVec3 (BLOCK_SIZE * (15 # 10)) (BLOCK_SIZE * 3) (BLOCK_SIZE * 7)))
      (Some (mkVec3 0 (BLOCK_SIZE * (15 # 10)) 0))
      (Some "레벨 3: 견고한 요새. 황금 블록을 정밀하게 공격하세요!"%string) ].

(** What [GameCanvas] is given of a level. *)
Definition canvasLevel (l : Level) : LevelConfiguration :=
  mkLevel (blocks l).

(** ** Ammunition ([constants.ts], [types.ts]) *)

(** [ProjectileConfig], without the description and the icon. *)
Record ProjectileConfig : Type := mkConfig {
  pcId : ProjectileType;
  pcName : string;
  defaultCount : Z
}.

Definition PROJECTILE_TYPES_CONFIG : list ProjectileConfig :=
  [ mkConfig STANDARD "일반탄" 5; mkConfig HEAVY "중량탄" 3;
    mkConfig EXPLOSIVE "폭발탄" 2; mkConfig CLUSTER "분열탄" 2 ].

(** [Record<ProjectileType, number>]: one count per projectile type. *)
Record Counts : Type := mkCounts {
  standardCount : Z;
  heavyCount : Z;
  explosiveCount : Z;
  clusterCount : Z
}.

Definition countOf (c : Counts) (t : ProjectileType) : Z :=
  match t with
  | STANDARD => standardCount c
  | HEAVY => heavyCount c
  | EXPLOSIVE => explosiveCount c
  | CLUSTER => clusterCount c
  end.

Definition setCount (c : Counts) (t : ProjectileType) (n : Z) : Counts :=
  match t with
  | STANDARD => mkCounts n (heavyCount c) (explosiveCount c) (clusterCount c)
  | HEAVY => mkCounts (standardCount c) n (explosiveCount c) (clusterCount c)
  | EXPLOSIVE => mkCounts (standardCount c) (heavyCount c) n (clusterCount c)
  | CLUSTER => mkCounts (standardCount c) (heavyCount c) (explosiveCount c) n
  end.

(** The [reduce] starts from the empty object and writes the key of every
    configuration; the four configurations cover the four types, so the
    starting values below never show. *)
Definition getDefaultProjectileCounts : Counts :=
  fold_left (fun acc config => setCount acc (pcId config) (defaultCount config))
            PROJECTILE_TYPES_CONFIG (mkCounts 0 0 0 0).

(** [Object.values(counts).reduce((sum, count) => sum + count, 0)]. *)
Definition totalProjectilesLeft (c : Counts) : Z :=
  (standardCount c + heavyCount c + explosiveCount c + clusterCount c)%Z.

(** ** The game state *)

Record GameState : Type := mkGame {
  score : Z;
  projectilesLeft : Z;
  projectileCounts : Counts;
  selectedProjectileType : ProjectileType;
  isGameOver : bool;
  gameMessage : string;
  currentLevelIndex : Z;
  isLevelWon : bool
}.

(** [allPlayableLevels[index]]. *)
Definition levelAt (levels : list Level) (index : Z) : option Level :=
  if Z.ltb index 0 then None else nth_error levels (Z.to_nat index).

Definition levelCount (levels : list Level) : Z :=
  Z.of_nat (List.length levels).

(** [name || b] inside a template string, for the name of an optional
    level. *)
Definition orName (l : option Level) (b : string) : string :=
  match l with
  | Some level => if truthyName (name level) then nameText (name level) else b
  | None => b
  end.

(** [a || b] for an optional string [a]. *)
Definition orText (a : option string) (b : string) : string :=
  match a with
  | Some s => if truthyText s then s else b
  | None => b
  end.

(** [level.gameMessage || `레벨 ${index + 1}: ${name}. ...`]. *)
Definition openingMessage (index : Z) (l : Level) : string :=
  orText (startMessage l)
    ("레벨 " ++ showZ (index + 1) ++ ": " ++ nameText (name l)
     ++ ". 황금 블록을 무너뜨리세요!")%string.

(** The initial value of [gameState]. *)
Definition initialGameState : GameState :=
  let initialLevelConfig := levelAt PREDEFINED_LEVELS 0 in
  let initialCounts := getDefaultProjectileCounts in
  mkGame 0 (countOf initialCounts STANDARD) initialCounts STANDARD false
    (orText match initialLevelConfig with
            | Some l => startMessage l
            | None => None
            end
       ("레벨 1: "
        ++ orName initialLevelConfig "시작 레벨"
        ++ ". 황금 블록을 무너뜨리세요!")%string)
    0 false.

(** ** Starting a level *)

(** The reducers of [setupLevel(levelIndex)], one after the other.
    [allPlayableLevels], [selected] (the selected projectile type) and
    [delegate] (the delegate mode) are the values of the render the callback
    was created in. *)
Definition setupLevel (allPlayableLevels : list Level)
  (selected : ProjectileType) (delegate : bool) (levelIndex : Z)
  (prev : GameState) : GameState :=
  match allPlayableLevels with
  | [] =>
      mkGame 0 0 getDefaultProjectileCounts STANDARD true
        "플레이할 레벨을 불러올 수 없습니다! 에디터나 라이브러리에서 레벨을 추가하세요."
        0 false
  | _ :: _ =>
      let targetIndex :=
        if Z.leb 0 levelIndex && Z.ltb levelIndex (levelCount allPlayableLevels)
        then levelIndex else 0%Z in
      (* every type has a count, so the fallback to the standard type for
         an undefined count is never taken *)
      let newProjectileCounts := getDefaultProjectileCounts in
      let message :=
        match levelAt allPlayableLevels targetIndex with
        | Some levelConfig => openingMessage targetIndex levelConfig
        | None => gameMessage prev
        end in
      mkGame 0 (countOf newProjectileCounts selected) newProjectileCounts
        selected false
        (if delegate then "자동 발사 모드 활성됨. 다음 행동 대기 중..."
         else message)
        targetIndex false
  end.

(** The effect that runs when [allPlayableLevels] has changed. *)
Definition levelsChanged (allPlayableLevels : list Level)
  (delegate : bool) (rendered prev : GameState) : GameState :=
  match allPlayableLevels with
  | _ :: _ =>
      let currentLevelIsValid :=
        Z.leb 0 (currentLevelIndex rendered)
        && Z.ltb (currentLevelIndex rendered) (levelCount allPlayableLevels) in
      setupLevel allPlayableLevels (selectedProjectileType rendered) delegate
        (if currentLevelIsValid then currentLevelIndex rendered else 0%Z) prev
  | [] =>
      mkGame (score prev) 0 getDefaultProjectileCounts
        (selectedProjectileType prev) true
        "플레이할 레벨이 없습니다! 에디터에서 레벨을 만들어주세요."
        (currentLevelIndex prev) (isLevelWon prev)
  end.

(** [handleResetGame]. *)
Definition handleResetGame (allPlayableLevels : list Level)
  (selected : ProjectileType) (delegate : bool) (prev : GameState)
  : GameState :=
  setupLevel allPlayableLevels selected delegate 0 prev.

(** [handleNextLevel]; [rendered] is the game state of the render the
    callback was created in. *)
Definition handleNextLevel (allPlayableLevels : list Level) (delegate : bool)
  (rendered prev : GameState) : GameState :=
  if Z.ltb (currentLevelIndex rendered) (levelCount allPlayableLevels - 1)
  then setupLevel allPlayableLevels (selectedProjectileType rendered) delegate
         (currentLevelIndex rendered + 1) prev
  else prev.

(** ** Launching and selecting *)

(** [Math.round]: the nearest integer, halves upwards. *)
Definition percent (power : Q) : Z := mathRound (power * 100).

(** The reducer of [handleLaunchProjectile(launchPower, type)]; [delegate]
    is the value of [isDelegateModeActiveRef]. *)
Definition handleLaunchProjectile (delegate : bool) (launchPower : Q)
  (type : ProjectileType) (prev : GameState) : GameState :=
  let newCounts :=
    setCount (projectileCounts prev) type
      (Z.max 0 (countOf (projectileCounts prev) type - 1)) in
  let projectileConfigLaunched :=
    find (fun ptc => ProjectileType_eqb (pcId ptc) type)
         PROJECTILE_TYPES_CONFIG in
  let launchedByName := orText (option_map pcName projectileConfigLaunched)
                               "발사체" in
  let messagePrefix := if delegate then "자동 발사: "%string else ""%string in
  mkGame (score prev)
    (countOf newCounts (selectedProjectileType prev))
    newCounts (selectedProjectileType prev) (isGameOver prev)
    (messagePrefix ++ launchedByName ++ " 발사! (파워: "
     ++ showZ (percent launchPower) ++ "%)")%string
    (currentLevelIndex prev) (isLevelWon prev).

(** The reducer of [handleSelectProjectileType(type)]. *)
Definition handleSelectProjectileType (type : ProjectileType)
  (prev : GameState) : GameState :=
  if Z.ltb 0 (countOf (projectileCounts prev) type)
     || ProjectileType_eqb type (selectedProjectileType prev)
  then mkGame (score prev) (countOf (projectileCounts prev) type)
         (projectileCounts prev) type (isGameOver prev) (gameMessage prev)
         (currentLevelIndex prev) (isLevelWon prev)
  else prev.

(** [canCurrentlyLaunch] and [canAttemptCharge] of a render. *)
Definition canCurrentlyLaunch (gs : GameState) : bool :=
  Z.ltb 0 (countOf (projectileCounts gs) (selectedProjectileType gs)).

Definition canAttemptCharge (gs : GameState) (delegate : bool) : bool :=
  Z.ltb 0 (projectilesLeft gs) && negb (isGameOver gs)
  && negb (isLevelWon gs) && negb delegate.

(** [handleChargeComplete(finalPower)]: the game state part.  [rendered] and
    [delegate] are the game state and the delegate mode of the render the
    callback was created in, [delegateRef] the value of
    [isDelegateModeActiveRef]. *)
Definition handleChargeComplete (delegate delegateRef : bool) (finalPower : Q)
  (rendered prev : GameState) : GameState :=
  if canCurrentlyLaunch rendered && negb (isGameOver rendered)
     && negb (isLevelWon rendered) && negb delegate
  then handleLaunchProjectile delegateRef (Qmax MIN_LAUNCH_POWER finalPower)
         (selectedProjectileType rendered) prev
  else prev.

(** The button of [ProjectileSelector] for [config] is disabled. *)
Definition selectorDisabled (disabled : bool) (counts : Counts)
  (selected : ProjectileType) (config : ProjectileConfig) : bool :=
  let count := countOf counts (pcId config) in
  let isSelected := ProjectileType_eqb (pcId config) selected in
  let isOutOfAmmo := Z.eqb count 0 in
  disabled || (isOutOfAmmo && negb isSelected).

(** ** Fallen blocks *)

(** The guard of [handleBlockFallen(blockId, isKing)]: [snapshot] is the
    value of [gameStateRef] and [fallenBlockIds] the set of the render the
    callback was created in. *)
Definition fallIgnored (snapshot : GameState) (fallenBlockIds : list string)
  (blockId : string) : bool :=
  isGameOver snapshot || isLevelWon snapshot
  || existsb (String.eqb blockId) fallenBlockIds.

(** [new Set(prev).add(blockId)], the set kept in insertion order. *)
Definition addFallen (prev : list string) (blockId : string) : list string :=
  if existsb (String.eqb blockId) prev then prev else prev ++ [blockId].

(** The reducer [handleBlockFallen] hands to [setGameState] when it does not
    ignore the fall. *)
Definition scoreFall (allPlayableLevels : list Level) (isKing : bool)
  (prev : GameState) : GameState :=
  let pointsEarned := if isKing then POINTS_PER_KING else POINTS_PER_BLOCK in
  let newScoreForLevel := (score prev + pointsEarned)%Z in
  let currentLevelName :=
    orName (levelAt allPlayableLevels (currentLevelIndex prev)) "" in
  let isLastLevel :=
    Z.eqb (currentLevelIndex prev) (levelCount allPlayableLevels - 1) in
  mkGame newScoreForLevel (projectilesLeft prev) (projectileCounts prev)
    (selectedProjectileType prev)
    (if isKing && isLastLevel then true else isGameOver prev)
    (if isKing then
       if isLastLevel then
         ("모든 레벨 클리어! 최종 점수 (마지막 레벨): "
          ++ showZ newScoreForLevel
          ++ ". 대단해요! 모든 황금 블록을 무너뜨렸습니다!")%string
       else
         ("레벨 " ++ showZ (currentLevelIndex prev + 1) ++ " ("
          ++ currentLevelName ++ ") 클리어! 잠시 후 다음 레벨로 이동합니다. 점수: "
          ++ showZ newScoreForLevel)%string
     else
       ("블록 명중! +" ++ showZ pointsEarned ++ "점 획득. 현재 레벨 점수: "
        ++ showZ newScoreForLevel)%string)
    (currentLevelIndex prev)
    (if isKing then true else isLevelWon prev).

(** [handleBlockFallen]: the game state and the set of fallen blocks. *)
Definition handleBlockFallen (allPlayableLevels : list Level)
  (snapshot : GameState) (fallenBlockIds : list string)
  (blockId : string) (isKing : bool)
  (prev : GameState * list string) : GameState * list string :=
  if fallIgnored snapshot fallenBlockIds blockId then prev
  else (scoreFall allPlayableLevels isKing (fst prev),
        addFallen (snd prev) blockId).

(** The effect that ends the game when the ammunition is used up;
    [rendered] is the game state of the render, [delegateRef] the value of
    [isDelegateModeActiveRef]. *)
Definition outOfAmmunition (allPlayableLevels : list Level)
  (rendered : GameState) : bool :=
  Z.eqb (totalProjectilesLeft (projectileCounts rendered)) 0
  && negb (isLevelWon rendered) && negb (isGameOver rendered)
  && Z.ltb 0 (levelCount allPlayableLevels).

Definition ammunitionEffect (allPlayableLevels : list Level)
  (delegateRef : bool) (rendered prev : GameState) : GameState :=
  if outOfAmmunition allPlayableLevels rendered then
    let currentLevelName :=
      orName (levelAt allPlayableLevels (currentLevelIndex rendered)) "" in
    let messagePrefix :=
      if delegateRef then "자동 발사: "%string else ""%string in
    mkGame (score prev) (projectilesLeft prev) (projectileCounts prev)
      (selectedProjectileType prev) true
      (messagePrefix ++ "발사체를 모두 사용했습니다! 레벨 "
       ++ showZ (currentLevelIndex prev + 1) ++ " (" ++ currentLevelName
       ++ ") 실패 (황금 블록 명중 못함). 점수: " ++ showZ (score prev)
       ++ ". 다시 시작하려면 초기화를 누르세요.")%string
      (currentLevelIndex prev) (isLevelWon prev)
  else prev.

(** ** The library of custom levels *)

(** [customLevels], [allPlayableLevels] and the entry of [localStorage]
    under the key [dominoCastleCustomLevels].  Levels are plain data, so
    [JSON.parse] gives back what [JSON.stringify] was given. *)
Record Library : Type := mkLibrary {
  customLevels : list Level;
  allPlayableLevels : list Level;
  stored : option (list Level)
}.

(** [localStorage.setItem] followed by [setCustomLevels] and
    [setAllPlayableLevels]; when the storage throws ([storageAccepts] is
    false) the two setters are not reached. *)
Definition commit (storageAccepts : bool) (updatedCustomLevels : list Level)
  (lib : Library) : Library :=
  if storageAccepts
  then mkLibrary updatedCustomLevels
         (PREDEFINED_LEVELS ++ updatedCustomLevels)
         (Some updatedCustomLevels)
  else lib.

(** The library after the effect that loads the levels at start-up, when
    the storage holds an entry. *)
Definition loadLevels (storedCustomLevels : list Level) : Library :=
  mkLibrary storedCustomLevels (PREDEFINED_LEVELS ++ storedCustomLevels)
            (Some storedCustomLevels).

Definition withLevelId (l : Level) (i : LevelId) : Level :=
  mkPlayable i (name l) (initialProjectiles l) (blocks l) (cameraPosition l)
          (cameraTarget l) (startMessage l).

(** [handleSaveCustomLevel(levelData, originalLevelIdToUpdate)]. *)
Definition handleSaveCustomLevel (storageAccepts : bool) (levelData : Level)
  (originalLevelIdToUpdate : option LevelId) (lib : Library) : Library :=
  let updatedCustomLevels :=
    match originalLevelIdToUpdate with
    | Some original =>
        if truthyId original
        then map (fun lvl => if sameId (levelId lvl) original
                             then withLevelId levelData original else lvl)
                 (customLevels lib)
        else customLevels lib ++ [levelData]
    | None => customLevels lib ++ [levelData]
    end in
  commit storageAccepts updatedCustomLevels lib.

(** A member of an imported array, as [JSON.parse] delivers it.
    [importedId] and [importedName] are [None] for a missing field, [null]
    and [false], and hold any other value, truthy or not; a fresh parse makes
    a new object of every array and object in the text.
    [importedStructure] is [None] unless the field is an array and
    [importedProjectiles] unless it is a number.  The import does not look at
    the other fields, nor into the structure: they are taken at their
    declared types.  A member that is a number, a string or a boolean has
    none of the fields; on a [null] member the filter throws and the import
    changes nothing, and such a file is not among the lists below. *)
Record ImportedLevel : Type := mkImported {
  importedId : option LevelId;
  importedName : option LevelName;
  importedStructure : option (list BlockConfig);
  importedProjectiles : option Q;
  importedCameraPosition : option Vec3;
  importedCameraTarget : option Vec3;
  importedMessage : option string
}.

(** The level an imported member is taken as when the filter keeps it. *)
Definition importedAsLevel (i : ImportedLevel) : option Level :=
  match importedId i, importedName i, importedStructure i,
        importedProjectiles i with
  | Some ident, Some title, Some structure, Some count =>
      if truthyId ident && truthyName title
      then Some (mkPlayable ident title count structure
                   (importedCameraPosition i) (importedCameraTarget i)
                   (importedMessage i))
      else None
  | _, _, _, _ => None
  end.

(** [existingLevelIds.has(id) || existingLevelNames.has(name)]. *)
Definition isDuplicate (existing : list Level) (l : Level) : bool :=
  existsb (fun e => sameId (levelId e) (levelId l)) existing
  || existsb (fun e => sameName (name e) (name l)) existing.

(** The filter of [handleImportLibrary]. *)
Fixpoint validNewLevels (existing : list Level)
  (importedLevels : list ImportedLevel) : list Level :=
  match importedLevels with
  | [] => []
  | i :: rest =>
      match importedAsLevel i with
      | Some l =>
          if isDuplicate existing l then validNewLevels existing rest
          else l :: validNewLevels existing rest
      | None => validNewLevels existing rest
      end
  end.

(** [handleImportLibrary] once the file is read and parsed to an array. *)
Definition handleImportLibrary (storageAccepts : bool)
  (importedLevels : list ImportedLevel) (lib : Library) : Library :=
  let valid := validNewLevels (customLevels lib) importedLevels in
  if Nat.ltb 0 (List.length valid)
  then commit storageAccepts (customLevels lib ++ valid) lib
  else lib.

(** [Array.prototype.findIndex]: -1 when no member passes. *)
Fixpoint findIndex {A : Type} (f : A -> bool) (l : list A) : Z :=
  match l with
  | [] => (-1)%Z
  | x :: rest =>
      if f x then 0%Z
      else let i := findIndex f rest in
           if Z.eqb i (-1) then (-1)%Z else (i + 1)%Z
  end.

(** The index [handleDeleteCustomLevelFromLibrary] hands to [setupLevel]. *)
Definition restartIndex (lib : Library) (rendered : GameState)
  (levelIdToDelete : LevelId) : Z :=
  let currentPlayedLevelConfig :=
    levelAt (allPlayableLevels lib) (currentLevelIndex rendered) in
  let updatedCustomLevels :=
    filter (fun level => negb (sameId (levelId level) levelIdToDelete))
           (customLevels lib) in
  let newAllPlayable := PREDEFINED_LEVELS ++ updatedCustomLevels in
  match newAllPlayable, currentPlayedLevelConfig with
  | [], _ => 0%Z
  | _ :: _, Some current =>
      if sameId (levelId current) levelIdToDelete then 0%Z
      else
        let newCurrentIndex :=
          findIndex (fun level => sameId (levelId level) (levelId current))
                    newAllPlayable in
        if Z.eqb newCurrentIndex (-1) then 0%Z else newCurrentIndex
  | _ :: _, None => 0%Z
  end.

(** [handleDeleteCustomLevelFromLibrary(levelIdToDelete)].  The storage is
    written outside any [try]: when it throws, nothing after it runs.  The
    call of [setupLevel] still sees the levels of the render. *)
Definition handleDeleteCustomLevelFromLibrary (storageAccepts : bool)
  (delegate : bool) (levelIdToDelete : LevelId) (rendered : GameState)
  (prev : Library * GameState) : Library * GameState :=
  if storageAccepts then
    let lib := fst prev in
    let updatedCustomLevels :=
      filter (fun level => negb (sameId (levelId level) levelIdToDelete))
             (customLevels lib) in
    (commit true updatedCustomLevels lib,
     setupLevel (allPlayableLevels lib) (selectedProjectileType rendered)
       delegate (restartIndex lib rendered levelIdToDelete) (snd prev))
  else prev.

(** [handlePlayCustomLevelFromLibrary(levelToPlay)]: the game state part. *)
Definition handlePlayCustomLevelFromLibrary (lib : Library)
  (delegate : bool) (levelToPlay : Level) (rendered prev : GameState)
  : GameState :=
  let customLevelIndexInCustomsArray :=
    findIndex (fun l => sameId (levelId l) (levelId levelToPlay))
              (customLevels lib) in
  if Z.eqb customLevelIndexInCustomsArray (-1) then prev
  else
    let overallIndex :=
      (levelCount PREDEFINED_LEVELS + customLevelIndexInCustomsArray)%Z in
    if Z.leb 0 overallIndex
       && Z.ltb overallIndex (levelCount (allPlayableLevels lib))
    then setupLevel (allPlayableLevels lib) (selectedProjectileType rendered)
           delegate overallIndex prev
    else prev.

(** ** The delegate mode *)

Definition availableProjectileTypes (gs : GameState)
  : list ProjectileConfig :=
  filter (fun config => Z.ltb 0 (countOf (projectileCounts gs) (pcId config)))
         PROJECTILE_TYPES_CONFIG.

(** [available[Math.floor(random * available.length)]]; [None] is the
    undefined member of an index out of range. *)
Definition randomProjectileConfig (gs : GameState) (random : Q)
  : option ProjectileConfig :=
  let available := availableProjectileTypes gs in
  let index := Qfloor (random * inject_Z (Z.of_nat (List.length available))) in
  if Z.ltb index 0 then None else nth_error available (Z.to_nat index).

(** [finalPower] of [performDelegateAction] for the second random number. *)
Definition delegatePower (random : Q) : Q :=
  let randomPowerFactor := (7 # 10) + random * (3 # 10) in
  let randomPower := Qmax MIN_LAUNCH_POWER (randomPowerFactor * MAX_LAUNCH_POWER) in
  Qmin MAX_LAUNCH_POWER randomPower.

(** One round of [performDelegateAction] up to the start of its timer:
    the game state and whether the delegate mode stays on.  [snapshot] is the
    value of [gameStateRef], [aimed] tells whether the canvas gave a golden
    block position.  [None] stands for the TypeError of reading the
    identifier of an undefined configuration. *)
Definition performDelegateAction (snapshot : GameState) (random1 random2 : Q)
  (aimed : bool) (prev : GameState) : option (GameState * bool) :=
  match availableProjectileTypes snapshot with
  | [] =>
      Some (mkGame (score prev) (projectilesLeft prev) (projectileCounts prev)
              (selectedProjectileType prev) (isGameOver prev)
              "자동 발사: 사용 가능한 발사체가 없습니다. 모드를 비활성화합니다."
              (currentLevelIndex prev) (isLevelWon prev),
            false)
  | _ :: _ =>
      match randomProjectileConfig snapshot random1 with
      | Some config =>
          let selected := handleSelectProjectileType (pcId config) prev in
          let finalPower := delegatePower random2 in
          let aimMessageSegment :=
            ((if aimed then "황금 블록 조준! ("
              else "황금 블록 없음. 현재 방향으로 발사. (")
             ++ pcName config ++ ", 파워: " ++ showZ (percent finalPower)
             ++ "%)")%string in
          Some (mkGame (score selected) (projectilesLeft selected)
                  (projectileCounts selected)
                  (selectedProjectileType selected) (isGameOver selected)
                  ("자동 발사: " ++ aimMessageSegment)%string
                  (currentLevelIndex selected) (isLevelWon selected),
                true)
      | None => None
      end
  end.

(** The launch the timer of the round makes 300 ms later; [delegateRef] and
    [later] are the values of the two refs at that time. *)
Definition delegateLaunch (delegateRef : bool) (later : GameState)
  (finalPower : Q) (selectedType : ProjectileType) (prev : GameState)
  : GameState :=
  if delegateRef && negb (isGameOver later) && negb (isLevelWon later)
  then handleLaunchProjectile delegateRef finalPower selectedType prev
  else prev.

(** ** Notions used to state the properties of the game state *)

(** The counts are not negative. *)
Definition stocked (c : Counts) : Prop :=
  forall t, (0 <= countOf c t)%Z.

(** [projectilesLeft] is the count of the selected type. *)
Definition consistent (gs : GameState) : Prop :=
  projectilesLeft gs = countOf (projectileCounts gs) (selectedProjectileType gs).

(** What the player does to the ammunition: a launch or a selection. *)
Inductive Move : Type :=
  | Shoot (delegateRef : bool) (launchPower : Q) (type : ProjectileType)
  | Pick (type : ProjectileType).

Definition move (m : Move) (gs : GameState) : GameState :=
  match m with
  | Shoot delegateRef launchPower type =>
      handleLaunchProjectile delegateRef launchPower type gs
  | Pick type => handleSelectProjectileType type gs
  end.

Definition play (moves : list Move) (gs : GameState) : GameState :=
  fold_left (fun s m => move m s) moves gs.

(** The number of launches of type [t] among the moves. *)
Definition shotsOf (t : ProjectileType) (moves : list Move) : Z :=
  Z.of_nat
    (List.length
       (filter (fun m => match m with
                         | Shoot _ _ type => ProjectileType_eqb type t
                         | Pick _ => false
                         end) moves)).

(** One call of [onBlockFallen]: the block, and what the callback reads when
    it runs, namely the value of [gameStateRef] ([snapshotAt]) and the
    [fallenBlockIds] of the render that made the callback ([fallenAt]).  Both
    are as old as the last render whose effects have run. *)
Record FallReport : Type := mkReport {
  snapshotAt : GameState;
  fallenAt : list string;
  fallenBlock : string;
  fallenKing : bool
}.

(** The call passes the guard of [handleBlockFallen]. *)
Definition counted (r : FallReport) : bool :=
  negb (fallIgnored (snapshotAt r) (fallenAt r) (fallenBlock r)).

(** Fall reports handled one after the other; the reducers of the reports
    that pass the guard are applied in that order. *)
Definition reportFalls (allPlayableLevels : list Level)
  (reports : list FallReport) (st : GameState * list string)
  : GameState * list string :=
  fold_left (fun s r =>
               handleBlockFallen allPlayableLevels (snapshotAt r) (fallenAt r)
                 (fallenBlock r) (fallenKing r) s)
            reports st.

(** The reports of one animation frame: [animate] calls the callback for
    every block that fell in the frame before React renders again, so all
    of them read the same snapshot and the same set. *)
Definition frameReports (snapshot : GameState) (fallenBlockIds : list string)
  (falls : list (string * bool)) : list FallReport :=
  map (fun f => mkReport snapshot fallenBlockIds (fst f) (snd f)) falls.

(** The number of reports that pass the guard, golden ones or others. *)
Definition countedFalls (king : bool) (reports : list FallReport) : Z :=
  Z.of_nat
    (List.length
       (filter (fun r => counted r && Bool.eqb (fallenKing r) king) reports)).

(** The number of golden falls, or of the others, in a list of falls. *)
Definition fallsOf (king : bool) (falls : list (string * bool)) : Z :=
  Z.of_nat (List.length (filter (fun f => Bool.eqb (snd f) king) falls)).

(** [handleNextLevel] called [n] times, each time by the latest render. *)
Definition advance (allPlayableLevels : list Level) (delegate : bool)
  (n : nat) (gs : GameState) : GameState :=
  Nat.iter n (fun s => handleNextLevel allPlayableLevels delegate s s) gs.

(** The playable levels and the storage follow the custom levels. *)
Definition inStep (lib : Library) : Prop :=
  allPlayableLevels lib = PREDEFINED_LEVELS ++ customLevels lib
  /\ stored lib = Some (customLevels lib).

(** The members of a file that pass the validity check of the import, as
    levels. *)
Fixpoint validLevels (file : list ImportedLevel) : list Level :=
  match file with
  | [] => []
  | i :: rest =>
      match importedAsLevel i with
      | Some l => l :: validLevels rest
      | None => validLevels rest
      end
  end.

(** The identifier and the name of the level are both arrays or objects:
    neither is compared by value. *)
Definition boxed (l : Level) : bool :=
  match levelId l, name l with
  | ObjectId _, ObjectName _ _ => true
  | _, _ => false
  end.

(** An identifier, a name and a member without the references of their
    arrays and objects: what two parses of one text have in common. *)
Definition eraseId (i : LevelId) : LevelId :=
  match i with
  | ObjectId _ => ObjectId 0
  | _ => i
  end.

Definition eraseName (n : LevelName) : LevelName :=
  match n with
  | ObjectName _ shown => ObjectName 0 shown
  | _ => n
  end.

Definition eraseMember (i : ImportedLevel) : ImportedLevel :=
  mkImported (option_map eraseId (importedId i))
             (option_map eraseName (importedName i))
             (importedStructure i) (importedProjectiles i)
             (importedCameraPosition i) (importedCameraTarget i)
             (importedMessage i).

Definition eraseLevel (l : Level) : Level :=
  mkPlayable (eraseId (levelId l)) (eraseName (name l))
             (initialProjectiles l) (blocks l) (cameraPosition l)
             (cameraTarget l) (startMessage l).

(** Two parses of one text. *)
Definition sameText (file file' : list ImportedLevel) : Prop :=
  map eraseMember file' = map eraseMember file.

(** The arrays and objects of a parse are new: none of them is the
    identifier or the name of a level that exists already. *)
Definition freshParse (existing : list Level) (file : list ImportedLevel)
  : Prop :=
  forall i e r,
    In i file -> In e existing ->
    (importedId i = Some (ObjectId r) -> levelId e <> ObjectId r)
    /\ (forall shown shown',
           importedName i = Some (ObjectName r shown) ->
           name e <> ObjectName r shown').

(** The operations of the editor and of the library dialog on the custom
    levels. *)
Inductive LibraryOp : Type :=
  | Save (storageAccepts : bool) (levelData : Level)
         (originalLevelIdToUpdate : option LevelId)
  | Import (storageAccepts : bool) (importedLevels : list ImportedLevel)
  | Delete (storageAccepts : bool) (levelIdToDelete : LevelId).

(** One operation with the effect on [allPlayableLevels] that follows it
    when the list was set anew.  The handlers are those of the latest
    render. *)
Definition operate (delegate : bool) (op : LibraryOp)
  (st : Library * GameState) : Library * GameState :=
  let lib := fst st in
  let gs := snd st in
  match op with
  | Save storageAccepts levelData original =>
      let lib' := handleSaveCustomLevel storageAccepts levelData original lib in
      (lib',
       if storageAccepts
       then levelsChanged (allPlayableLevels lib') delegate gs gs
       else gs)
  | Import storageAccepts importedLevels =>
      let lib' := handleImportLibrary storageAccepts importedLevels lib in
      (lib',
       if storageAccepts
          && Nat.ltb 0 (List.length
                          (validNewLevels (customLevels lib) importedLevels))
       then levelsChanged (allPlayableLevels lib') delegate gs gs
       else gs)
  | Delete storageAccepts levelIdToDelete =>
      let st' := handleDeleteCustomLevelFromLibrary storageAccepts delegate
                   levelIdToDelete gs st in
      (fst st',
       if storageAccepts
       then levelsChanged (allPlayableLevels (fst st')) delegate
              (snd st') (snd st')
       else snd st')
  end.

Definition operateAll (delegate : bool) (ops : list LibraryOp)
  (st : Library * GameState) : Library * GameState :=
  fold_left (fun s op => operate delegate op s) ops st.

(** The level index of the game state names a playable level. *)
Definition playing (lib : Library) (gs : GameState) : Prop :=
  exists l, levelAt (allPlayableLevels lib) (currentLevelIndex gs) = Some l.

(** ** Sample states, moves and libraries *)

Definition sampleMoves : list Move :=
  [Shoot false (1 # 2) STANDARD; Pick HEAVY; Shoot true 1 HEAVY;
   Shoot false (3 # 4) CLUSTER; Shoot false 1 CLUSTER; Shoot false 1 CLUSTER].

(** The falls of one frame: two blocks and two golden blocks. *)
Definition sampleFalls : list (string * bool) :=
  [("l1_base_0"%string, false); ("l1_king"%string, true);
   ("l1_mid_0"%string, false); ("l1_crown"%string, true)].

(** Every projectile is used up on the first level. *)
Definition emptyHanded : GameState :=
  mkGame 30 0 (mkCounts 0 0 0 0) STANDARD false "일반탄 발사! (파워: 50%)"
         0 false.

Definition heavyConfig : ProjectileConfig := mkConfig HEAVY "중량탄" 3.

Definition leftPress : PointerDown := mkPointerDown 0 true false false true.

Definition customCastle : Level :=
  mkPlayable (TextId "custom_1700000000000") (TextName "나의 성") 5
    [ cubeAt "c_base" 0 (1 # 2) 0; kingAt "c_king" 0 (3 # 2) 0 ]
    None None None.

Definition importedCastle : ImportedLevel :=
  mkImported (Some (TextId "ai_1700000000001")) (Some (TextName "빌린 성"))
    (Some [ kingAt "i_king" 0 (1 # 2) 0 ]) (Some 4) None None None.

(** A member whose identifier and name are arrays, as two parses of the
    text deliver it. *)
Definition boxedCastle (reference : nat) : ImportedLevel :=
  mkImported (Some (ObjectId reference))
    (Some (ObjectName (S reference) "빌린,성"))
    (Some [ kingAt "b_king" 0 (1 # 2) 0 ]) (Some 3) None None None.

Definition sampleLibrary : Library := loadLevels [customCastle].

Definition sampleOps : list LibraryOp :=
  [ Import true [importedCastle]; Save false customCastle None;
    Delete true (TextId "custom_1700000000000") ].

End App.

(** * The level editor ([LevelEditor])

    The editor keeps the structure being built in a React hook.  Colours only
    reach the meshes and are left out, as in the canvas. *)

Module Editor.
Import App.

(** [structure.filter(b => b.isKing)]. *)
Definition goldenBlocks (structure : list BlockConfig) : list BlockConfig :=
  filter (fun b => truthyB (bcIsKing b)) structure.

Definition setKing (b : BlockConfig) (king : bool) : BlockConfig :=
  mkBlockConfig (bcId b) (bcX b) (bcY b) (bcZ b) (bcShape b) (Some king).

(** ** Clicks *)

(** [structure.find] of [handleMouseClick]: a block within 0.01 of the ghost
    block on every axis. *)
Definition existingBlock (structure : list BlockConfig) (pos : Vec3)
  : option BlockConfig :=
  find (fun b => Qltb (Qabs (bcX b - vx pos)) (1 # 100)
                 && Qltb (Qabs (bcY b - vy pos)) (1 # 100)
                 && Qltb (Qabs (bcZ b - vz pos)) (1 # 100))
       structure.

(** A click that passed the guard of [handleMouseClick] (ghost block
    visible, camera not dragged, no generation running): a left click with
    the ghost block at [pos], or a right click on the placed block
    [blockId]. *)
Inductive Click : Type :=
  | LeftClick (selectedShape : BlockShape) (isGoldenBlock : bool)
              (dateNow : Z) (pos : Vec3)
  | RightClick (blockId : string).

(** [handleMouseClick]: [rendered] is the structure of the render the
    handler was created in, [prev] the structure its reducer is applied
    to. *)
Definition handleMouseClick (c : Click) (rendered prev : list BlockConfig)
  : list BlockConfig :=
  match c with
  | LeftClick selectedShape isGoldenBlock dateNow pos =>
      match existingBlock rendered pos with
      | None =>
          let newBlock :=
            mkBlockConfig
              ("custom_block_" ++ showZ dateNow ++ "_"
               ++ decimal (List.length rendered))%string
              (vx pos) (vy pos) (vz pos) (Some selectedShape)
              (Some isGoldenBlock) in
          if isGoldenBlock
          then map (fun b => setKing b false) prev ++ [newBlock]
          else prev ++ [newBlock]
      | Some _ => prev
      end
  | RightClick blockId =>
      filter (fun b => negb (String.eqb (bcId b) blockId)) prev
  end.

(** Clicks handled one after the other, each by the handler of the latest
    render. *)
Definition clicks (cs : list Click) (structure : list BlockConfig)
  : list BlockConfig :=
  fold_left (fun s c => handleMouseClick c s s) cs structure.

(** ** Validation *)

(** [validateAndGetLevelConfig].  [finalLevelName] is [levelName.trim()] and
    [freshId] the identifier made from the clock and a random number for a
    level that has none. *)
Definition validateAndGetLevelConfig (finalLevelName : string)
  (initialProjectiles : Q) (structure : list BlockConfig)
  (editingLevelId : option LevelId) (freshId : string) : option Level :=
  if negb (truthyText finalLevelName) then None
  else if Qltb initialProjectiles 1 then None
  else
    match structure with
    | [] => None
    | first :: rest =>
        let golden := List.length (goldenBlocks structure) in
        if Nat.eqb golden 0 then None
        else if Nat.ltb 1 golden then None
        else
          let bx := boundsOf first rest in
          let center := centerOf bx in
          let extent := extentOf bx in
          Some (mkPlayable
                  match editingLevelId with
                  | Some i => if truthyId i then i else TextId freshId
                  | None => TextId freshId
                  end
                  finalLevelName initialProjectiles structure
                  (Some (mkVec3 (vx center) (vy center + extent * (75 # 100))
                                (vz center + extent * (15 # 10))))
                  (Some center)
                  (Some ("커스텀 레벨: " ++ finalLevelName
                         ++ ". 황금 블록을 무너뜨리세요!")%string))
    end.

(** The exported file of a level read back as a member of an import. *)
Definition exported (l : Level) : ImportedLevel :=
  mkImported (Some (levelId l)) (Some (name l)) (Some (blocks l))
             (Some (initialProjectiles l)) (cameraPosition l)
             (cameraTarget l) (startMessage l).

(** ** Generated levels ([geminiService.ts], [handleAiGenerateLevel]) *)

(** The object [JSON.parse] makes of the answer of the model.  [parsedName]
    and [parsedLevelId] are [None] for a missing field, [null] and [false];
    [parsedStructure] is [None] unless the field is an array and
    [parsedProjectiles] unless it is a number.  The blocks of the structure
    and the other fields are taken at their declared types; a block without
    [id] has the empty string there. *)
Record ParsedLevel : Type := mkParsed {
  parsedLevelId : option LevelId;
  parsedName : option LevelName;
  parsedStructure : option (list BlockConfig);
  parsedProjectiles : option Q;
  parsedCameraPosition : option Vec3;
  parsedCameraTarget : option Vec3;
  parsedMessage : option string
}.

(** The body of [parsedData.structure.forEach] in [generateLevelWithGemini]:
    a block without identifier gets one from the clock and its index, a
    block without shape becomes a cube.  The colour is left out. *)
Definition completeBlock (dateNow : Z) (index : nat) (block : BlockConfig)
  : BlockConfig :=
  mkBlockConfig
    (if negb (truthyText (bcId block))
     then ("ai_block_" ++ showZ dateNow ++ "_" ++ showZ (Z.of_nat index))%string
     else bcId block)
    (bcX block) (bcY block) (bcZ block)
    (match bcShape block with
     | Some shape => Some shape
     | None => Some cube
     end)
    (bcIsKing block).

(** [blockNow index] is [Date.now()] when the loop is at [index]. *)
Fixpoint completeBlocks (blockNow : nat -> Z) (index : nat)
  (structure : list BlockConfig) : list BlockConfig :=
  match structure with
  | [] => []
  | block :: rest =>
      completeBlock (blockNow index) index block
      :: completeBlocks blockNow (S index) rest
  end.

(** [generateLevelWithGemini] from [JSON.parse] on.  [answer] is [None] when
    an earlier step threw (no key, a failed request, an answer that is not
    the text of a JSON object); [levelNow] and [random] are the clock and
    the random text of a new level identifier.  [None] stands for the thrown
    errors. *)
Definition generateLevelWithGemini (answer : option ParsedLevel)
  (blockNow : nat -> Z) (levelNow : Z) (random : string) : option Level :=
  match answer with
  | None => None
  | Some parsedData =>
      match parsedName parsedData, parsedStructure parsedData,
            parsedProjectiles parsedData with
      | Some title, Some structure, Some count =>
          if negb (truthyName title) then None
          else if Nat.ltb 25 (List.length structure) then None
          else if Nat.eqb (List.length structure) 0 then None
          else if negb (Nat.eqb (List.length (goldenBlocks structure)) 1)
          then None
          else
            let fresh :=
              TextId ("ai_level_" ++ showZ levelNow ++ "_" ++ random) in
            Some (mkPlayable
                    match parsedLevelId parsedData with
                    | Some i => if truthyId i then i else fresh
                    | None => fresh
                    end
                    title count (completeBlocks blockNow 0 structure)
                    (parsedCameraPosition parsedData)
                    (parsedCameraTarget parsedData)
                    (parsedMessage parsedData))
      | _, _, _ => None
      end
  end.

(** One round of the loop of [handleAiGenerateLevel] that repairs the golden
    blocks; [golden] is the number of golden blocks before the loop. *)
Definition repairStep (golden idx : nat) (b : BlockConfig)
  (hasFixedKing : bool) : BlockConfig * bool :=
  if Nat.eqb idx 0 && Nat.eqb golden 0 then (setKing b true, true)
  else if Nat.ltb 1 golden && truthyB (bcIsKing b) && negb hasFixedKing
  then (b, true)
  else if Nat.ltb 1 golden && truthyB (bcIsKing b) && hasFixedKing
  then (setKing b false, hasFixedKing)
  else (b, hasFixedKing).

Fixpoint repairLoop (golden idx : nat) (structure : list BlockConfig)
  (hasFixedKing : bool) : list BlockConfig * bool :=
  match structure with
  | [] => ([], hasFixedKing)
  | b :: rest =>
      let r := repairStep golden idx b hasFixedKing in
      let r' := repairLoop golden (S idx) rest (snd r) in
      (fst r :: fst r', snd r')
  end.

(** The checks of [handleAiGenerateLevel] on the structure of a generated
    level; [None] stands for the thrown errors. *)
Definition repairGoldenBlocks (structure : list BlockConfig)
  : option (list BlockConfig) :=
  match structure with
  | [] => None
  | _ :: _ =>
      let golden := List.length (goldenBlocks structure) in
      if Nat.eqb golden 1 then Some structure
      else
        let r := repairLoop golden 0 structure false in
        let repaired :=
          if negb (snd r)
          then match fst r with
               | first :: rest => setKing first true :: rest
               | [] => []
               end
          else fst r in
        if Nat.eqb (List.length (goldenBlocks repaired)) 1
        then Some repaired else None
  end.

Inductive MessageType : Type := success | error.

(** The state of the editor that [handleAiGenerateLevel] sets. *)
Record Draft : Type := mkDraft {
  draftName : LevelName;
  draftProjectiles : Q;
  draftStructure : list BlockConfig;
  draftEditingLevelId : option LevelId;
  draftMessageType : option MessageType
}.

(** The [catch] of [handleAiGenerateLevel]: only the message changes. *)
Definition generationFailed (d : Draft) : Draft :=
  mkDraft (draftName d) (draftProjectiles d) (draftStructure d)
          (draftEditingLevelId d) (Some error).

(** [handleAiGenerateLevel] once [generateLevelWithGemini] has answered;
    [aiGeneratedLevel] is [None] when it threw.  A level has an array for
    structure and a number of projectiles, so of the first check the name
    remains.  The camera is left out. *)
Definition handleAiGenerateLevel (aiGeneratedLevel : option Level)
  (d : Draft) : Draft :=
  match aiGeneratedLevel with
  | None => generationFailed d
  | Some level =>
      if negb (truthyName (name level)) then generationFailed d
      else
        match repairGoldenBlocks (blocks level) with
        | None => generationFailed d
        | Some structure =>
            mkDraft (name level) (Qmax 1 (initialProjectiles level))
                    structure None (Some success)
        end
  end.

(** Two structures differ in their golden flags only. *)
Definition sameBlocks (s s' : list BlockConfig) : Prop :=
  map (fun b => (bcId b, bcX b, bcY b, bcZ b, bcShape b)) s'
  = map (fun b => (bcId b, bcX b, bcY b, bcZ b, bcShape b)) s.

(** ** Sample structures *)

Definition sampleClicks : list Click :=
  [ LeftClick cube false 1700000000000 (mkVec3 0 (1 # 2) 0);
    LeftClick cube true 1700000000500 (mkVec3 0 (3 # 2) 0);
    LeftClick sphere true 1700000000900 (mkVec3 1 (1 # 2) 0);
    RightClick "custom_block_1700000000500_1" ].

Definition twoCrowns : list BlockConfig :=
  [ cubeAt "a" 0 (1 # 2) 0; kingAt "b" 0 (3 # 2) 0; kingAt "c" 0 (5 # 2) 0 ].

Definition generatedTower : ParsedLevel :=
  mkParsed None (Some (TextName "탑"))
    (Some [ mkBlockConfig "" 0 (1 # 2) 0 None None;
            mkBlockConfig "crown" 0 (3 # 2) 0 (Some sphere) (Some true) ])
    (Some 0) None None None.

Definition generatedTwoCrowns : ParsedLevel :=
  mkParsed None (Some (TextName "쌍둥이")) (Some twoCrowns) (Some 3)
           None None None.

(** The state of a new editor. *)
Definition initialDraft : Draft :=
  mkDraft (TextName "커스텀 레벨") 10 [] None None.

End Editor.

(** * Properties *)

(** ** Comparisons *)

Lemma Qltb_true (a b : Q) : Qltb a b = true <-> a < b.
Proof.
  unfold Qltb. rewrite negb_true_iff, <- not_true_iff_false, Qle_bool_iff.
  split; intro H; [ apply Qnot_le_lt | apply Qlt_not_le ]; exact H.
Qed.

Lemma Qltb_false (a b : Q) : Qltb a b = false <-> b <= a.
Proof.
  unfold Qltb. rewrite negb_false_iff. apply Qle_bool_iff.
Qed.


(** ** Fall detection *)

(** The three ways through the loop body. *)
Ltac detectFall_cases obj :=
  unfold detectFall;
  destruct (negb (isFallen obj)); [ destruct (fallCondition obj) | ];
  reflexivity.

Lemma detectFall_id (obj : PhysicsObject) : id (fst (detectFall obj)) = id obj.
Proof.
  detectFall_cases obj.
Qed.

Lemma detectFall_isKing (obj : PhysicsObject) :
  isKing (fst (detectFall obj)) = isKing obj.
Proof.
  detectFall_cases obj.
Qed.

Lemma detectFall_body (obj : PhysicsObject) :
  body (fst (detectFall obj)) = body obj.
Proof.
  detectFall_cases obj.
Qed.

Lemma detectFall_initialY (obj : PhysicsObject) :
  initialY (fst (detectFall obj)) = initialY obj.
Proof.
  detectFall_cases obj.
Qed.

Lemma detectFall_isFallen (obj : PhysicsObject) :
  isFallen (fst (detectFall obj)) = isFallen obj || fallCondition obj.
Proof.
  unfold detectFall.
  destruct (isFallen obj) eqn:E; simpl; [ now rewrite E | ].
  destruct (fallCondition obj); simpl; [ reflexivity | exact E ].
Qed.

Lemma detectFall_events (obj : PhysicsObject) :
  snd (detectFall obj)
  = if negb (isFallen obj) && fallCondition obj
    then [(id obj, truthyB (isKing obj))] else [].
Proof.
  detectFall_cases obj.
Qed.

Lemma detectFalls_cons (obj : PhysicsObject) (rest : list PhysicsObject) :
  detectFalls (obj :: rest)
  = (fst (detectFall obj) :: fst (detectFalls rest),
     snd (detectFall obj) ++ snd (detectFalls rest)).
Proof.
  simpl. destruct (detectFall obj), (detectFalls rest). reflexivity.
Qed.

Lemma detectFalls_objects (objs : list PhysicsObject) :
  fst (detectFalls objs) = map (fun o => fst (detectFall o)) objs.
Proof.
  induction objs as [| o rest IH]; [ reflexivity | ].
  rewrite detectFalls_cons. simpl. now rewrite IH.
Qed.

Lemma detectFalls_events (objs : list PhysicsObject) :
  snd (detectFalls objs) = List.concat (map (fun o => snd (detectFall o)) objs).
Proof.
  induction objs as [| o rest IH]; [ reflexivity | ].
  rewrite detectFalls_cons. simpl. now rewrite IH.
Qed.

Lemma stepBlocks_nth (o : StepOutcome) (objs : list PhysicsObject) :
  forall start i,
    nth_error (stepBlocks o start objs) i
    = option_map
        (fun obj => setBody obj (setKinematics (body obj)
                                   (blockKinematics o (start + i))))
        (nth_error objs i).
Proof.
  induction objs as [| obj rest IH]; intros start i.
  - destruct i; reflexivity.
  - destruct i as [| i]; simpl.
    + now rewrite Nat.add_0_r.
    + rewrite IH. now rewrite Nat.add_succ_r.
Qed.

Lemma stepBlocks_ids (o : StepOutcome) (objs : list PhysicsObject) :
  forall start, map id (stepBlocks o start objs) = map id objs.
Proof.
  induction objs as [| obj rest IH]; intro start; simpl; [ | rewrite IH ];
    reflexivity.
Qed.

Lemma stepBlocks_kings (o : StepOutcome) (objs : list PhysicsObject) :
  forall start,
    map (fun x => truthyB (isKing x)) (stepBlocks o start objs)
    = map (fun x => truthyB (isKing x)) objs.
Proof.
  induction objs as [| obj rest IH]; intro start; simpl; [ | rewrite IH ];
    reflexivity.
Qed.

Lemma stepBlocks_fallen (o : StepOutcome) (objs : list PhysicsObject) :
  forall start, map isFallen (stepBlocks o start objs) = map isFallen objs.
Proof.
  induction objs as [| obj rest IH]; intro start; simpl; [ | rewrite IH ];
    reflexivity.
Qed.

Lemma animate_mounted (inp : FrameInput) (c : Canvas) :
  mounted (fst (animate inp c)) = mounted c.
Proof.
  unfold animate. destruct (mounted c) eqn:E; [ | now simpl ].
  destruct (stepProjectiles _ _ _ _), (detectFalls _). now simpl.
Qed.

Lemma animate_physicsObjects (inp : FrameInput) (c : Canvas) :
  physicsObjects (fst (animate inp c))
  = if mounted c then
      fst (detectFalls
             (stepBlocks
                (stepWorld inp
                   (Qmax 0 (Qmin (1 / 30)
                                 ((currentTime inp - lastCallTime c) / 1000))))
                0 (physicsObjects c)))
    else physicsObjects c.
Proof.
  unfold animate. destruct (mounted c); [ | reflexivity ].
  destruct (stepProjectiles _ _ _ _), (detectFalls _). reflexivity.
Qed.

Lemma animate_fallenEvents (inp : FrameInput) (c : Canvas) :
  fallenEvents (snd (animate inp c))
  = if mounted c then
      snd (detectFalls
             (stepBlocks
                (stepWorld inp
                   (Qmax 0 (Qmin (1 / 30)
                                 ((currentTime inp - lastCallTime c) / 1000))))
                0 (physicsObjects c)))
    else [].
Proof.
  unfold animate. destruct (mounted c); [ | reflexivity ].
  destruct (stepProjectiles _ _ _ _), (detectFalls _). reflexivity.
Qed.

Lemma launchProjectile_physicsObjects (pw : Q) (t : ProjectileType)
  (li : LaunchInput) (c : Canvas) :
  physicsObjects (launchProjectile pw t li c) = physicsObjects c.
Proof. unfold launchProjectile. now destruct (mounted c). Qed.

Lemma launchProjectile_mounted (pw : Q) (t : ProjectileType)
  (li : LaunchInput) (c : Canvas) :
  mounted (launchProjectile pw t li c) = mounted c.
Proof. unfold launchProjectile. now destruct (mounted c) eqn:E. Qed.

Lemma countEvents_app (x : string) (l1 l2 : list FallEvent) :
  countEvents x (l1 ++ l2) = (countEvents x l1 + countEvents x l2)%nat.
Proof. unfold countEvents. now rewrite filter_app, length_app. Qed.

Lemma countEvents_detectFall (x : string) (o : PhysicsObject) :
  countEvents x (snd (detectFall o))
  = if String.eqb (id o) x && (negb (isFallen o) && fallCondition o)
    then 1%nat else 0%nat.
Proof.
  rewrite detectFall_events.
  destruct (negb (isFallen o) && fallCondition o); unfold countEvents; simpl.
  - destruct (String.eqb (id o) x); reflexivity.
  - now rewrite andb_false_r.
Qed.

Lemma countEvents_absent (x : string) (objs : list PhysicsObject) :
  ~ In x (map id objs) -> countEvents x (snd (detectFalls objs)) = 0%nat.
Proof.
  induction objs as [| o rest IH]; intro Hx; [ reflexivity | ].
  rewrite detectFalls_cons. simpl snd.
  rewrite countEvents_app, countEvents_detectFall, IH.
  - destruct (String.eqb_spec (id o) x) as [E | _]; [ | reflexivity ].
    exfalso. apply Hx. now left.
  - intro H. apply Hx. now right.
Qed.

Lemma countEvents_detectFalls (objs : list PhysicsObject) :
  forall i obj,
    NoDup (map id objs) ->
    nth_error objs i = Some obj ->
    countEvents (id obj) (snd (detectFalls objs))
    = if negb (isFallen obj) && fallCondition obj then 1%nat else 0%nat.
Proof.
  induction objs as [| o rest IH]; intros i obj Hnd Hi.
  - destruct i; discriminate.
  - rewrite detectFalls_cons. simpl snd. rewrite countEvents_app.
    simpl in Hnd. inversion Hnd as [| ? ? Hnotin Hnd']; subst.
    destruct i as [| i]; simpl in Hi.
    + injection Hi as ->.
      rewrite countEvents_detectFall, String.eqb_refl, countEvents_absent
        by assumption.
      simpl. now rewrite Nat.add_0_r.
    + rewrite countEvents_detectFall, (IH i obj Hnd' Hi).
      destruct (String.eqb_spec (id o) (id obj)) as [E | _]; [ | reflexivity ].
      exfalso. apply Hnotin. rewrite E.
      apply in_map. eapply nth_error_In. exact Hi.
Qed.

Lemma detectFalls_event_source (objs : list PhysicsObject) (ev : FallEvent) :
  In ev (snd (detectFalls objs)) ->
  exists o, In o objs /\ ev = (id o, truthyB (isKing o)).
Proof.
  induction objs as [| o rest IH]; [ intros [] | ].
  rewrite detectFalls_cons. simpl snd. rewrite in_app_iff.
  intros [H | H].
  - rewrite detectFall_events in H.
    destruct (negb (isFallen o) && fallCondition o); [ | destruct H ].
    destruct H as [<- | []]. exists o. split; [ now left | reflexivity ].
  - destruct (IH H) as [o' [Hin E]]. exists o'. split; [ now right | exact E ].
Qed.

Lemma NoDup_map_injective {A B : Type} (f : A -> B) (l : list A) (a b : A) :
  NoDup (map f l) -> In a l -> In b l -> f a = f b -> a = b.
Proof.
  induction l as [| x l IH]; intros Hnd Ha Hb E; [ destruct Ha | ].
  simpl in Hnd. inversion Hnd as [| ? ? Hnotin Hnd']; subst.
  destruct Ha as [-> | Ha], Hb as [-> | Hb].
  - reflexivity.
  - exfalso. apply Hnotin. rewrite E. now apply in_map.
  - exfalso. apply Hnotin. rewrite <- E. now apply in_map.
  - now apply IH.
Qed.

(** What one action of a session does to the structure object [i]. *)
Lemma perform_block (a : Action) (c : Canvas) (i : nat) (obj : PhysicsObject) :
  NoDup (map id (physicsObjects c)) ->
  nth_error (physicsObjects c) i = Some obj ->
  map id (physicsObjects (fst (perform a c))) = map id (physicsObjects c)
  /\ (exists obj1,
        nth_error (physicsObjects (fst (perform a c))) i = Some obj1
        /\ id obj1 = id obj /\ isKing obj1 = isKing obj
        /\ isFallen obj1 = isFallen obj || fallsIn a c i)
  /\ countEvents (id obj) (fallenEvents (snd (perform a c)))
     = (if negb (isFallen obj) && fallsIn a c i then 1%nat else 0%nat)
  /\ (forall ev, In ev (fallenEvents (snd (perform a c))) ->
        fst ev = id obj -> ev = (id obj, truthyB (isKing obj))).
Proof.
  intros Hnd Hi. destruct a as [inp | pw t li]; simpl perform.
  - rewrite animate_physicsObjects, animate_fallenEvents.
    unfold fallsIn, steppedBlock.
    destruct (mounted c) eqn:M.
    + set (o := stepWorld inp _).
      set (L := stepBlocks o 0 (physicsObjects c)).
      set (sobj := setBody obj
                     (setKinematics (body obj) (blockKinematics o i))).
      assert (HL : nth_error L i = Some sobj).
      { unfold L. rewrite stepBlocks_nth, Hi. reflexivity. }
      assert (HndL : NoDup (map id L)).
      { unfold L. now rewrite stepBlocks_ids. }
      rewrite HL. simpl andb.
      repeat split.
      * rewrite detectFalls_objects, map_map.
        rewrite (map_ext _ id (fun o0 => detectFall_id o0)).
        unfold L. apply stepBlocks_ids.
      * exists (fst (detectFall sobj)). repeat split.
        -- rewrite detectFalls_objects.
           exact (map_nth_error (fun o0 => fst (detectFall o0)) i L HL).
        -- now rewrite detectFall_id.
        -- now rewrite detectFall_isKing.
        -- now rewrite detectFall_isFallen.
      * exact (countEvents_detectFalls L i sobj HndL HL).
      * intros ev Hev Hfst.
        destruct (detectFalls_event_source L ev Hev) as [o' [Hin ->]].
        simpl in Hfst.
        assert (o' = sobj) as ->.
        { apply (NoDup_map_injective id L); try assumption.
          eapply nth_error_In. exact HL. }
        reflexivity.
    + rewrite andb_false_r. repeat split.
      * exists obj. rewrite orb_false_r. now repeat split.
      * intros ev [].
  - cbn [fst snd]. rewrite launchProjectile_physicsObjects. simpl.
    rewrite andb_false_r. repeat split.
    + exists obj. rewrite orb_false_r. now repeat split.
    + intros ev [].
Qed.

Lemma run_cons (a : Action) (rest : list Action) (c : Canvas) :
  run (a :: rest) c
  = (fst (run rest (fst (perform a c))),
     snd (perform a c) :: snd (run rest (fst (perform a c)))).
Proof.
  simpl. destruct (perform a c) as [c1 out]. simpl.
  destruct (run rest c1). reflexivity.
Qed.

(** C1. Within a session every structure block fires its block-fallen event
    exactly once, in the first frame in which a fall condition holds for it,
    carrying its identifier and golden flag; no other action of the session
    fires an event with that identifier, and the fallen flag, once set, stays
    set.  Identifiers are unique within a level. *)
Theorem block_fallen_event_once :
  forall (actions : list Action) (c : Canvas) (i : nat) (obj : PhysicsObject),
    NoDup (map id (physicsObjects c)) ->
    nth_error (physicsObjects c) i = Some obj ->
    (forall k,
        countEvents (id obj) (eventsAt k (snd (run actions c)))
        = if negb (isFallen obj) && isStep (firstFallStep actions c i) k
          then 1%nat else 0%nat)
    /\ (forall k ev,
           In ev (eventsAt k (snd (run actions c))) -> fst ev = id obj ->
           ev = (id obj, truthyB (isKing obj)))
    /\ (exists obj',
           nth_error (physicsObjects (fst (run actions c))) i = Some obj'
           /\ id obj' = id obj
           /\ isFallen obj'
              = isFallen obj || isSome (firstFallStep actions c i)).
Proof.
  induction actions as [| a rest IH]; intros c i obj Hnd Hi.
  - simpl. repeat split.
    + intro k. rewrite andb_false_r. unfold eventsAt.
      now destruct k.
    + intros k ev H. unfold eventsAt in H. destruct k; destruct H.
    + exists obj. rewrite orb_false_r. now repeat split.
  - rewrite run_cons. simpl fst. simpl snd.
    destruct (perform_block a c i obj Hnd Hi)
      as [Hids [[obj1 [Hi1 [Hid1 [Hk1 Hf1]]]] [Hcount Hsrc]]].
    assert (Hnd1 : NoDup (map id (physicsObjects (fst (perform a c))))).
    { now rewrite Hids. }
    destruct (IH (fst (perform a c)) i obj1 Hnd1 Hi1) as [IHc [IHs [obj' IHo]]].
    simpl firstFallStep.
    repeat split.
    + intros [| k]; unfold eventsAt; cbn [nth_error].
      * rewrite Hcount. destruct (fallsIn a c i); simpl; [ reflexivity | ].
        rewrite andb_false_r.
        destruct (firstFallStep rest (fst (perform a c)) i); simpl;
          now rewrite andb_false_r.
      * fold (eventsAt k (snd (run rest (fst (perform a c))))).
        rewrite <- Hid1, IHc, Hf1.
        destruct (fallsIn a c i); simpl.
        -- now rewrite orb_true_r, andb_false_r.
        -- rewrite orb_false_r.
           now destruct (firstFallStep rest (fst (perform a c)) i).
    + intros [| k] ev; unfold eventsAt; cbn [nth_error].
      * apply Hsrc.
      * fold (eventsAt k (snd (run rest (fst (perform a c))))).
        intros Hin Hfst. rewrite <- Hid1, <- Hk1. apply (IHs k ev Hin).
        now rewrite Hid1.
    + exists obj'. destruct IHo as [Hn [Hid' Hf']]. repeat split.
      * exact Hn.
      * now rewrite Hid', Hid1.
      * rewrite Hf', Hf1.
        destruct (fallsIn a c i); simpl.
        -- now rewrite orb_true_r.
        -- rewrite orb_false_r.
           now destruct (firstFallStep rest (fst (perform a c)) i).
Qed.

Lemma hasDroppedSignificantly_spec (obj : PhysicsObject) :
  hasDroppedSignificantly obj = true
  <-> vy (position (body obj)) < initialY obj - (375 # 1000).
Proof.
  unfold hasDroppedSignificantly, BLOCK_SIZE. rewrite Qltb_true.
  split; intro H; lra.
Qed.

Lemma hasDroppedSignificantly_false (obj : PhysicsObject) :
  hasDroppedSignificantly obj = false
  <-> initialY obj - (375 # 1000) <= vy (position (body obj)).
Proof.
  unfold hasDroppedSignificantly, BLOCK_SIZE. rewrite Qltb_false.
  split; intro H; lra.
Qed.

(** C2. For a block that has not fallen yet and is not tilted, fall detection
    marks it fallen exactly when the centre of its body is strictly below its
    initial centre minus 0.375: a drop of 0.375 minus any positive epsilon
    leaves it standing (no event), a drop of 0.375 plus any positive epsilon
    marks it fallen and fires its event. *)
Theorem drop_threshold (obj : PhysicsObject)
  (Hstanding : isFallen obj = false)
  (Hupright : isSignificantlyTilted obj = false) :
  (isFallen (fst (detectFall obj)) = true
   <-> vy (position (body obj)) < initialY obj - (375 # 1000))
  /\ (forall eps, 0 < eps ->
        vy (position (body obj)) == initialY obj - ((375 # 1000) - eps) ->
        detectFall obj = (obj, []))
  /\ (forall eps, 0 < eps ->
        vy (position (body obj)) == initialY obj - ((375 # 1000) + eps) ->
        detectFall obj
        = (setIsFallen obj true, [(id obj, truthyB (isKing obj))])).
Proof.
  assert (Hcond : fallCondition obj = hasDroppedSignificantly obj).
  { unfold fallCondition. rewrite Hupright, andb_false_r. apply orb_false_r. }
  repeat split.
  - rewrite detectFall_isFallen, Hstanding, Hcond. simpl.
    apply hasDroppedSignificantly_spec.
  - rewrite detectFall_isFallen, Hstanding, Hcond. simpl.
    apply hasDroppedSignificantly_spec.
  - intros eps Heps Hy. unfold detectFall. rewrite Hstanding, Hcond. simpl.
    assert (H : hasDroppedSignificantly obj = false).
    { apply hasDroppedSignificantly_false. lra. }
    now rewrite H.
  - intros eps Heps Hy. unfold detectFall. rewrite Hstanding, Hcond. simpl.
    assert (H : hasDroppedSignificantly obj = true).
    { apply hasDroppedSignificantly_spec. lra. }
    now rewrite H.
Qed.

Lemma isSphere_created (conf : BlockConfig) (k : Kinematics) :
  isSphere (setBody (createBlockVisualAndPhysics conf)
              (setKinematics (body (createBlockVisualAndPhysics conf)) k))
  = match bcShape conf with Some sphere => true | _ => false end.
Proof.
  unfold isSphere. simpl. destruct (bcShape conf) as [[] |]; reflexivity.
Qed.

(** C3. A block built from a level entry and moved by the engine, whose centre
    has not dropped past the 0.375 threshold: if its shape is the sphere, no
    orientation marks it fallen and it fires no event; with any other shape
    (cube, also by default, cylinder, 2x1x1, 3x1x1) it is marked fallen and
    fires its event as soon as the world-space up component of its local up
    axis is below 0.5 (a 90-degree tilt, for one). *)
Theorem tilt_exemption (conf : BlockConfig) (k : Kinematics)
  (Hnodrop : bcY conf - (375 # 1000) <= vy (kPosition k)) :
  let obj := setBody (createBlockVisualAndPhysics conf)
               (setKinematics (body (createBlockVisualAndPhysics conf)) k) in
  (bcShape conf = Some sphere -> detectFall obj = (obj, []))
  /\ (bcShape conf <> Some sphere ->
      vy (vmult (kQuaternion k) (mkVec3 0 1 0)) < 1 # 2 ->
      detectFall obj
      = (setIsFallen obj true, [(bcId conf, truthyB (bcIsKing conf))])).
Proof.
  intro obj.
  assert (Hd : hasDroppedSignificantly obj = false).
  { apply hasDroppedSignificantly_false. exact Hnodrop. }
  assert (Hs : isSphere obj
               = match bcShape conf with Some sphere => true | _ => false end).
  { apply isSphere_created. }
  split.
  - intro Hshape. unfold detectFall, fallCondition.
    rewrite Hd, Hs, Hshape. reflexivity.
  - intros Hshape Htilt.
    assert (Ht : isSignificantlyTilted obj = true).
    { unfold isSignificantlyTilted. apply Qltb_true. exact Htilt. }
    unfold detectFall, fallCondition. rewrite Hd, Ht, Hs.
    destruct (bcShape conf) as [[] |]; try reflexivity.
    now elim Hshape.
Qed.

(** ** The golden block *)

Lemma stepBlocks_In (o : StepOutcome) (objs : list PhysicsObject) :
  forall start s,
    In s (stepBlocks o start objs) ->
    exists x k, In x objs /\ s = setBody x (setKinematics (body x) k).
Proof.
  induction objs as [| obj rest IH]; intros start s H; [ destruct H | ].
  destruct H as [<- | H].
  - exists obj, (blockKinematics o start). split; [ now left | reflexivity ].
  - destruct (IH _ _ H) as [x [k [Hin E]]].
    exists x, k. split; [ now right | exact E ].
Qed.

(** Where the structure objects after an action come from. *)
Lemma perform_source (a : Action) (c : Canvas) (o' : PhysicsObject) :
  In o' (physicsObjects (fst (perform a c))) ->
  exists o, In o (physicsObjects c) /\ id o' = id o /\ isKing o' = isKing o
            /\ (isFallen o = true -> isFallen o' = true).
Proof.
  destruct a as [inp | pw t li]; cbn [perform fst].
  - rewrite animate_physicsObjects. destruct (mounted c).
    + rewrite detectFalls_objects, in_map_iff. intros [s [<- Hs]].
      destruct (stepBlocks_In _ _ _ _ Hs) as [x [k [Hin ->]]].
      exists x. rewrite detectFall_id, detectFall_isKing, detectFall_isFallen.
      simpl. repeat split; try assumption. now intros ->.
    + intro H. exists o'. now repeat split.
  - rewrite launchProjectile_physicsObjects. intro H. exists o'.
    now repeat split.
Qed.

Lemma perform_events_source (a : Action) (c : Canvas) (ev : FallEvent) :
  In ev (fallenEvents (snd (perform a c))) ->
  exists o, In o (physicsObjects c) /\ ev = (id o, truthyB (isKing o)).
Proof.
  destruct a as [inp | pw t li]; cbn [perform snd]; [ | intros [] ].
  rewrite animate_fallenEvents. destruct (mounted c); [ | intros [] ].
  intro H. destruct (detectFalls_event_source _ _ H) as [s [Hs ->]].
  destruct (stepBlocks_In _ _ _ _ Hs) as [x [k [Hin ->]]].
  exists x. split; [ exact Hin | reflexivity ].
Qed.

Lemma perform_nth (a : Action) (c : Canvas) (i : nat) (obj : PhysicsObject) :
  nth_error (physicsObjects c) i = Some obj ->
  exists obj', nth_error (physicsObjects (fst (perform a c))) i = Some obj'
               /\ id obj' = id obj
               /\ (isFallen obj = true -> isFallen obj' = true).
Proof.
  intro Hi. destruct a as [inp | pw t li]; cbn [perform fst].
  - rewrite animate_physicsObjects. destruct (mounted c).
    + rewrite detectFalls_objects.
      set (o := stepWorld inp _).
      exists (fst (detectFall
                     (setBody obj (setKinematics (body obj)
                                     (blockKinematics o i))))).
      repeat split.
      * apply (map_nth_error (fun o0 => fst (detectFall o0))).
        rewrite stepBlocks_nth, Hi. reflexivity.
      * now rewrite detectFall_id.
      * rewrite detectFall_isFallen. simpl. now intros ->.
    + exists obj. now repeat split.
  - rewrite launchProjectile_physicsObjects. exists obj. now repeat split.
Qed.

Lemma run_source (actions : list Action) :
  forall c o',
    In o' (physicsObjects (fst (run actions c))) ->
    exists o, In o (physicsObjects c) /\ id o' = id o /\ isKing o' = isKing o
              /\ (isFallen o = true -> isFallen o' = true).
Proof.
  induction actions as [| a rest IH]; intros c o' H.
  - exists o'. now repeat split.
  - rewrite run_cons in H. simpl fst in H.
    destruct (IH _ _ H) as [o1 [H1 [Hid1 [Hk1 Hf1]]]].
    destruct (perform_source _ _ _ H1) as [o [H0 [Hid0 [Hk0 Hf0]]]].
    exists o. repeat split; try assumption; try congruence.
    intro F. apply Hf1, Hf0, F.
Qed.

Lemma run_events_source (actions : list Action) :
  forall c k ev,
    In ev (eventsAt k (snd (run actions c))) ->
    exists o, In o (physicsObjects c) /\ ev = (id o, truthyB (isKing o)).
Proof.
  induction actions as [| a rest IH]; intros c k ev H.
  - unfold eventsAt in H. simpl in H. destruct k; destruct H.
  - rewrite run_cons in H. simpl snd in H. unfold eventsAt in H.
    destruct k as [| k]; cbn [nth_error] in H.
    + apply perform_events_source in H. exact H.
    + fold (eventsAt k (snd (run rest (fst (perform a c))))) in H.
      destruct (IH _ _ _ H) as [o1 [H1 ->]].
      destruct (perform_source _ _ _ H1) as [o [H0 [Hid0 [Hk0 _]]]].
      exists o. split; [ exact H0 | now rewrite Hid0, Hk0 ].
Qed.

Lemma run_nth (actions : list Action) :
  forall c i obj,
    nth_error (physicsObjects c) i = Some obj ->
    exists obj', nth_error (physicsObjects (fst (run actions c))) i = Some obj'
                 /\ id obj' = id obj
                 /\ (isFallen obj = true -> isFallen obj' = true).
Proof.
  induction actions as [| a rest IH]; intros c i obj Hi.
  - exists obj. now repeat split.
  - rewrite run_cons. simpl fst.
    destruct (perform_nth a c i obj Hi) as [o1 [H1 [Hid1 Hf1]]].
    destruct (IH _ _ _ H1) as [o2 [H2 [Hid2 Hf2]]].
    exists o2. repeat split; try assumption; try congruence.
    intro F. apply Hf2, Hf1, F.
Qed.

Lemma getGoldenBlockPosition_none (c : Canvas) :
  (forall o, In o (physicsObjects c) ->
             truthyB (isKing o) = true -> isFallen o = true) ->
  getGoldenBlockPosition c = None.
Proof.
  intro H. unfold getGoldenBlockPosition.
  destruct (find _ (physicsObjects c)) as [g |] eqn:E; [ | reflexivity ].
  apply find_some in E. destruct E as [Hin Hg].
  apply andb_true_iff in Hg. destruct Hg as [Hk Hf].
  rewrite (H g Hin Hk) in Hf. discriminate.
Qed.

Lemma createStructure_loaded (levelConfig : LevelConfiguration) (c : Canvas) :
  mounted c = true -> loadedWith levelConfig (createStructure levelConfig c).
Proof.
  intro M. unfold loadedWith, createStructure. rewrite M. simpl.
  rewrite !map_map. split; apply map_ext; intro b; reflexivity.
Qed.

Lemma initCanvas_loaded (levelConfig : LevelConfiguration) (now : Q) :
  loadedWith levelConfig (initCanvas levelConfig now).
Proof. now apply createStructure_loaded. Qed.

Lemma resetLevel_loaded (levelConfig : LevelConfiguration) (now : Q)
  (c : Canvas) :
  mounted c = true -> loadedWith levelConfig (resetLevel levelConfig now c).
Proof.
  intro M. unfold resetLevel. rewrite M.
  destruct (createStructure_loaded levelConfig
              (mkCanvas true (physicsObjects c) [] (lastCallTime c)) eq_refl)
    as [H1 H2].
  split; assumption.
Qed.

(** C9. When the loaded structure holds no golden block,
    [getGoldenBlockPosition] answers null at every point of the session and
    no block-fallen event of the session carries the golden flag. *)
Theorem no_golden_block (levelConfig : LevelConfiguration) (c : Canvas)
  (actions : list Action)
  (Hloaded : loadedWith levelConfig c)
  (Hnone : forall b, In b (structure levelConfig) ->
                     truthyB (bcIsKing b) = false) :
  getGoldenBlockPosition (fst (run actions c)) = None
  /\ (forall k ev, In ev (eventsAt k (snd (run actions c))) -> snd ev = false).
Proof.
  assert (Hplain : forall o, In o (physicsObjects c) ->
                             truthyB (isKing o) = false).
  { intros o Hin. destruct Hloaded as [_ Hk].
    assert (H : In (truthyB (isKing o))
                  (map (fun b => truthyB (bcIsKing b)) (structure levelConfig))).
    { rewrite <- Hk. now apply (in_map (fun x => truthyB (isKing x))). }
    apply in_map_iff in H. destruct H as [b [<- Hb]]. now apply Hnone. }
  split.
  - apply getGoldenBlockPosition_none. intros o' Hin Hk.
    destruct (run_source _ _ _ Hin) as [o [H0 [_ [Hk0 _]]]].
    rewrite Hk0, (Hplain o H0) in Hk. discriminate.
  - intros k ev Hin.
    destruct (run_events_source _ _ _ _ Hin) as [o [H0 ->]].
    simpl. now apply Hplain.
Qed.

Lemma find_at {A : Type} (f : A -> bool) (l : list A) :
  forall i x,
    nth_error l i = Some x -> f x = true ->
    (forall j y, nth_error l j = Some y -> f y = true -> j = i) ->
    find f l = Some x.
Proof.
  induction l as [| a l IH]; intros i x Hi Hx Huniq.
  - destruct i; discriminate.
  - destruct i as [| i]; simpl in Hi.
    + injection Hi as ->. simpl. now rewrite Hx.
    + simpl. destruct (f a) eqn:Fa.
      * specialize (Huniq 0%nat a eq_refl Fa). discriminate.
      * apply (IH i x Hi Hx). intros j y Hj Hy.
        specialize (Huniq (S j) y Hj Hy). now injection Huniq.
Qed.

Lemma getGoldenBlockPosition_single (c : Canvas) (i : nat)
  (king : PhysicsObject) :
  nth_error (physicsObjects c) i = Some king ->
  truthyB (isKing king) = true ->
  (forall j o, nth_error (physicsObjects c) j = Some o ->
               truthyB (isKing o) = true -> j = i) ->
  getGoldenBlockPosition c
  = if isFallen king then None else Some (position (body king)).
Proof.
  intros Hi Hgold Honly. destruct (isFallen king) eqn:F.
  - apply getGoldenBlockPosition_none. intros o Hin Hk.
    destruct (In_nth_error _ _ Hin) as [j Hj].
    rewrite (Honly j o Hj Hk) in Hj. congruence.
  - unfold getGoldenBlockPosition.
    rewrite (find_at _ (physicsObjects c) i king Hi).
    + reflexivity.
    + now rewrite Hgold, F.
    + intros j y Hj Hy. apply andb_true_iff in Hy. now apply (Honly j y).
Qed.

Lemma perform_kings (a : Action) (c : Canvas) :
  map (fun o => truthyB (isKing o)) (physicsObjects (fst (perform a c)))
  = map (fun o => truthyB (isKing o)) (physicsObjects c).
Proof.
  destruct a as [inp | pw t li]; cbn [perform fst].
  - rewrite animate_physicsObjects. destruct (mounted c); [ | reflexivity ].
    rewrite detectFalls_objects, map_map.
    rewrite <- (stepBlocks_kings (stepWorld inp
      (Qmax 0 (Qmin (1 / 30) ((currentTime inp - lastCallTime c) / 1000))))
      (physicsObjects c) 0).
    apply map_ext. intro o. now rewrite detectFall_isKing.
  - now rewrite launchProjectile_physicsObjects.
Qed.

Lemma run_kings (actions : list Action) :
  forall c,
    map (fun o => truthyB (isKing o)) (physicsObjects (fst (run actions c)))
    = map (fun o => truthyB (isKing o)) (physicsObjects c).
Proof.
  induction actions as [| a rest IH]; intro c; [ reflexivity | ].
  rewrite run_cons. simpl fst. rewrite IH. apply perform_kings.
Qed.

Lemma kings_nth (l l' : list PhysicsObject) (j : nat) (o' : PhysicsObject) :
  map (fun o => truthyB (isKing o)) l' = map (fun o => truthyB (isKing o)) l ->
  nth_error l' j = Some o' ->
  exists o, nth_error l j = Some o /\ truthyB (isKing o) = truthyB (isKing o').
Proof.
  intros E Hj.
  pose proof (map_nth_error (fun o => truthyB (isKing o)) j l' Hj) as H.
  rewrite E in H. rewrite nth_error_map in H.
  destruct (nth_error l j) as [o |]; [ | discriminate ].
  exists o. split; [ reflexivity | ]. simpl in H. congruence.
Qed.

(** C10. With a single golden block in the structure, at every point of the
    session [getGoldenBlockPosition] answers the current position of the golden
    block's body as long as the block's fallen flag is not set, and null once
    it is set, although the block is still among the structure objects.  The
    flag is never cleared, so the answer stays null for the rest of the
    session. *)
Theorem golden_position_until_fallen (c : Canvas) (i : nat)
  (king : PhysicsObject) (actions : list Action)
  (Hking : nth_error (physicsObjects c) i = Some king)
  (Hgold : truthyB (isKing king) = true)
  (Honly : forall j o, nth_error (physicsObjects c) j = Some o ->
                       truthyB (isKing o) = true -> j = i) :
  exists king',
    nth_error (physicsObjects (fst (run actions c))) i = Some king'
    /\ id king' = id king
    /\ (isFallen king = true -> isFallen king' = true)
    /\ getGoldenBlockPosition (fst (run actions c))
       = if isFallen king' then None else Some (position (body king')).
Proof.
  destruct (run_nth actions c i king Hking) as [king' [Hi' [Hid Hmono]]].
  exists king'. repeat split; try assumption.
  pose proof (run_kings actions c) as Hk.
  apply (getGoldenBlockPosition_single _ i king' Hi').
  - destruct (kings_nth _ _ _ _ Hk Hi') as [o [Ho E]].
    rewrite Hking in Ho. injection Ho as <-. now rewrite <- E.
  - intros j o' Hj Ho'.
    destruct (kings_nth _ _ _ _ Hk Hj) as [o [Ho E]].
    apply (Honly j o Ho). now rewrite E.
Qed.

(** ** The power curve *)

Lemma jsRem_nonneg (x : Q) :
  0 <= x -> jsRem x MAX_LAUNCH_POWER = specRemainder x 1.
Proof.
  intro Hx. unfold jsRem, specRemainder, MAX_LAUNCH_POWER.
  assert (H0 : 0 <= x / 1).
  { setoid_replace (x / 1) with x by field. exact Hx. }
  destruct (x / 1) as [n d] eqn:E.
  unfold Qfloor. simpl Qnum. simpl Qden.
  rewrite Z.quot_div_nonneg; [ reflexivity | | reflexivity ].
  unfold Qle in H0. simpl in H0. lia.
Qed.

Lemma specRemainder_range (x : Q) :
  0 <= specRemainder x 1 < 1.
Proof.
  unfold specRemainder.
  assert (E : x / 1 == x) by field.
  pose proof (Qfloor_le (x / 1)) as Hlo.
  pose proof (Qlt_floor (x / 1)) as Hhi.
  rewrite inject_Z_plus in Hhi.
  change (inject_Z 1) with 1 in Hhi.
  rewrite E in Hlo at 2. rewrite E in Hhi at 1.
  split; lra.
Qed.

(** The value of the curve is the one number in (0, 1] that differs from the
    raw power by an integer. *)
Lemma specPower_sawtooth (elapsedMs : Q) :
  0 < specPower elapsedMs <= 1
  /\ exists n : Z, elapsedMs / 1500 == inject_Z n + specPower elapsedMs.
Proof.
  unfold specPower.
  pose proof (specRemainder_range (elapsedMs / 1500)) as Hr.
  destruct (Qeq_bool (specRemainder (elapsedMs / 1500) 1) 0) eqn:E.
  - apply Qeq_bool_iff in E. split; [ lra | ].
    exists (Qfloor (elapsedMs / 1500 / 1) - 1)%Z.
    unfold specRemainder in E. unfold Zminus. rewrite inject_Z_plus.
    change (inject_Z (- (1))) with (- (1)). lra.
  - apply Qeq_bool_neq in E. split; [ lra | ].
    exists (Qfloor (elapsedMs / 1500 / 1)).
    unfold specRemainder. lra.
Qed.

Lemma displayPowerAfter_spec (elapsedTime : Q) :
  0 < elapsedTime -> displayPowerAfter elapsedTime = specPower elapsedTime.
Proof.
  intro He. unfold displayPowerAfter, specPower, MAX_CHARGE_DURATION_MS.
  assert (Hraw : 0 < elapsedTime / 1500).
  { apply Qlt_shift_div_l; lra. }
  rewrite jsRem_nonneg by lra.
  apply Qltb_true in Hraw. rewrite Hraw, andb_true_r. reflexivity.
Qed.

Lemma finalLaunchPowerAfter_spec (elapsedTime : Q) :
  0 < elapsedTime ->
  finalLaunchPowerAfter elapsedTime
  = Qmax MIN_LAUNCH_POWER (specPower elapsedTime).
Proof.
  intro He. unfold finalLaunchPowerAfter, specPower, MAX_CHARGE_DURATION_MS.
  assert (Hraw : 0 < elapsedTime / 1500).
  { apply Qlt_shift_div_l; lra. }
  rewrite jsRem_nonneg by lra.
  apply Qltb_true in Hraw. rewrite Hraw, andb_true_r. reflexivity.
Qed.

Lemma integer_zero (n : Z) : - (1) < inject_Z n -> inject_Z n < 1 -> n = 0%Z.
Proof.
  intros Hlo Hhi.
  change (- (1)) with (inject_Z (-1)) in Hlo.
  change 1 with (inject_Z 1) in Hhi.
  rewrite <- Zlt_Qlt in Hlo. rewrite <- Zlt_Qlt in Hhi. lia.
Qed.

(** The curve at a raw power [a + k] with [0 < a <= 1] and [k] an integer. *)
Lemma specPower_at (elapsedMs a : Q) (k : Z) :
  0 < a -> a <= 1 -> elapsedMs / 1500 == inject_Z k + a ->
  specPower elapsedMs == a.
Proof.
  intros Ha0 Ha1 E.
  destruct (specPower_sawtooth elapsedMs) as [[Hp0 Hp1] [n Hn]].
  assert (Hd : inject_Z (n - k) == a - specPower elapsedMs).
  { unfold Zminus. rewrite inject_Z_plus, inject_Z_opp. lra. }
  assert (Hz : (n - k)%Z = 0%Z).
  { apply integer_zero; rewrite Hd; lra. }
  rewrite Hz in Hd. change (inject_Z 0) with 0 in Hd. lra.
Qed.

(** C4. While a charge is held for a positive time, the power reported is the
    raw power (elapsed / 1500) modulo 1.0, with 1.0 in place of a zero
    remainder; the power handed over on release is the maximum of that value
    and 0.1.  Holding 750 ms gives 0.5, 1500 ms gives 1.0, 2250 ms gives 0.5
    again, and a tap of at most 150 ms launches with 0.1, never with zero. *)
Theorem charge_power_curve (st : ChargeState) (now : Q)
  (Hcharging : isChargingActive st = true)
  (Hheld : chargeStartTime st < now) :
  let elapsedMs := now - chargeStartTime st in
  exists power final,
    chargeUpdateLoop now st = Some power
    /\ snd (handlePointerUpGlobal now st) = Some final
    /\ power = specPower elapsedMs
    /\ final = Qmax MIN_LAUNCH_POWER power
    /\ 0 < power <= 1
    /\ (exists n : Z, elapsedMs / 1500 == inject_Z n + power)
    /\ 1 # 10 <= final
    /\ (elapsedMs == 750 -> power == 1 # 2)
    /\ (elapsedMs == 1500 -> power == 1)
    /\ (elapsedMs == 2250 -> power == 1 # 2)
    /\ (elapsedMs <= 150 -> final == 1 # 10).
Proof.
  intro elapsedMs.
  assert (He : 0 < elapsedMs) by (unfold elapsedMs; lra).
  exists (displayPowerAfter elapsedMs), (finalLaunchPowerAfter elapsedMs).
  rewrite (finalLaunchPowerAfter_spec _ He), (displayPowerAfter_spec _ He).
  destruct (specPower_sawtooth elapsedMs) as [Hrange Hint].
  unfold chargeUpdateLoop, handlePointerUpGlobal. rewrite Hcharging. simpl.
  fold elapsedMs.
  rewrite (finalLaunchPowerAfter_spec _ He), (displayPowerAfter_spec _ He).
  repeat split; try tauto.
  - apply Q.le_max_l.
  - intro E. apply (specPower_at elapsedMs (1 # 2) 0); try lra.
    rewrite E. reflexivity.
  - intro E. apply (specPower_at elapsedMs 1 0); try lra.
    rewrite E. reflexivity.
  - intro E. apply (specPower_at elapsedMs (1 # 2) 1); try lra.
    rewrite E. reflexivity.
  - intro E. apply Q.max_l.
    assert (Hp : specPower elapsedMs == elapsedMs / 1500).
    { apply (specPower_at elapsedMs (elapsedMs / 1500) 0).
      - apply Qlt_shift_div_l; lra.
      - apply Qle_shift_div_r; lra.
      - change (inject_Z 0) with 0. lra. }
    rewrite Hp. unfold MIN_LAUNCH_POWER. apply Qle_shift_div_r; lra.
Qed.

(** ** The explosion impulse *)

Module ExplosionFacts.

Import Explosion.
Local Open Scope R_scope.

Lemma sumsq_nonneg (a : Vec3) : 0 <= x a * x a + y a * y a + z a * z a.
Proof. nra. Qed.

Lemma length_nonneg (a : Vec3) : 0 <= length a.
Proof. apply sqrt_pos. Qed.

Lemma length_scale (k : R) (a : Vec3) :
  0 <= k -> length (scale k a) = k * length a.
Proof.
  intro Hk. unfold length, scale. simpl.
  replace (k * x a * (k * x a) + k * y a * (k * y a) + k * z a * (k * z a))
    with (k * k * (x a * x a + y a * y a + z a * z a)) by ring.
  rewrite sqrt_mult; [ | nra | apply sumsq_nonneg ].
  now rewrite sqrt_square.
Qed.

Lemma length_zero : length (mkVec3 0 0 0) = 0.
Proof.
  unfold length. simpl.
  replace (0 * 0 + 0 * 0 + 0 * 0) with 0 by ring. apply sqrt_0.
Qed.

Lemma normalize_scale (a : Vec3) :
  0 < length a -> normalize a = scale (1 / length a) a.
Proof.
  intro H. unfold normalize.
  destruct (Rlt_dec 0 (length a)); [ | contradiction ].
  unfold scale. f_equal; ring.
Qed.

Lemma normalize_zero (a : Vec3) :
  length a = 0 -> normalize a = mkVec3 0 0 0.
Proof.
  intro H. unfold normalize. rewrite H.
  destruct (Rlt_dec 0 0); [ lra | reflexivity ].
Qed.

Lemma scale_scale (k l : R) (a : Vec3) : scale k (scale l a) = scale (k * l) a.
Proof. unfold scale. simpl. f_equal; ring. Qed.

Lemma blast_targets (center : Vec3) (r s : R) (i : nat) (b : Body)
  (e : Effect) :
  In e (blast center r s i b) -> targetOf e = StructureBody i.
Proof.
  unfold blast. destruct (Rlt_dec _ r); [ | intros [] ].
  intros [<- | H]; [ reflexivity | ].
  destruct (isSleeping (sleepState b)); [ | destruct H ].
  destruct H as [<- | []]. reflexivity.
Qed.

Lemma effectsOn_all (t : BodyRef) (es : list Effect) :
  (forall e, In e es -> targetOf e = t) -> effectsOn t es = es.
Proof.
  induction es as [| e es IH]; intro H; [ reflexivity | ].
  unfold effectsOn. simpl. rewrite (H e (or_introl eq_refl)).
  assert (E : BodyRef_eqb t t = true).
  { destruct t; simpl; apply Nat.eqb_refl. }
  rewrite E. f_equal. apply IH. intros e' He'. apply H. now right.
Qed.

Lemma effectsOn_none (t : BodyRef) (es : list Effect) :
  (forall e, In e es -> BodyRef_eqb (targetOf e) t = false) ->
  effectsOn t es = [].
Proof.
  induction es as [| e es IH]; intro H; [ reflexivity | ].
  unfold effectsOn. simpl. rewrite (H e (or_introl eq_refl)).
  apply IH. intros e' He'. apply H. now right.
Qed.

Lemma blastAll_targets (center : Vec3) (r s : R) (bodies : list Body) :
  forall start e,
    In e (blastAll center r s start bodies) ->
    exists i, (start <= i)%nat /\ targetOf e = StructureBody i.
Proof.
  induction bodies as [| b rest IH]; intros start e H; [ destruct H | ].
  simpl in H. apply in_app_or in H. destruct H as [H | H].
  - exists start. split; [ lia | ]. eapply blast_targets. exact H.
  - destruct (IH _ _ H) as [i [Hle E]]. exists i. split; [ lia | exact E ].
Qed.

Lemma effectsOn_blastAll (center : Vec3) (r s : R) (bodies : list Body) :
  forall start i b,
    nth_error bodies i = Some b ->
    effectsOn (StructureBody (start + i)) (blastAll center r s start bodies)
    = blast center r s (start + i) b.
Proof.
  induction bodies as [| a rest IH]; intros start i b Hi.
  - destruct i; discriminate.
  - simpl blastAll. unfold effectsOn. rewrite filter_app.
    fold (effectsOn (StructureBody (start + i)) (blast center r s start a)).
    fold (effectsOn (StructureBody (start + i))
            (blastAll center r s (S start) rest)).
    destruct i as [| i]; simpl in Hi.
    + injection Hi as ->. rewrite Nat.add_0_r.
      rewrite effectsOn_all by (intros e He; eapply blast_targets; exact He).
      rewrite effectsOn_none; [ apply app_nil_r | ].
      intros e He. destruct (blastAll_targets _ _ _ _ _ _ He) as [j [Hj ->]].
      simpl. apply Nat.eqb_neq. lia.
    + rewrite effectsOn_none.
      * replace (start + S i)%nat with (S start + i)%nat by lia.
        now apply IH.
      * intros e He. rewrite (blast_targets _ _ _ _ _ _ He). simpl.
        apply Nat.eqb_neq. lia.
Qed.

Lemma effectsOn_handleExplosion (center : Vec3) (r s : R) (w : World)
  (i : nat) (b : Body) :
  mounted w = true ->
  nth_error (physicsObjects w) i = Some b ->
  effectsOn (StructureBody i) (handleExplosion center r s w)
  = blast center r s i b.
Proof.
  intros M Hi. unfold handleExplosion. rewrite M.
  exact (effectsOn_blastAll center r s (physicsObjects w) 0 i b Hi).
Qed.

Lemma projectiles_untouched (center : Vec3) (r s : R) (w : World) (j : nat) :
  effectsOn (ProjectileBody j) (handleExplosion center r s w) = [].
Proof.
  unfold handleExplosion. destruct (mounted w); [ | reflexivity ].
  apply effectsOn_none. intros e He.
  destruct (blastAll_targets _ _ _ _ _ _ He) as [i [_ ->]]. reflexivity.
Qed.

Lemma impulsesOn_effectsOn (t : BodyRef) (es : list Effect) :
  impulsesOn t es = impulsesOn t (effectsOn t es).
Proof.
  induction es as [| e es IH]; [ reflexivity | ].
  unfold effectsOn. destruct e as [t' imp pt | t']; simpl.
  - destruct (BodyRef_eqb t' t) eqn:E; simpl; [ rewrite E; f_equal | ];
      exact IH.
  - destruct (BodyRef_eqb t' t) eqn:E; simpl; exact IH.
Qed.

Lemma ratio_below_one (d r : R) : 0 <= d -> d < r -> 0 <= d / r < 1.
Proof.
  intros Hd Hr.
  assert (Hr0 : 0 < r) by lra.
  assert (Hinv : 0 < / r) by now apply Rinv_0_lt_compat.
  split.
  - unfold Rdiv. apply Rmult_le_pos; lra.
  - apply (Rmult_lt_reg_r r); [ exact Hr0 | ].
    unfold Rdiv. rewrite Rmult_assoc, Rinv_l by lra. lra.
Qed.

(** C5, as the code has it.  An explosion at [center] with radius [r] and
    strength [s] gives every structure body at a distance [d] with
    [0 < d < r] one impulse, directed away from the centre, of magnitude
    [s * (1 - d / r)] (half the strength at half the radius); a structure body
    at the centre itself is handed the zero impulse; a structure body at
    distance [d >= r] receives nothing; a sleeping structure body inside the
    radius is woken; the bodies of projectiles receive nothing. *)
Theorem explosion_impulse (center : Vec3) (r s : R) (w : World) (i : nat)
  (b : Body)
  (Hmounted : mounted w = true)
  (Hbody : nth_error (physicsObjects w) i = Some b) :
  let away := vsub (position b) center in
  let d := length away in
  let effects := handleExplosion center r s w in
  (0 < d -> d < r ->
     impulsesOn (StructureBody i) effects
     = [scale (s * (1 - d / r) / d) away]
     /\ (0 <= s ->
         0 <= s * (1 - d / r) / d
         /\ length (scale (s * (1 - d / r) / d) away) = s * (1 - d / r)
         /\ (d = r / 2 ->
             length (scale (s * (1 - d / r) / d) away) = s * (1 / 2))))
  /\ (d = 0 -> 0 < r ->
      impulsesOn (StructureBody i) effects = [mkVec3 0 0 0])
  /\ (r <= d -> effectsOn (StructureBody i) effects = [])
  /\ (d < r -> sleepState b = SLEEPING ->
      In (WakeUp (StructureBody i)) effects)
  /\ (forall j, effectsOn (ProjectileBody j) effects = []).
Proof.
  intros away d effects.
  assert (Hon : effectsOn (StructureBody i) effects = blast center r s i b).
  { now apply effectsOn_handleExplosion. }
  assert (Hd0 : 0 <= d) by apply length_nonneg.
  repeat split.
  - unfold effects. rewrite impulsesOn_effectsOn.
    fold effects. rewrite Hon. unfold blast. fold away. fold d.
    destruct (Rlt_dec d r); [ | contradiction ].
    destruct (ratio_below_one d r Hd0 H0) as [Hq0 Hq1].
    rewrite Rmax_right by lra.
    rewrite normalize_scale by exact H. fold d. rewrite scale_scale.
    replace (s * (1 - d / r) * (1 / d)) with (s * (1 - d / r) / d)
      by (field; lra).
    simpl. rewrite Nat.eqb_refl.
    destruct (isSleeping (sleepState b)); reflexivity.
  - destruct (ratio_below_one d r Hd0 H0) as [Hq0 Hq1].
    unfold Rdiv at 1. apply Rmult_le_pos.
    + apply Rmult_le_pos; lra.
    + left. now apply Rinv_0_lt_compat.
  - destruct (ratio_below_one d r Hd0 H0) as [Hq0 Hq1].
    rewrite length_scale.
    + fold d. field. lra.
    + unfold Rdiv at 1. apply Rmult_le_pos.
      * apply Rmult_le_pos; lra.
      * left. now apply Rinv_0_lt_compat.
  - intro Hhalf. destruct (ratio_below_one d r Hd0 H0) as [Hq0 Hq1].
    rewrite length_scale.
    + fold d. rewrite Hhalf at 1 2 3. field. lra.
    + unfold Rdiv at 1. apply Rmult_le_pos.
      * apply Rmult_le_pos; lra.
      * left. now apply Rinv_0_lt_compat.
  - intros Hz Hr. unfold effects. rewrite impulsesOn_effectsOn.
    fold effects. rewrite Hon. unfold blast. fold away. fold d.
    destruct (Rlt_dec d r); [ | lra ].
    rewrite normalize_zero by exact Hz.
    unfold scale. simpl. rewrite Nat.eqb_refl, !Rmult_0_r.
    destruct (isSleeping (sleepState b)); reflexivity.
  - intro Hfar. rewrite Hon. unfold blast. fold away. fold d.
    destruct (Rlt_dec d r); [ lra | reflexivity ].
  - intros Hnear Hsleep.
    assert (Hin : In (WakeUp (StructureBody i))
                     (effectsOn (StructureBody i) effects)).
    { rewrite Hon. unfold blast. fold away. fold d.
      destruct (Rlt_dec d r); [ | contradiction ].
      rewrite Hsleep. simpl. right. now left. }
    unfold effectsOn in Hin. apply filter_In in Hin. tauto.
  - intro j. apply projectiles_untouched.
Qed.

(** C5 as it is stated fails on the code: a projectile body inside the radius
    receives no impulse at all, and a structure body at distance zero is handed
    the zero vector, whose magnitude is not the strength. *)
Lemma explosion_counterexample :
  let effects := handleExplosion center0 (35 / 10) (36 / 10) crowdedWorld in
  length (vsub (mkVec3 1 0 0) center0) < 35 / 10
  /\ effectsOn (ProjectileBody 0) effects = []
  /\ length (vsub (mkVec3 0 0 0) center0) = 0
  /\ impulsesOn (StructureBody 0) effects = [mkVec3 0 0 0]
  /\ length (mkVec3 0 0 0) <> 36 / 10.
Proof.
  intro effects.
  assert (Hc : vsub (mkVec3 0 0 0) center0 = mkVec3 0 0 0).
  { unfold vsub, center0. simpl. f_equal; ring. }
  assert (Hp : length (vsub (mkVec3 1 0 0) center0) = 1).
  { unfold length, vsub, center0. simpl.
    replace ((1 - 0) * (1 - 0) + (0 - 0) * (0 - 0) + (0 - 0) * (0 - 0))
      with (1 * 1) by ring.
    apply sqrt_square. lra. }
  repeat split.
  - rewrite Hp. lra.
  - apply projectiles_untouched.
  - rewrite Hc. apply length_zero.
  - unfold effects, handleExplosion, crowdedWorld. simpl. unfold blast. simpl.
    rewrite Hc, length_zero.
    destruct (Rlt_dec 0 (35 / 10)); [ | lra ].
    rewrite normalize_zero by apply length_zero.
    unfold scale. simpl. rewrite !Rmult_0_r. reflexivity.
  - rewrite length_zero. lra.
Qed.

End ExplosionFacts.

(** ** The projectile sweep *)

Lemma onCollideExplosive_fields (blocks : list PhysicsObject)
  (p : PhysicsObject) (e : CollideEvent) :
  let p' := fst (onCollideExplosive blocks p e) in
  id p' = id p /\ projectileType p' = projectileType p
  /\ lifeSpan p' = lifeSpan p /\ creationTime p' = creationTime p
  /\ isSubmunition p' = isSubmunition p
  /\ onCollideHandler p' = onCollideHandler p /\ body p' = body p.
Proof.
  unfold onCollideExplosive.
  destruct (truthyB (hasSplit p)); [ now repeat split | ].
  destruct (contact e) as [ct |]; [ | now repeat split ].
  destruct (_ && _); now repeat split.
Qed.

Lemma dispatchCollide_fields (blocks : list PhysicsObject)
  (events : list CollideEvent) :
  forall p,
    let p' := fst (dispatchCollide blocks p events) in
    id p' = id p /\ projectileType p' = projectileType p
    /\ lifeSpan p' = lifeSpan p /\ creationTime p' = creationTime p
    /\ isSubmunition p' = isSubmunition p
    /\ onCollideHandler p' = onCollideHandler p /\ body p' = body p.
Proof.
  induction events as [| e rest IH]; intro p; [ now repeat split | ].
  simpl.
  pose proof (onCollideExplosive_fields blocks p e) as H1.
  destruct (onCollideExplosive blocks p e) as [p1 x1]. simpl in H1.
  pose proof (IH p1) as H2.
  destruct (dispatchCollide blocks p1 rest) as [p2 x2]. simpl in H2 |- *.
  destruct H1 as (? & ? & ? & ? & ? & ? & ?).
  destruct H2 as (? & ? & ? & ? & ? & ? & ?).
  repeat split; congruence.
Qed.

Lemma stepProjectile_fields (blocks : list PhysicsObject) (o : StepOutcome)
  (j : nat) (p : PhysicsObject) :
  let p' := fst (stepProjectile blocks o j p) in
  id p' = id p /\ projectileType p' = projectileType p
  /\ lifeSpan p' = lifeSpan p /\ creationTime p' = creationTime p
  /\ isSubmunition p' = isSubmunition p
  /\ onCollideHandler p' = onCollideHandler p
  /\ body p' = setKinematics (body p) (projectileKinematics o j)
  /\ (onCollideHandler p = false -> hasSplit p' = hasSplit p).
Proof.
  unfold stepProjectile.
  destruct (onCollideHandler p) eqn:Hh.
  - pose proof (dispatchCollide_fields blocks (collideEvents o j) p) as H.
    destruct (dispatchCollide blocks p (collideEvents o j)) as [p1 xs].
    simpl in H |- *. destruct H as (? & ? & ? & ? & ? & ? & Hb).
    rewrite Hb. repeat split; try assumption. congruence. discriminate.
  - simpl. now repeat split.
Qed.

Lemma stepProjectiles_cons (blocks : list PhysicsObject) (o : StepOutcome)
  (j : nat) (p : PhysicsObject) (rest : list PhysicsObject) :
  fst (stepProjectiles blocks o j (p :: rest))
  = fst (stepProjectile blocks o j p)
    :: fst (stepProjectiles blocks o (S j) rest).
Proof.
  simpl. destruct (stepProjectile blocks o j p).
  destruct (stepProjectiles blocks o (S j) rest). reflexivity.
Qed.

Lemma stepProjectiles_nth (blocks : list PhysicsObject) (o : StepOutcome)
  (ps : list PhysicsObject) :
  forall start j,
    nth_error (fst (stepProjectiles blocks o start ps)) j
    = option_map (fun p => fst (stepProjectile blocks o (start + j) p))
        (nth_error ps j).
Proof.
  induction ps as [| p rest IH]; intros start j.
  - destruct j; reflexivity.
  - rewrite stepProjectiles_cons. destruct j as [| j]; simpl.
    + now rewrite Nat.add_0_r.
    + rewrite IH. now rewrite Nat.add_succ_r.
Qed.

Lemma sweepProjectiles_nth (now : Q) (dirs : nat -> nat -> Vec3)
  (ps : list PhysicsObject) :
  forall start j,
    nth_error (sweepProjectiles now dirs start ps) j
    = option_map (fun p => sweepProjectile now (dirs (start + j)%nat) p)
        (nth_error ps j).
Proof.
  induction ps as [| p rest IH]; intros start j.
  - destruct j; reflexivity.
  - destruct j as [| j]; simpl.
    + now rewrite Nat.add_0_r.
    + rewrite IH. now rewrite Nat.add_succ_r.
Qed.

Lemma animate_sweep (inp : FrameInput) (c : Canvas) :
  mounted c = true ->
  sweep (snd (animate inp c))
  = sweepProjectiles (currentTime inp) (spreadDirection inp) 0
      (fst (stepProjectiles (physicsObjects c) (outcomeOf inp c) 0
              (projectiles c))).
Proof.
  intro M. unfold animate, outcomeOf. rewrite M.
  destruct (stepProjectiles _ _ _ _), (detectFalls _). reflexivity.
Qed.

Lemma animate_sweep_unmounted (inp : FrameInput) (c : Canvas) :
  mounted c = false -> sweep (snd (animate inp c)) = [].
Proof. intro M. unfold animate. now rewrite M. Qed.

Lemma animate_projectiles (inp : FrameInput) (c : Canvas) :
  mounted c = true ->
  projectiles (fst (animate inp c))
  = keptProjectiles (sweep (snd (animate inp c)))
    ++ newSubmunitions (sweep (snd (animate inp c))).
Proof.
  intro M. unfold animate. rewrite M.
  destruct (stepProjectiles _ _ _ _), (detectFalls _). reflexivity.
Qed.

Lemma animate_projectiles_unmounted (inp : FrameInput) (c : Canvas) :
  mounted c = false -> projectiles (fst (animate inp c)) = projectiles c.
Proof. intro M. unfold animate. now rewrite M. Qed.

(** The sweep result of the projectile with index [j]. *)
Lemma animate_sweep_nth (inp : FrameInput) (c : Canvas) (j : nat) :
  mounted c = true ->
  nth_error (sweep (snd (animate inp c))) j
  = option_map
      (fun p =>
         sweepProjectile (currentTime inp) (spreadDirection inp j)
           (fst (stepProjectile (physicsObjects c) (outcomeOf inp c) j p)))
      (nth_error (projectiles c) j).
Proof.
  intro M. rewrite (animate_sweep inp c M), sweepProjectiles_nth.
  rewrite stepProjectiles_nth. simpl.
  now destruct (nth_error (projectiles c) j).
Qed.

Lemma transition_fields (now : Q) (dirs : nat -> Vec3) (p : PhysicsObject) :
  let p' := fst (fst (transition now dirs p)) in
  id p' = id p /\ projectileType p' = projectileType p
  /\ isSubmunition p' = isSubmunition p /\ body p' = body p.
Proof.
  unfold transition.
  destruct (isType EXPLOSIVE p && negb (truthyB (hasSplit p))).
  - destruct (_ || _); now repeat split.
  - destruct (_ && _ && _); now repeat split.
Qed.

Lemma sweepProjectile_swept (now : Q) (dirs : nat -> Vec3)
  (p : PhysicsObject) :
  swept (sweepProjectile now dirs p) = fst (fst (transition now dirs p)).
Proof.
  unfold sweepProjectile. now destruct (transition now dirs p) as [[p1 s] x].
Qed.

Lemma sweepProjectile_spawned (now : Q) (dirs : nat -> Vec3)
  (p : PhysicsObject) :
  spawned (sweepProjectile now dirs p) = snd (fst (transition now dirs p)).
Proof.
  unfold sweepProjectile. now destruct (transition now dirs p) as [[p1 s] x].
Qed.

Lemma sweepProjectile_removed (now : Q) (dirs : nat -> Vec3)
  (p : PhysicsObject) :
  shouldRemove (sweepProjectile now dirs p)
  = removalCheck (expiredAt now p) (fst (fst (transition now dirs p))).
Proof.
  unfold sweepProjectile. now destruct (transition now dirs p) as [[p1 s] x].
Qed.

Lemma no_spawn_unless_cluster (now : Q) (dirs : nat -> Vec3)
  (p : PhysicsObject) :
  isType CLUSTER p = false -> spawned (sweepProjectile now dirs p) = [].
Proof.
  intro H. rewrite sweepProjectile_spawned. unfold transition. rewrite H.
  simpl. destruct (isType EXPLOSIVE p && negb (truthyB (hasSplit p)));
    [ destruct (_ || _) | ]; reflexivity.
Qed.

Lemma spawned_are_standard (now : Q) (dirs : nat -> Vec3)
  (p sub : PhysicsObject) :
  In sub (spawned (sweepProjectile now dirs p)) ->
  projectileType sub = Some STANDARD /\ isSubmunition sub = Some true.
Proof.
  rewrite sweepProjectile_spawned. unfold transition.
  destruct (isType EXPLOSIVE p && negb (truthyB (hasSplit p))).
  - destruct (_ || _); intros [].
  - destruct (_ && _ && _); [ | intros [] ].
    cbn [fst snd]. rewrite in_map_iff. intros [i [<- _]]. split; reflexivity.
Qed.

Lemma expiredAt_cluster (now t0 : Q) (p : PhysicsObject) :
  launchedCluster t0 p -> 0 < t0 -> t0 + CLUSTER_SPLIT_DELAY_MS < now ->
  expiredAt now p = true.
Proof.
  intros (_ & _ & Hl & Hc & _) Ht0 Hexp. unfold expiredAt.
  rewrite Hl, Hc. simpl truthyN.
  assert (E : Qeq_bool t0 0 = false).
  { apply not_true_iff_false. rewrite Qeq_bool_iff. lra. }
  rewrite E. simpl. apply Qltb_true. lra.
Qed.

(** What the loop body does with an expired cluster projectile. *)
Lemma transition_cluster (now t0 : Q) (dirs : nat -> Vec3)
  (p : PhysicsObject) :
  launchedCluster t0 p -> 0 < t0 -> t0 + CLUSTER_SPLIT_DELAY_MS < now ->
  transition now dirs p
  = (setHasSplit p true,
     map (fun i => makeSubmunition p now (dirs i) i) (seq 0 SUBMUNITION_COUNT),
     []).
Proof.
  intros Hcl Ht0 Hexp. unfold transition.
  rewrite (expiredAt_cluster now t0 p Hcl Ht0 Hexp).
  destruct Hcl as (Ht & Hs & _). unfold isType. rewrite Ht, Hs. reflexivity.
Qed.

Lemma removalCheck_split (expired : bool) (p : PhysicsObject) :
  removalCheck expired (setHasSplit p true) = true.
Proof.
  unfold removalCheck. simpl.
  now destruct (Qltb (vy (position (body p))) (-10)).
Qed.

Lemma stepProjectile_cluster (blocks : list PhysicsObject) (o : StepOutcome)
  (j : nat) (t0 : Q) (p : PhysicsObject) :
  launchedCluster t0 p ->
  launchedCluster t0 (fst (stepProjectile blocks o j p)).
Proof.
  intros (Ht & Hs & Hl & Hc & Hsub & Hh).
  destruct (stepProjectile_fields blocks o j p)
    as (_ & Ht' & Hl' & Hc' & Hsub' & Hh' & _ & Hs').
  unfold launchedCluster.
  rewrite Ht', Hl', Hc', Hsub', Hh', (Hs' Hh). now repeat split.
Qed.

Lemma newProjectile_cluster (launchPower : Q) (li : LaunchInput) :
  launchedCluster (launchTime li) (newProjectile launchPower CLUSTER li).
Proof. unfold launchedCluster. now repeat split. Qed.

Lemma filter_unique {A : Type} (f : A -> bool) (l : list A) :
  forall i x,
    nth_error l i = Some x -> f x = true ->
    (forall j y, nth_error l j = Some y -> f y = true -> j = i) ->
    filter f l = [x].
Proof.
  induction l as [| a l IH]; intros i x Hi Hx Huniq.
  - destruct i; discriminate.
  - destruct i as [| i]; simpl in Hi.
    + injection Hi as ->. simpl. rewrite Hx. f_equal.
      destruct (filter f l) as [| y rest] eqn:E; [ reflexivity | ].
      assert (Hy : In y (filter f l)) by (rewrite E; now left).
      apply filter_In in Hy. destruct Hy as [Hin Fy].
      destruct (In_nth_error _ _ Hin) as [j Hj].
      specialize (Huniq (S j) y Hj Fy). discriminate.
    + simpl. destruct (f a) eqn:Fa.
      * specialize (Huniq 0%nat a eq_refl Fa). discriminate.
      * apply (IH i x Hi Hx). intros j y Hj Hy.
        specialize (Huniq (S j) y Hj Hy). now injection Huniq.
Qed.

Lemma concat_all_nil {A B : Type} (f : A -> list B) (l : list A) :
  (forall x, In x l -> f x = []) -> List.concat (map f l) = [].
Proof.
  induction l as [| a l IH]; intro H; [ reflexivity | ].
  simpl. rewrite (H a (or_introl eq_refl)). apply IH.
  intros x Hx. apply H. now right.
Qed.

(** Every sweep result of a frame comes from a projectile of the canvas. *)
Lemma animate_sweep_source (inp : FrameInput) (c : Canvas) (r : SweepResult) :
  In r (sweep (snd (animate inp c))) ->
  exists j p,
    nth_error (projectiles c) j = Some p
    /\ r = sweepProjectile (currentTime inp) (spreadDirection inp j)
             (fst (stepProjectile (physicsObjects c) (outcomeOf inp c) j p)).
Proof.
  destruct (mounted c) eqn:M.
  - intro H. destruct (In_nth_error _ _ H) as [j Hj].
    rewrite (animate_sweep_nth inp c j M) in Hj.
    destruct (nth_error (projectiles c) j) as [p |] eqn:E; [ | discriminate ].
    exists j, p. split; [ exact E | ]. simpl in Hj. congruence.
  - rewrite (animate_sweep_unmounted inp c M). intros [].
Qed.

Lemma swept_source (inp : FrameInput) (c : Canvas) (j : nat)
  (p : PhysicsObject) :
  let r := sweepProjectile (currentTime inp) (spreadDirection inp j)
             (fst (stepProjectile (physicsObjects c) (outcomeOf inp c) j p)) in
  id (swept r) = id p /\ projectileType (swept r) = projectileType p.
Proof.
  intro r. unfold r. rewrite sweepProjectile_swept.
  destruct (transition_fields (currentTime inp) (spreadDirection inp j)
              (fst (stepProjectile (physicsObjects c) (outcomeOf inp c) j p)))
    as (Hid & Ht & _).
  destruct (stepProjectile_fields (physicsObjects c) (outcomeOf inp c) j p)
    as (Hid' & Ht' & _).
  split; congruence.
Qed.

Lemma isType_eq (t : ProjectileType) (p q : PhysicsObject) :
  projectileType p = projectileType q -> isType t p = isType t q.
Proof. unfold isType. now intros ->. Qed.

Lemma animate_noCluster (ident : string) (inp : FrameInput) (c : Canvas) :
  noClusterNamed ident (projectiles c) ->
  noClusterNamed ident (projectiles (fst (animate inp c)))
  /\ spawnedBy ident (snd (animate inp c)) = [].
Proof.
  intro Hinv. destruct (mounted c) eqn:M.
  - split.
    + intros q Hq Hid. rewrite (animate_projectiles inp c M) in Hq.
      apply in_app_or in Hq. destruct Hq as [Hq | Hq].
      * unfold keptProjectiles in Hq. apply in_map_iff in Hq.
        destruct Hq as [r [<- Hr]]. apply filter_In in Hr.
        destruct Hr as [Hr _].
        destruct (animate_sweep_source inp c r Hr) as [j [p [Hj ->]]].
        destruct (swept_source inp c j p) as [Hi Ht].
        rewrite (isType_eq CLUSTER _ p Ht).
        apply Hinv; [ eapply nth_error_In; exact Hj | congruence ].
      * unfold newSubmunitions in Hq. apply in_concat in Hq.
        destruct Hq as [subs [Hsubs Hq]]. apply in_map_iff in Hsubs.
        destruct Hsubs as [r [<- Hr]].
        destruct (animate_sweep_source inp c r Hr) as [j [p [Hj ->]]].
        apply spawned_are_standard in Hq. unfold isType.
        now rewrite (proj1 Hq).
    + unfold spawnedBy. apply concat_all_nil. intros r Hr.
      apply filter_In in Hr. destruct Hr as [Hr Hname].
      apply String.eqb_eq in Hname.
      destruct (animate_sweep_source inp c r Hr) as [j [p [Hj ->]]].
      destruct (swept_source inp c j p) as [Hi Ht].
      apply no_spawn_unless_cluster.
      destruct (stepProjectile_fields (physicsObjects c) (outcomeOf inp c) j p)
        as (_ & Ht' & _).
      rewrite (isType_eq CLUSTER _ p Ht').
      apply Hinv; [ eapply nth_error_In; exact Hj | congruence ].
  - split.
    + now rewrite (animate_projectiles_unmounted inp c M).
    + unfold spawnedBy. now rewrite (animate_sweep_unmounted inp c M).
Qed.

Lemma launch_noCluster (ident : string) (pw : Q) (t : ProjectileType)
  (li : LaunchInput) (c : Canvas) :
  String.eqb (id (newProjectile pw t li)) ident = false ->
  noClusterNamed ident (projectiles c) ->
  noClusterNamed ident (projectiles (launchProjectile pw t li c)).
Proof.
  intros Hfresh Hinv. unfold launchProjectile.
  destruct (mounted c); [ | exact Hinv ].
  intros q Hq Hid. simpl in Hq. apply in_app_or in Hq.
  destruct Hq as [Hq | [<- | []]].
  - now apply Hinv.
  - apply String.eqb_neq in Hfresh. contradiction.
Qed.

(** Once no cluster projectile carries the name, no later action of the
    session spawns a submunition under it. *)
Lemma run_noCluster (ident : string) (later : list Action) :
  forall c,
    noClusterNamed ident (projectiles c) ->
    launchesAvoid ident later = true ->
    forall k, spawnedByAt k ident (snd (run later c)) = [].
Proof.
  induction later as [| a rest IH]; intros c Hinv Hfresh k.
  - unfold spawnedByAt. simpl. now destruct k.
  - rewrite run_cons. simpl snd. simpl in Hfresh.
    apply andb_true_iff in Hfresh. destruct Hfresh as [Ha Hrest].
    assert (Hstep : noClusterNamed ident (projectiles (fst (perform a c)))
                    /\ spawnedBy ident (snd (perform a c)) = []).
    { destruct a as [inp | pw t li]; cbn [perform fst snd].
      - now apply animate_noCluster.
      - split; [ | reflexivity ].
        apply launch_noCluster; [ | exact Hinv ].
        now apply negb_true_iff. }
    destruct Hstep as [Hinv1 Hnone].
    unfold spawnedByAt. destruct k as [| k]; cbn [nth_error].
    + exact Hnone.
    + fold (spawnedByAt k ident (snd (run rest (fst (perform a c))))).
      now apply IH.
Qed.

Lemma lengthSquared_vscale (k : Q) (a : Vec3) :
  lengthSquared (vscale k a) == k * k * lengthSquared a.
Proof. unfold lengthSquared, vscale. simpl. ring. Qed.

(** C6. In the frame in which the split delay of a launched cluster projectile
    has run out, the sweep spawns exactly five submunitions from it; each
    starts with the velocity of the parent plus the spread impulse (three
    times a random direction, so of magnitude three for a unit direction)
    divided by its mass; the parent is pushed to the removal list in that same
    sweep, so no cluster projectile of that name is left; and no later action
    of the session spawns a submunition from it again. *)
Theorem cluster_splits_once (c : Canvas) (inp : FrameInput)
  (later : list Action) (j : nat) (p : PhysicsObject) (t0 : Q)
  (Hmounted : mounted c = true)
  (Hp : nth_error (projectiles c) j = Some p)
  (Hcluster : launchedCluster t0 p)
  (Ht0 : 0 < t0)
  (Hexpired : t0 + CLUSTER_SPLIT_DELAY_MS < currentTime inp)
  (Hunique : forall j' q, nth_error (projectiles c) j' = Some q ->
                          id q = id p -> j' = j)
  (Hfresh : launchesAvoid (id p) later = true) :
  let c1 := fst (animate inp c) in
  let out := snd (animate inp c) in
  let parentVelocity := kVelocity (projectileKinematics (outcomeOf inp c) j) in
  List.length (spawnedBy (id p) out) = SUBMUNITION_COUNT
  /\ (forall i, (i < SUBMUNITION_COUNT)%nat ->
        exists sub,
          nth_error (spawnedBy (id p) out) i = Some sub
          /\ id sub = ("sub_" ++ id p ++ "_" ++ decimal i)%string
          /\ velocity (body sub)
             = vadd parentVelocity
                 (vscale (/ SUBMUNITION_MASS)
                    (vscale SUBMUNITION_SPREAD_IMPULSE
                       (spreadDirection inp j i)))
          /\ (lengthSquared (spreadDirection inp j i) == 1 ->
              lengthSquared
                (vscale SUBMUNITION_SPREAD_IMPULSE (spreadDirection inp j i))
              == SUBMUNITION_SPREAD_IMPULSE * SUBMUNITION_SPREAD_IMPULSE)
          /\ In sub (projectiles c1))
  /\ (exists r, nth_error (sweep out) j = Some r /\ shouldRemove r = true)
  /\ noClusterNamed (id p) (projectiles c1)
  /\ (forall k, spawnedByAt k (id p) (snd (run later c1)) = []).
Proof.
  intros c1 out parentVelocity.
  set (now := currentTime inp).
  set (p1 := fst (stepProjectile (physicsObjects c) (outcomeOf inp c) j p)).
  set (rj := sweepProjectile now (spreadDirection inp j) p1).
  assert (Hcl1 : launchedCluster t0 p1) by now apply stepProjectile_cluster.
  assert (Hr : nth_error (sweep out) j = Some rj).
  { unfold out. rewrite (animate_sweep_nth inp c j Hmounted), Hp. reflexivity. }
  assert (Htr : transition now (spreadDirection inp j) p1
                = (setHasSplit p1 true,
                   map (fun i => makeSubmunition p1 now (spreadDirection inp j i) i)
                       (seq 0 SUBMUNITION_COUNT), [])).
  { now apply (transition_cluster now t0). }
  destruct (stepProjectile_fields (physicsObjects c) (outcomeOf inp c) j p)
    as (Hid1 & _ & _ & _ & _ & _ & Hbody1 & _).
  fold p1 in Hid1, Hbody1.
  assert (Hname : forall j' r',
             nth_error (sweep out) j' = Some r' ->
             String.eqb (id (swept r')) (id p) = true -> j' = j).
  { intros j' r' Hj' Hn. unfold out in Hj'.
    rewrite (animate_sweep_nth inp c j' Hmounted) in Hj'.
    destruct (nth_error (projectiles c) j') as [q |] eqn:Eq; [ | discriminate ].
    simpl in Hj'. injection Hj' as <-.
    destruct (swept_source inp c j' q) as [Hi _].
    apply String.eqb_eq in Hn. apply (Hunique j' q Eq). congruence. }
  assert (Hrj_id : id (swept rj) = id p).
  { unfold rj. rewrite sweepProjectile_swept, Htr. simpl. exact Hid1. }
  assert (Hspawn : spawnedBy (id p) out
                   = map (fun i => makeSubmunition p1 now
                                     (spreadDirection inp j i) i)
                       (seq 0 SUBMUNITION_COUNT)).
  { unfold spawnedBy.
    rewrite (filter_unique _ (sweep out) j rj Hr).
    - simpl. rewrite app_nil_r. unfold rj.
      now rewrite sweepProjectile_spawned, Htr.
    - rewrite Hrj_id. apply String.eqb_refl.
    - exact Hname. }
  assert (Hremoved : shouldRemove rj = true).
  { unfold rj. rewrite sweepProjectile_removed, Htr. simpl fst.
    apply removalCheck_split. }
  assert (Hproj : projectiles c1
                  = keptProjectiles (sweep out) ++ newSubmunitions (sweep out)).
  { unfold c1, out. now apply animate_projectiles. }
  assert (Hgone : noClusterNamed (id p) (projectiles c1)).
  { intros q Hq Hidq. rewrite Hproj in Hq. apply in_app_or in Hq.
    destruct Hq as [Hq | Hq].
    - unfold keptProjectiles in Hq. apply in_map_iff in Hq.
      destruct Hq as [r [<- Hrin]]. apply filter_In in Hrin.
      destruct Hrin as [Hrin Hkeep].
      destruct (In_nth_error _ _ Hrin) as [j' Hj'].
      assert (j' = j).
      { apply (Hname j' r Hj'). rewrite Hidq. apply String.eqb_refl. }
      subst j'. rewrite Hr in Hj'. injection Hj' as <-.
      rewrite Hremoved in Hkeep. discriminate.
    - unfold newSubmunitions in Hq. apply in_concat in Hq.
      destruct Hq as [subs [Hsubs Hq]]. apply in_map_iff in Hsubs.
      destruct Hsubs as [r [<- Hrin]].
      destruct (animate_sweep_source inp c r Hrin) as [j' [q' [_ ->]]].
      apply spawned_are_standard in Hq. unfold isType.
      now rewrite (proj1 Hq). }
  repeat split.
  - rewrite Hspawn, length_map, length_seq. reflexivity.
  - intros i Hi.
    exists (makeSubmunition p1 now (spreadDirection inp j i) i).
    assert (Hnth : nth_error (spawnedBy (id p) out) i
                   = Some (makeSubmunition p1 now (spreadDirection inp j i) i)).
    { rewrite Hspawn. unfold SUBMUNITION_COUNT in *.
      do 5 (destruct i as [| i]; [ reflexivity | ]). lia. }
    repeat split.
    + exact Hnth.
    + simpl. now rewrite Hid1.
    + simpl. rewrite Hbody1. reflexivity.
    + intro Hunit. rewrite lengthSquared_vscale, Hunit. ring.
    + rewrite Hproj. apply in_or_app. right.
      unfold newSubmunitions. apply in_concat.
      exists (spawned rj). split.
      * apply in_map. eapply nth_error_In. exact Hr.
      * unfold rj. rewrite sweepProjectile_spawned, Htr. cbn [fst snd].
        rewrite <- Hspawn. eapply nth_error_In. exact Hnth.
  - exists rj. split; assumption.
  - exact Hgone.
  - now apply run_noCluster.
Qed.

Lemma stepProjectiles_length (blocks : list PhysicsObject) (o : StepOutcome)
  (ps : list PhysicsObject) :
  forall start,
    List.length (fst (stepProjectiles blocks o start ps)) = List.length ps.
Proof.
  induction ps as [| p rest IH]; intro start; [ reflexivity | ].
  rewrite stepProjectiles_cons. simpl. now rewrite IH.
Qed.

Lemma sweepProjectiles_length (now : Q) (dirs : nat -> nat -> Vec3)
  (ps : list PhysicsObject) :
  forall start,
    List.length (sweepProjectiles now dirs start ps) = List.length ps.
Proof.
  induction ps as [| p rest IH]; intro start; [ reflexivity | ].
  simpl. now rewrite IH.
Qed.

(** C8. The submunitions a frame spawns join the active projectiles after the
    removal sweep of that frame: the sweep looks at exactly the projectiles
    that were there before the frame, the list afterwards is what the sweep
    kept followed by the new submunitions, and so every submunition is still
    there when the frame in which it was spawned ends. *)
Theorem submunitions_outlive_their_frame (inp : FrameInput) (c : Canvas)
  (sub : PhysicsObject)
  (Hsub : In sub (newSubmunitions (sweep (snd (animate inp c))))) :
  let rs := sweep (snd (animate inp c)) in
  List.length rs = List.length (projectiles c)
  /\ projectiles (fst (animate inp c))
     = keptProjectiles rs ++ newSubmunitions rs
  /\ In sub (projectiles (fst (animate inp c))).
Proof.
  intro rs. destruct (mounted c) eqn:M.
  - assert (Hproj := animate_projectiles inp c M). fold rs in Hproj.
    repeat split.
    + unfold rs. rewrite (animate_sweep inp c M).
      now rewrite sweepProjectiles_length, stepProjectiles_length.
    + exact Hproj.
    + rewrite Hproj. apply in_or_app. now right.
  - rewrite (animate_sweep_unmounted inp c M) in Hsub. destruct Hsub.
Qed.




(** * The properties at work on the sample sessions *)

Lemma towerCanvas_ids : NoDup (map id (physicsObjects towerCanvas)).
Proof.
  simpl. repeat constructor; simpl; intuition discriminate.
Defined.

(** The golden block of the tower falls in the third action of the sample
    session, and there its event fires. *)
Lemma block_fallen_event_once_witness :
  NoDup (map id (physicsObjects towerCanvas))
  /\ nth_error (physicsObjects towerCanvas) 3 = Some crown
  /\ firstFallStep towerSession towerCanvas 3 = Some 2%nat
  /\ (forall k,
         countEvents (id crown) (eventsAt k (snd (run towerSession towerCanvas)))
         = if negb (isFallen crown)
              && isStep (firstFallStep towerSession towerCanvas 3) k
           then 1%nat else 0%nat)
  /\ eventsAt 2 (snd (run towerSession towerCanvas)) = [("crown"%string, true)].
Proof.
  split; [ exact towerCanvas_ids | ].
  split; [ reflexivity | ].
  split; [ vm_compute; reflexivity | ].
  split; [ | vm_compute; reflexivity ].
  exact (proj1 (block_fallen_event_once towerSession towerCanvas 3 crown
                  towerCanvas_ids eq_refl)).
Defined.

Lemma drop_threshold_witness :
  isFallen crown = false
  /\ isSignificantlyTilted crown = false
  /\ (isFallen (fst (detectFall crown)) = true
      <-> vy (position (body crown)) < initialY crown - (375 # 1000)).
Proof.
  split; [ reflexivity | ]. split; [ vm_compute; reflexivity | ].
  exact (proj1 (drop_threshold crown eq_refl eq_refl)).
Defined.

(** The ball and the crown of the tower, both turned by 90 degrees in place:
    the ball stands, the crown has fallen. *)
Lemma tilt_exemption_witness :
  vy (vmult quarterTurn (mkVec3 0 1 0)) == 0
  /\ (let obj := setBody (createBlockVisualAndPhysics ballConf)
                   (setKinematics (body (createBlockVisualAndPhysics ballConf))
                      (tilted (5 # 2))) in
      detectFall obj = (obj, []))
  /\ (let obj := setBody (createBlockVisualAndPhysics crownConf)
                   (setKinematics (body (createBlockVisualAndPhysics crownConf))
                      (tilted (7 # 2))) in
      detectFall obj = (setIsFallen obj true, [("crown"%string, true)])).
Proof.
  split; [ vm_compute; reflexivity | ].
  split.
  - refine (proj1 (tilt_exemption ballConf (tilted (5 # 2)) _) eq_refl).
    vm_compute. congruence.
  - refine (proj2 (tilt_exemption crownConf (tilted (7 # 2)) _) _ _).
    + vm_compute. congruence.
    + discriminate.
    + vm_compute. reflexivity.
Defined.

Lemma charge_power_curve_witness :
  isChargingActive pressed = true
  /\ chargeStartTime pressed < 1750
  /\ chargeUpdateLoop 1750 pressed
     = Some (specPower (1750 - chargeStartTime pressed))
  /\ specPower (1750 - chargeStartTime pressed) == 1 # 2.
Proof.
  split; [ reflexivity | ]. split; [ reflexivity | ].
  destruct (charge_power_curve pressed 1750 eq_refl eq_refl)
    as [power [final (Hloop & _ & Hpower & _ & _ & _ & _ & H750 & _)]].
  split.
  - rewrite Hloop, Hpower. reflexivity.
  - rewrite <- Hpower. apply H750. reflexivity.
Defined.

(** A sleeping block two units above the centre of an explosion with the
    radius and strength of the explosive projectile is woken. *)
Lemma explosion_impulse_witness :
  Explosion.mounted Explosion.sleepyWorld = true
  /\ nth_error (Explosion.physicsObjects Explosion.sleepyWorld) 0
     = Some (Explosion.mkBody (Explosion.mkVec3 0 2 0) SLEEPING)
  /\ In (Explosion.WakeUp (Explosion.StructureBody 0))
        (Explosion.handleExplosion Explosion.center0 (35 / 10) (36 / 10)
           Explosion.sleepyWorld).
Proof.
  split; [ reflexivity | ]. split; [ reflexivity | ].
  refine (proj1 (proj2 (proj2 (proj2
            (ExplosionFacts.explosion_impulse Explosion.center0 (35 / 10)
               (36 / 10) Explosion.sleepyWorld 0
               (Explosion.mkBody (Explosion.mkVec3 0 2 0) SLEEPING)
               eq_refl eq_refl)))) _ eq_refl).
  unfold Explosion.length, Explosion.vsub, Explosion.center0. simpl.
  replace ((0 - 0) * (0 - 0) + (2 - 0) * (2 - 0) + (0 - 0) * (0 - 0))%R
    with (2 * 2)%R by ring.
  rewrite sqrt_square; lra.
Defined.

Lemma clusterCanvas_single :
  forall j' q,
    nth_error (projectiles clusterCanvas) j' = Some q ->
    id q = id clusterParent -> j' = 0%nat.
Proof.
  intros [| j'] q H _; [ reflexivity | ].
  simpl in H. destruct j'; discriminate H.
Defined.

(** The cluster projectile launched at time 100 splits in the frame at time
    1200 and never again, although another cluster projectile is launched
    later. *)
Lemma cluster_splits_once_witness :
  mounted clusterCanvas = true
  /\ nth_error (projectiles clusterCanvas) 0 = Some clusterParent
  /\ launchedCluster 100 clusterParent
  /\ 0 < 100
  /\ 100 + CLUSTER_SPLIT_DELAY_MS < currentTime (frameAt 1200 standing)
  /\ launchesAvoid (id clusterParent) afterSplit = true
  /\ List.length
       (spawnedBy (id clusterParent)
          (snd (animate (frameAt 1200 standing) clusterCanvas)))
     = SUBMUNITION_COUNT
  /\ (forall k,
         spawnedByAt k (id clusterParent)
           (snd (run afterSplit
                   (fst (animate (frameAt 1200 standing) clusterCanvas))))
         = []).
Proof.
  assert (Hcl : launchedCluster 100 clusterParent).
  { unfold launchedCluster. repeat split. }
  assert (Hfresh : launchesAvoid (id clusterParent) afterSplit = true).
  { vm_compute. reflexivity. }
  pose proof (cluster_splits_once clusterCanvas (frameAt 1200 standing)
                afterSplit 0 clusterParent 100 eq_refl eq_refl Hcl eq_refl
                eq_refl clusterCanvas_single Hfresh) as H.
  split; [ reflexivity | ]. split; [ reflexivity | ].
  split; [ exact Hcl | ]. split; [ reflexivity | ]. split; [ reflexivity | ].
  split; [ exact Hfresh | ].
  split; [ exact (proj1 H) | exact (proj2 (proj2 (proj2 (proj2 H)))) ].
Defined.

(** A cluster projectile that splits below the floor: its submunition is
    below the floor threshold as well, and still among the projectiles when
    the frame ends. *)
Lemma submunitions_outlive_their_frame_witness :
  In sunkSubmunition
     (newSubmunitions (sweep (snd (animate (frameAt 1200 sunk) clusterCanvas))))
  /\ vy (position (body sunkSubmunition)) < -10
  /\ In sunkSubmunition
        (projectiles (fst (animate (frameAt 1200 sunk) clusterCanvas))).
Proof.
  assert (H : In sunkSubmunition
                 (newSubmunitions
                    (sweep (snd (animate (frameAt 1200 sunk) clusterCanvas))))).
  { vm_compute. left. reflexivity. }
  split; [ exact H | ]. split; [ reflexivity | ].
  exact (proj2 (proj2 (submunitions_outlive_their_frame (frameAt 1200 sunk)
                         clusterCanvas sunkSubmunition H))).
Defined.

Lemma plainLevel_no_gold :
  forall b, In b (structure plainLevel) -> truthyB (bcIsKing b) = false.
Proof.
  intros b [<- | [<- | []]]; reflexivity.
Defined.

(** In the level without a golden block the lowest block falls, its event is
    not golden, and there is no golden position. *)
Lemma no_golden_block_witness :
  loadedWith plainLevel (initCanvas plainLevel 0)
  /\ (forall b, In b (structure plainLevel) -> truthyB (bcIsKing b) = false)
  /\ eventsAt 1 (snd (run plainSession (initCanvas plainLevel 0)))
     = [("base"%string, false)]
  /\ getGoldenBlockPosition (fst (run plainSession (initCanvas plainLevel 0)))
     = None.
Proof.
  assert (Hl : loadedWith plainLevel (initCanvas plainLevel 0)).
  { split; reflexivity. }
  split; [ exact Hl | ]. split; [ exact plainLevel_no_gold | ].
  split; [ vm_compute; reflexivity | ].
  exact (proj1 (no_golden_block plainLevel (initCanvas plainLevel 0)
                  plainSession Hl plainLevel_no_gold)).
Defined.

Lemma towerCanvas_one_king :
  forall j o,
    nth_error (physicsObjects towerCanvas) j = Some o ->
    truthyB (isKing o) = true -> j = 3%nat.
Proof.
  intros [| [| [| [| j]]]] o H K; simpl in H;
    try (injection H as <-; discriminate K).
  - reflexivity.
  - destruct j; discriminate H.
Defined.

(** The tower: the position of the crown before the session, null after it,
    with the crown still in place. *)
Lemma golden_position_until_fallen_witness :
  nth_error (physicsObjects towerCanvas) 3 = Some crown
  /\ truthyB (isKing crown) = true
  /\ getGoldenBlockPosition towerCanvas = Some (mkVec3 0 (7 # 2) 0)
  /\ getGoldenBlockPosition (fst (run towerSession towerCanvas)) = None
  /\ exists king',
       nth_error (physicsObjects (fst (run towerSession towerCanvas))) 3
       = Some king'
       /\ id king' = id crown
       /\ (isFallen crown = true -> isFallen king' = true)
       /\ getGoldenBlockPosition (fst (run towerSession towerCanvas))
          = if isFallen king' then None else Some (position (body king')).
Proof.
  split; [ reflexivity | ]. split; [ reflexivity | ].
  split; [ reflexivity | ]. split; [ vm_compute; reflexivity | ].
  exact (golden_position_until_fallen towerCanvas 3 crown towerSession
           eq_refl eq_refl towerCanvas_one_king).
Defined.


(** * The rest of the canvas *)

(** ** Camera framing *)

(** Halves and the like, written with a division in the source, as products
    with a constant. *)
Ltac constant_divisions :=
  unfold Qdiv in *;
  change (/ 2) with (1 # 2) in *;
  change (/ 1000) with (1 # 1000) in *;
  change (/ 800) with (1 # 800) in *.

Lemma extendBounds_grows (acc : Bounds) (b : BlockConfig) :
  minX (extendBounds acc b) <= minX acc /\ maxX acc <= maxX (extendBounds acc b)
  /\ minY (extendBounds acc b) <= minY acc
  /\ maxY acc <= maxY (extendBounds acc b)
  /\ minZ (extendBounds acc b) <= minZ acc
  /\ maxZ acc <= maxZ (extendBounds acc b).
Proof.
  unfold extendBounds. simpl.
  repeat split; first [ apply Q.le_min_l | apply Q.le_max_l ].
Qed.

Lemma extendBounds_encloses_new (acc : Bounds) (b : BlockConfig) :
  encloses (extendBounds acc b) b.
Proof.
  unfold encloses, extendBounds. simpl.
  repeat split; first [ apply Q.le_min_r | apply Q.le_max_r ].
Qed.

Lemma extendBounds_encloses_old (acc : Bounds) (b b' : BlockConfig) :
  encloses acc b' -> encloses (extendBounds acc b) b'.
Proof.
  intros (H1 & H2 & H3 & H4 & H5 & H6).
  destruct (extendBounds_grows acc b) as (G1 & G2 & G3 & G4 & G5 & G6).
  unfold encloses. repeat split; lra.
Qed.

Lemma fold_encloses_old (rest : list BlockConfig) :
  forall acc b', encloses acc b' -> encloses (fold_left extendBounds rest acc) b'.
Proof.
  induction rest as [| b rest IH]; intros acc b' H; [ exact H | ].
  simpl. apply IH. now apply extendBounds_encloses_old.
Qed.

Lemma fold_encloses_new (rest : list BlockConfig) :
  forall acc b', In b' rest -> encloses (fold_left extendBounds rest acc) b'.
Proof.
  induction rest as [| b rest IH]; intros acc b' H; [ destruct H | ].
  simpl. destruct H as [<- | H].
  - apply fold_encloses_old. apply extendBounds_encloses_new.
  - now apply IH.
Qed.

Lemma footprint_encloses (b : BlockConfig) : encloses (footprint b) b.
Proof. unfold encloses, footprint. simpl. repeat split; apply Qle_refl. Qed.

Lemma boundsOf_encloses (first : BlockConfig) (rest : list BlockConfig)
  (b : BlockConfig) :
  In b (first :: rest) -> encloses (boundsOf first rest) b.
Proof.
  unfold boundsOf. intros [<- | H].
  - apply fold_encloses_old. apply footprint_encloses.
  - now apply fold_encloses_new.
Qed.

Lemma halfWidthOf_positive (b : BlockConfig) : 1 # 2 <= halfWidthOf b.
Proof.
  unfold halfWidthOf, BLOCK_SIZE.
  destruct (bcShape b) as [[] |]; unfold Qle; simpl; lia.
Qed.

Lemma extentOf_spec (bx : Bounds) :
  5 <= extentOf bx
  /\ maxX bx - minX bx <= extentOf bx
  /\ maxY bx - minY bx <= extentOf bx
  /\ maxZ bx - minZ bx <= extentOf bx.
Proof.
  unfold extentOf, BLOCK_SIZE.
  set (m := Qmax (Qmax (Qmax (maxX bx - minX bx) (maxY bx - minY bx))
                       (maxZ bx - minZ bx)) (1 * 5)).
  assert (H5 : 5 <= m) by (unfold m; eapply Qle_trans; [ | apply Q.le_max_r ]; lra).
  assert (Hz : maxZ bx - minZ bx <= m).
  { unfold m. eapply Qle_trans; [ apply Q.le_max_r | apply Q.le_max_l ]. }
  assert (Hy : maxY bx - minY bx <= m).
  { unfold m. eapply Qle_trans; [ apply Q.le_max_r | ].
    eapply Qle_trans; [ apply Q.le_max_l | apply Q.le_max_l ]. }
  assert (Hx : maxX bx - minX bx <= m).
  { unfold m. eapply Qle_trans; [ apply Q.le_max_l | ].
    eapply Qle_trans; [ apply Q.le_max_l | apply Q.le_max_l ]. }
  destruct (Qeq_bool m 0) eqn:E.
  - apply Qeq_bool_iff in E. lra.
  - repeat split; assumption.
Qed.

(** X1. What [createStructure] sets for a non-empty structure without camera
    fields, before its closing [controls.update()].  The bounding box
    encloses the footprint of every block; the target handed to
    [controls.target.set] is the centre of the box, which lies inside it; the
    position handed to [camera.position.set] has the x of the centre, lies
    strictly above the top and strictly behind the back of the box, at least
    3.75 above and 7.5 behind the centre.  Its squared distance from the
    target is 45/16 of the squared extent: never below the minimum distance
    of the controls, and within their maximum distance of 20 exactly when the
    squared extent is at most 1280/9 (an extent of about 11.9).  The camera
    the load leaves is what the update makes of these two vectors. *)
Theorem automatic_framing (first : BlockConfig) (rest : list BlockConfig)
  (b : BlockConfig)
  (Hb : In b (first :: rest)) :
  let bx := boundsOf first rest in
  let f := frameStructure None None (first :: rest) in
  let reach := lengthSquared (vminus (cameraAt f) (lookingAt f)) in
  encloses bx b
  /\ lookingAt f = centerOf bx
  /\ minX bx <= vx (lookingAt f) <= maxX bx
  /\ minY bx <= vy (lookingAt f) <= maxY bx
  /\ minZ bx <= vz (lookingAt f) <= maxZ bx
  /\ vx (cameraAt f) == vx (lookingAt f)
  /\ maxY bx < vy (cameraAt f)
  /\ maxZ bx < vz (cameraAt f)
  /\ vy (lookingAt f) + (375 # 100) <= vy (cameraAt f)
  /\ vz (lookingAt f) + (75 # 10) <= vz (cameraAt f)
  /\ reach == (45 # 16) * (extentOf bx * extentOf bx)
  /\ CONTROLS_MIN_DISTANCE * CONTROLS_MIN_DISTANCE <= reach
  /\ (reach <= CONTROLS_MAX_DISTANCE * CONTROLS_MAX_DISTANCE
      <-> extentOf bx * extentOf bx <= 1280 # 9)
  /\ (forall update,
         cameraAfterLoad update None None (first :: rest) = update f).
Proof.
  intros bx f reach.
  pose proof (boundsOf_encloses first rest b Hb) as Henc. fold bx in Henc.
  destruct (extentOf_spec bx) as (E5 & Ex & Ey & Ez).
  pose proof (halfWidthOf_positive b) as Hw.
  assert (Hreach : reach == (45 # 16) * (extentOf bx * extentOf bx)).
  { unfold reach, f, frameStructure, lengthSquared, vminus. fold bx.
    cbn [cameraAt lookingAt vx vy vz]. ring. }
  assert (Hlimits :
            CONTROLS_MIN_DISTANCE * CONTROLS_MIN_DISTANCE <= reach
            /\ (reach <= CONTROLS_MAX_DISTANCE * CONTROLS_MAX_DISTANCE
                <-> extentOf bx * extentOf bx <= 1280 # 9)).
  { rewrite Hreach.
    unfold CONTROLS_MIN_DISTANCE, CONTROLS_MAX_DISTANCE, BLOCK_SIZE in *.
    split; [ nra | split; intro H; nra ]. }
  split; [ exact Henc | ].
  destruct Henc as (H1 & H2 & H3 & H4 & H5 & H6).
  unfold halfDepth, BLOCK_SIZE in *.
  split; [ reflexivity | ].
  cut ((minX bx <= vx (lookingAt f) <= maxX bx)
       /\ (minY bx <= vy (lookingAt f) <= maxY bx)
       /\ (minZ bx <= vz (lookingAt f) <= maxZ bx)
       /\ vx (cameraAt f) == vx (lookingAt f)
       /\ maxY bx < vy (cameraAt f)
       /\ maxZ bx < vz (cameraAt f)
       /\ vy (lookingAt f) + (375 # 100) <= vy (cameraAt f)
       /\ vz (lookingAt f) + (75 # 10) <= vz (cameraAt f)).
  { intros (A & B & C & D & E & F & G & H).
    destruct Hlimits as [Hmin Hmax].
    repeat (split; [ assumption | ]).
    intro update. reflexivity. }
  unfold f, frameStructure, centerOf. fold bx. simpl.
  constant_divisions.
  repeat split; lra.
Qed.

(** ** Particle bursts *)

Lemma advanceSystems_In (currentTime deltaTime : Q)
  (systems : list ExplosionParticleSystem) (s' : ExplosionParticleSystem) :
  In s' (advanceSystems currentTime deltaTime systems) ->
  exists s, In s systems
            /\ currentTime - systemCreationTime s
               <= EXPLOSION_PARTICLE_LIFESPAN_MS
            /\ s' = advanceSystem currentTime deltaTime s.
Proof.
  induction systems as [| s rest IH]; [ intros [] | ].
  simpl.
  destruct (Qltb EXPLOSION_PARTICLE_LIFESPAN_MS
              (currentTime - systemCreationTime s)) eqn:E.
  - intro H. destruct (IH H) as [s0 [Hin Hs0]].
    exists s0. split; [ now right | exact Hs0 ].
  - intros [<- | H].
    + exists s. apply Qltb_false in E. split; [ now left | now split ].
    + destruct (IH H) as [s0 [Hin Hs0]].
      exists s0. split; [ now right | exact Hs0 ].
Qed.

(** X2. After the particle update of a frame every burst that is left is at
    most 800 ms old, was created at the same time and holds as many particles
    as before; if it was not created in the future its opacity lies in [0, 1]
    and its size in [0.01, 0.12], and the opacity is zero from two thirds of
    the lifespan on. *)
Theorem particle_bursts_fade (currentTime deltaTime : Q)
  (systems : list ExplosionParticleSystem) (s' : ExplosionParticleSystem)
  (Hs' : In s' (advanceSystems currentTime deltaTime systems)) :
  currentTime - systemCreationTime s' <= EXPLOSION_PARTICLE_LIFESPAN_MS
  /\ (exists s, In s systems
                /\ systemCreationTime s' = systemCreationTime s
                /\ List.length (particles s') = List.length (particles s))
  /\ (systemCreationTime s' <= currentTime ->
      0 <= materialOpacity s' <= 1
      /\ 1 # 100 <= materialSize s' <= 12 # 100
      /\ (1600 # 3 <= currentTime - systemCreationTime s' ->
          materialOpacity s' == 0)).
Proof.
  destruct (advanceSystems_In _ _ _ _ Hs') as [s [Hin [Hage ->]]].
  simpl. unfold EXPLOSION_PARTICLE_LIFESPAN_MS in *.
  split; [ exact Hage | ].
  split.
  - exists s. split; [ exact Hin | ]. split; [ reflexivity | ].
    apply length_map.
  - intro Hpast. unfold EXPLOSION_PARTICLE_SIZE. constant_divisions.
    set (age := currentTime - systemCreationTime s) in *.
    assert (H0 : 0 <= age) by (unfold age; lra).
    repeat split.
    + apply Q.le_max_l.
    + apply Q.max_lub; lra.
    + apply Q.le_max_l.
    + apply Q.max_lub; lra.
    + intro Hlate. apply Q.max_l. lra.
Qed.

Lemma advanceSystems_length (currentTime deltaTime : Q)
  (systems : list ExplosionParticleSystem) :
  (List.length (advanceSystems currentTime deltaTime systems)
   <= List.length systems)%nat.
Proof.
  induction systems as [| s rest IH]; [ apply Nat.le_refl | ].
  simpl. destruct (Qltb _ _); simpl; lia.
Qed.

(** X3. A new burst holds 80 particles, all at its centre offset zero; the
    speed of each is the base speed 6 with a jitter of 25 percent either way:
    for a unit direction and a random number in [0, 1) its square lies
    between 4.5 squared and 7.5 squared. *)
Theorem new_burst_speeds (center : Vec3) (now : Q) (direction : nat -> Vec3)
  (jitter : nat -> Q) (p : Particle)
  (Hunit : forall i, lengthSquared (direction i) == 1)
  (Hrandom : forall i, 0 <= jitter i < 1)
  (Hp : In p (particles (newParticleSystem center now direction jitter))) :
  List.length (particles (newParticleSystem center now direction jitter))
  = 80%nat
  /\ particlePosition p = mkVec3 0 0 0
  /\ (45 # 10) * (45 # 10) <= lengthSquared (particleVelocity p)
  /\ lengthSquared (particleVelocity p) < (75 # 10) * (75 # 10).
Proof.
  unfold newParticleSystem in *. cbn [particles] in *.
  split; [ now rewrite length_map, length_seq | ].
  apply in_map_iff in Hp. destruct Hp as [i [<- _]].
  cbn [particlePosition particleVelocity].
  split; [ reflexivity | ].
  rewrite lengthSquared_vscale, (Hunit i).
  unfold EXPLOSION_PARTICLE_INITIAL_SPEED.
  destruct (Hrandom i) as [H0 H1].
  split; nra.
Qed.

(** ** Explosive projectiles *)

Lemma dispatchCollide_split (blocks : list PhysicsObject)
  (events : list CollideEvent) :
  forall p, truthyB (hasSplit p) = true ->
            dispatchCollide blocks p events = (p, []).
Proof.
  induction events as [| e rest IH]; intros p Hs; [ reflexivity | ].
  simpl. unfold onCollideExplosive. rewrite Hs. now rewrite (IH p Hs).
Qed.

Lemma onCollideExplosive_unsplit (blocks : list PhysicsObject)
  (p : PhysicsObject) (e : CollideEvent) :
  truthyB (hasSplit p) = false ->
  onCollideExplosive blocks p e
  = if detonates blocks e then (setHasSplit p true, [positionAtEvent e])
    else (p, []).
Proof.
  intro Hs. unfold onCollideExplosive, detonates. rewrite Hs.
  now destruct (contact e).
Qed.

(** The listener over the collide events of one step: the first detonating
    contact explodes, the later ones do nothing. *)
Lemma dispatchCollide_unsplit (blocks : list PhysicsObject)
  (events : list CollideEvent) :
  forall p, truthyB (hasSplit p) = false ->
            dispatchCollide blocks p events
            = match find (detonates blocks) events with
              | Some e => (setHasSplit p true, [positionAtEvent e])
              | None => (p, [])
              end.
Proof.
  induction events as [| e rest IH]; intros p Hs; [ reflexivity | ].
  cbn [dispatchCollide find].
  rewrite (onCollideExplosive_unsplit blocks p e Hs).
  destruct (detonates blocks e).
  - now rewrite dispatchCollide_split.
  - rewrite (IH p Hs). now destruct (find (detonates blocks) rest).
Qed.

Lemma transition_exploded (now : Q) (dirs : nat -> Vec3) (p : PhysicsObject) :
  snd (transition now dirs p)
  = if isType EXPLOSIVE p && negb (truthyB (hasSplit p))
       && (expiredAt now p || isSleeping (sleepState (body p)))
    then [position (body p)] else [].
Proof.
  unfold transition.
  destruct (isType EXPLOSIVE p && negb (truthyB (hasSplit p))); simpl.
  - now destruct (_ || _).
  - now destruct (_ && _ && _).
Qed.

Lemma sweepProjectile_exploded (now : Q) (dirs : nat -> Vec3)
  (p : PhysicsObject) :
  exploded (sweepProjectile now dirs p) = snd (transition now dirs p).
Proof.
  unfold sweepProjectile. now destruct (transition now dirs p) as [[p1 s] x].
Qed.

Lemma removalCheck_hasSplit (expired : bool) (p : PhysicsObject) :
  truthyB (hasSplit p) = true -> removalCheck expired p = true.
Proof.
  intro H. unfold removalCheck. rewrite H.
  now destruct (Qltb (vy (position (body p))) (-10)).
Qed.

Lemma transition_keeps_split (now : Q) (dirs : nat -> Vec3)
  (p : PhysicsObject) :
  truthyB (hasSplit p) = true ->
  transition now dirs p = (p, [], []).
Proof.
  intro H. unfold transition. rewrite H. simpl.
  now rewrite !andb_false_r.
Qed.

Lemma transition_exploded_split (now : Q) (dirs : nat -> Vec3)
  (p : PhysicsObject) :
  snd (transition now dirs p) <> [] ->
  truthyB (hasSplit (fst (fst (transition now dirs p)))) = true.
Proof.
  unfold transition.
  destruct (isType EXPLOSIVE p && negb (truthyB (hasSplit p))); simpl.
  - destruct (_ || _); simpl; [ reflexivity | congruence ].
  - destruct (_ && _ && _); simpl; congruence.
Qed.

Lemma stepProjectile_explosions (blocks : list PhysicsObject)
  (o : StepOutcome) (j : nat) (p : PhysicsObject) :
  (snd (stepProjectile blocks o j p) = []
   /\ hasSplit (fst (stepProjectile blocks o j p)) = hasSplit p)
  \/ (exists x, snd (stepProjectile blocks o j p) = [x]
                /\ truthyB (hasSplit p) = false
                /\ hasSplit (fst (stepProjectile blocks o j p)) = Some true).
Proof.
  unfold stepProjectile. destruct (onCollideHandler p).
  - destruct (truthyB (hasSplit p)) eqn:Hs.
    + rewrite (dispatchCollide_split blocks _ p Hs). now left.
    + rewrite (dispatchCollide_unsplit blocks _ p Hs).
      destruct (find _ _) as [e |]; [ right | now left ].
      exists (positionAtEvent e). now repeat split.
  - now left.
Qed.

(** X4. In one frame a projectile triggers at most one explosion, counting
    its collide listener and the sweep together; when it triggers one, and
    also when it had exploded or split before, the sweep of that frame pushes
    it to the removal list and it triggers no further one. *)
Theorem one_explosion_per_projectile (blocks : list PhysicsObject)
  (o : StepOutcome) (j : nat) (now : Q) (dirs : nat -> Vec3)
  (p : PhysicsObject) :
  (List.length (explosionsOf blocks o j now dirs p) <= 1)%nat
  /\ (explosionsOf blocks o j now dirs p <> [] ->
      shouldRemove (sweepOf blocks o j now dirs p) = true
      /\ truthyB (hasSplit (swept (sweepOf blocks o j now dirs p))) = true)
  /\ (truthyB (hasSplit p) = true ->
      explosionsOf blocks o j now dirs p = []
      /\ shouldRemove (sweepOf blocks o j now dirs p) = true).
Proof.
  unfold explosionsOf, sweepOf.
  set (p1 := fst (stepProjectile blocks o j p)).
  rewrite sweepProjectile_exploded, sweepProjectile_removed,
    sweepProjectile_swept.
  destruct (stepProjectile_explosions blocks o j p)
    as [[Hx Hs] | [x [Hx [Hs0 Hs]]]]; fold p1 in Hs; rewrite Hx.
  - simpl app. repeat split.
    + rewrite transition_exploded. destruct (_ && _ && _); simpl; lia.
    + apply removalCheck_hasSplit. now apply transition_exploded_split.
    + now apply transition_exploded_split.
    + rewrite transition_exploded. unfold p1 in *. rewrite Hs, H.
      simpl. now rewrite andb_false_r.
    + rewrite transition_keeps_split by now rewrite Hs.
      apply removalCheck_hasSplit. cbn [fst]. now rewrite Hs.
  - assert (Hs1 : truthyB (hasSplit p1) = true) by now rewrite Hs.
    rewrite (transition_keeps_split now dirs p1 Hs1). cbn [fst snd app].
    repeat split; try (simpl; lia).
    + now apply removalCheck_hasSplit.
    + exact Hs1.
    + congruence.
    + now apply removalCheck_hasSplit.
Qed.

Lemma expiredAt_timed (now l t0 : Q) (p : PhysicsObject) :
  lifeSpan p = Some l -> creationTime p = Some t0 -> 0 < l -> 0 < t0 ->
  expiredAt now p = Qltb l (now - t0).
Proof.
  intros Hl Hc Hl0 Ht0. unfold expiredAt. rewrite Hl, Hc. simpl truthyN.
  assert (El : Qeq_bool l 0 = false).
  { apply not_true_iff_false. rewrite Qeq_bool_iff. lra. }
  assert (Et : Qeq_bool t0 0 = false).
  { apply not_true_iff_false. rewrite Qeq_bool_iff. lra. }
  now rewrite El, Et.
Qed.

(** X5. What makes a launched explosive projectile explode in a frame: the
    first collide event of the step that is a contact with a structure block
    at an impact velocity above one, at the position the body has at that
    event; failing that, the end of its 3000 ms or a sleeping body after the
    step, at the position after the step; otherwise nothing, and then it is
    removed only below the floor threshold. *)
Theorem explosive_triggers (blocks : list PhysicsObject) (o : StepOutcome)
  (j : nat) (now : Q) (dirs : nat -> Vec3) (p : PhysicsObject) (t0 : Q)
  (Hexplosive : launchedExplosive t0 p)
  (Ht0 : 0 < t0) :
  let k := projectileKinematics o j in
  (forall e, find (detonates blocks) (collideEvents o j) = Some e ->
             explosionsOf blocks o j now dirs p = [positionAtEvent e])
  /\ (find (detonates blocks) (collideEvents o j) = None ->
      explosionsOf blocks o j now dirs p
      = if Qltb EXPLOSIVE_PROJECTILE_LIFESPAN_MS (now - t0)
           || isSleeping (kSleepState k)
        then [kPosition k] else [])
  /\ (explosionsOf blocks o j now dirs p = [] ->
      shouldRemove (sweepOf blocks o j now dirs p)
      = Qltb (vy (kPosition k)) (-10)).
Proof.
  intro k.
  destruct Hexplosive as (Ht & Hs & Hl & Hc & Hsub & Hh).
  assert (Hunsplit : truthyB (hasSplit p) = false) by now rewrite Hs.
  assert (Hstep : stepProjectile blocks o j p
                  = match find (detonates blocks) (collideEvents o j) with
                    | Some e =>
                        (setBody (setHasSplit p true)
                                 (setKinematics (body p) k),
                         [positionAtEvent e])
                    | None => (setBody p (setKinematics (body p) k), [])
                    end).
  { unfold stepProjectile. rewrite Hh, (dispatchCollide_unsplit _ _ p Hunsplit).
    now destruct (find _ _). }
  assert (Hquiet :
            find (detonates blocks) (collideEvents o j) = None ->
            sweepOf blocks o j now dirs p
            = let p1 := setBody p (setKinematics (body p) k) in
              if Qltb EXPLOSIVE_PROJECTILE_LIFESPAN_MS (now - t0)
                 || isSleeping (kSleepState k)
              then mkSweep (setHasSplit p1 true) true [] [kPosition k]
              else mkSweep p1 (Qltb (vy (kPosition k)) (-10)) [] []).
  { intro Hnone. unfold sweepOf. rewrite Hstep, Hnone. cbn [fst].
    set (p1 := setBody p (setKinematics (body p) k)).
    assert (He : expiredAt now p1
                 = Qltb EXPLOSIVE_PROJECTILE_LIFESPAN_MS (now - t0)).
    { apply (expiredAt_timed now _ t0); try assumption.
      unfold EXPLOSIVE_PROJECTILE_LIFESPAN_MS. lra. }
    unfold sweepProjectile, transition, isType. simpl projectileType.
    rewrite Ht, He. simpl hasSplit. rewrite Hs. simpl.
    destruct (Qltb EXPLOSIVE_PROJECTILE_LIFESPAN_MS (now - t0)); simpl.
    - f_equal. apply removalCheck_split.
    - destruct (isSleeping (kSleepState k)) eqn:Hsl; simpl.
      + f_equal. apply removalCheck_split.
      + f_equal. unfold removalCheck. simpl. rewrite Hs, Hsub, Hsl. simpl.
        now destruct (Qltb (vy (kPosition k)) (-10)). }
  repeat split.
  - intros e He. unfold explosionsOf. rewrite Hstep, He. cbn [fst snd].
    rewrite sweepProjectile_exploded, transition_keeps_split by reflexivity.
    reflexivity.
  - intro Hnone. unfold explosionsOf.
    fold (sweepOf blocks o j now dirs p). rewrite (Hquiet Hnone).
    rewrite Hstep, Hnone. cbn [snd app].
    now destruct (_ || _).
  - intro Hnothing.
    destruct (find (detonates blocks) (collideEvents o j)) as [e |] eqn:Hf.
    + unfold explosionsOf in Hnothing. rewrite Hstep in Hnothing.
      discriminate Hnothing.
    + unfold explosionsOf in Hnothing.
      fold (sweepOf blocks o j now dirs p) in Hnothing.
      rewrite (Hquiet eq_refl) in *. rewrite Hstep in Hnothing.
      cbn [snd app] in Hnothing.
      destruct (_ || _); [ discriminate Hnothing | reflexivity ].
Qed.

(** ** Submunitions and waiting cluster projectiles *)

Lemma makeSubmunition_spawned (proj : PhysicsObject) (now : Q) (dir : Vec3)
  (i : nat) :
  spawnedSubmunition now (makeSubmunition proj now dir i).
Proof. unfold spawnedSubmunition. now repeat split. Qed.

(** X6. A submunition never splits and never explodes.  The sweep of a frame
    removes it exactly when it is below the floor threshold, or more than
    5000 ms have passed since the split, or it is asleep with a squared
    velocity below 0.01; otherwise it goes on unchanged but for its motion. *)
Theorem submunition_life (blocks : list PhysicsObject) (o : StepOutcome)
  (j : nat) (now : Q) (dirs : nat -> Vec3) (p : PhysicsObject) (t0 : Q)
  (Hsub : spawnedSubmunition t0 p)
  (Ht0 : 0 < t0) :
  let k := projectileKinematics o j in
  let p1 := setBody p (setKinematics (body p) k) in
  sweepOf blocks o j now dirs p
  = mkSweep p1
      (Qltb (vy (kPosition k)) (-10)
       || Qltb SUBMUNITION_LIFESPAN_MS (now - t0)
       || (isSleeping (kSleepState k)
           && Qltb (lengthSquared (kVelocity k)) (1 # 100)))
      [] []
  /\ explosionsOf blocks o j now dirs p = []
  /\ spawnedSubmunition t0 p1.
Proof.
  intros k p1.
  destruct Hsub as (Ht & Hs & Hl & Hc & Hsm & Hh).
  assert (Hstep : stepProjectile blocks o j p = (p1, [])).
  { unfold stepProjectile. now rewrite Hh. }
  assert (He : expiredAt now p1 = Qltb SUBMUNITION_LIFESPAN_MS (now - t0)).
  { apply (expiredAt_timed now _ t0); try assumption.
    unfold SUBMUNITION_LIFESPAN_MS. lra. }
  assert (Htr : transition now dirs p1 = (p1, [], [])).
  { unfold transition, isType. simpl projectileType. now rewrite Ht. }
  assert (Hsweep : sweepProjectile now dirs p1
                   = mkSweep p1
                       (Qltb (vy (kPosition k)) (-10)
                        || Qltb SUBMUNITION_LIFESPAN_MS (now - t0)
                        || (isSleeping (kSleepState k)
                            && Qltb (lengthSquared (kVelocity k)) (1 # 100)))
                       [] []).
  { unfold sweepProjectile. rewrite Htr, He. f_equal.
    unfold removalCheck. simpl. rewrite Hs, Hsm. simpl.
    destruct (Qltb (vy (kPosition k)) (-10)); [ reflexivity | ].
    simpl. rewrite andb_true_r.
    destruct (Qltb SUBMUNITION_LIFESPAN_MS (now - t0)); [ reflexivity | ].
    simpl. destruct (_ && _); [ apply orb_true_r | reflexivity ]. }
  repeat split; try assumption.
  - unfold sweepOf. now rewrite Hstep.
  - unfold explosionsOf. rewrite Hstep. cbn [fst snd app].
    now rewrite Hsweep.
Qed.

(** X7. A cluster projectile does not split before its delay has run out, and
    it is not removed for lying asleep: until more than 1000 ms have passed
    since the launch, the sweep leaves it unsplit, spawns nothing, and removes
    it only below the floor threshold. *)
Theorem cluster_waits (blocks : list PhysicsObject) (o : StepOutcome)
  (j : nat) (now : Q) (dirs : nat -> Vec3) (p : PhysicsObject) (t0 : Q)
  (Hcluster : launchedCluster t0 p)
  (Ht0 : 0 < t0)
  (Hearly : now <= t0 + CLUSTER_SPLIT_DELAY_MS) :
  let k := projectileKinematics o j in
  let p1 := setBody p (setKinematics (body p) k) in
  sweepOf blocks o j now dirs p
  = mkSweep p1 (Qltb (vy (kPosition k)) (-10)) [] []
  /\ launchedCluster t0 p1.
Proof.
  intros k p1.
  pose proof (stepProjectile_cluster blocks o j t0 p Hcluster) as Hcl1.
  destruct Hcluster as (Ht & Hs & Hl & Hc & Hsm & Hh).
  assert (Hstep : stepProjectile blocks o j p = (p1, [])).
  { unfold stepProjectile. now rewrite Hh. }
  rewrite Hstep in Hcl1. simpl fst in Hcl1.
  split; [ | exact Hcl1 ].
  unfold sweepOf. rewrite Hstep. cbn [fst].
  assert (He : expiredAt now p1 = false).
  { rewrite (expiredAt_timed now CLUSTER_SPLIT_DELAY_MS t0); try assumption.
    - apply Qltb_false. lra.
    - unfold CLUSTER_SPLIT_DELAY_MS. lra. }
  assert (Htr : transition now dirs p1 = (p1, [], [])).
  { unfold transition, isType. simpl projectileType. rewrite Ht, He.
    simpl. now rewrite andb_false_r. }
  unfold sweepProjectile. rewrite Htr, He. f_equal.
  unfold removalCheck, hasProjectileType. simpl. rewrite Hs, Hsm, Ht. simpl.
  destruct (Qltb (vy (kPosition k)) (-10)); [ reflexivity | ].
  now destruct (_ && _).
Qed.

(** ** The charge controller *)

(** X8. The charge controller as a machine.  A press starts a charge only
    from idle and with every gate open (left button, charge allowed, camera
    not dragged, delegate mode off, pointer on the canvas); while a charge
    runs, further presses change nothing; the release hands over the final
    power once and returns to idle, where a further release and the progress
    loop report nothing. *)
Theorem charge_cycle (ev : PointerDown) (t0 t1 t2 : Q) (st : ChargeState) :
  let pressed := handlePointerDown ev t0 st in
  let released := fst (handlePointerUpGlobal t1 pressed) in
  (pressed <> st ->
     isChargingActive st = false /\ button ev = 0%Z
     /\ canAttemptCharge ev = true /\ isDraggingCamera ev = false
     /\ isDelegateModeActive ev = false /\ onCanvas ev = true
     /\ pressed = mkCharge true t0)
  /\ (isChargingActive pressed = true ->
      (forall ev' t, handlePointerDown ev' t pressed = pressed)
      /\ snd (handlePointerUpGlobal t1 pressed)
         = Some (finalLaunchPowerAfter (t1 - chargeStartTime pressed)))
  /\ (isChargingActive pressed = false ->
      handlePointerUpGlobal t1 pressed = (pressed, None))
  /\ isChargingActive released = false
  /\ handlePointerUpGlobal t2 released = (released, None)
  /\ chargeUpdateLoop t2 released = None.
Proof.
  intros pressed released.
  assert (Hrel : isChargingActive released = false).
  { unfold released, handlePointerUpGlobal.
    destruct (isChargingActive pressed) eqn:E; simpl; [ reflexivity | exact E ]. }
  split; [ | split; [ | split; [ | split; [ | split ] ] ] ].
  - intro Hne. unfold pressed, handlePointerDown in *.
    destruct (Z.eqb_spec (button ev) 0) as [Hb | Hb]; simpl in *;
      [ | congruence ].
    destruct (isChargingActive st); simpl in *.
    { rewrite !orb_true_r in Hne. simpl in Hne. congruence. }
    destruct (canAttemptCharge ev); simpl in *; [ | congruence ].
    destruct (isDraggingCamera ev); simpl in *; [ congruence | ].
    destruct (isDelegateModeActive ev); simpl in *; [ congruence | ].
    destruct (onCanvas ev); [ now repeat split | congruence ].
  - intro Hact. split.
    + intros ev' t. unfold handlePointerDown at 1. rewrite Hact.
      rewrite !orb_true_r. simpl. now destruct (negb (Z.eqb (button ev') 0)).
    + unfold handlePointerUpGlobal. now rewrite Hact.
  - intro Hidle. unfold handlePointerUpGlobal. now rewrite Hidle.
  - exact Hrel.
  - unfold handlePointerUpGlobal. now rewrite Hrel.
  - unfold chargeUpdateLoop. now rewrite Hrel.
Qed.

Lemma jsRem_nonpos (x : Q) : x <= 0 -> jsRem x MAX_LAUNCH_POWER <= 0.
Proof.
  intro Hx. unfold jsRem, MAX_LAUNCH_POWER.
  assert (E : x / 1 == x) by field.
  assert (H0 : x / 1 <= 0) by (rewrite E; exact Hx).
  assert (Htrunc : x / 1
                   <= inject_Z (Z.quot (Qnum (x / 1)) (Zpos (Qden (x / 1))))).
  { destruct (x / 1) as [n d]. simpl Qnum. simpl Qden.
    unfold Qle in *. simpl in *.
    pose proof (Z.quot_rem' n (Zpos d)) as Hqr.
    assert (Hr : (Z.rem n (Zpos d) <= 0)%Z).
    { apply Z.rem_nonpos; lia. }
    nia. }
  lra.
Qed.

Lemma finalLaunchPowerAfter_range (elapsedTime : Q) :
  1 # 10 <= finalLaunchPowerAfter elapsedTime <= 1.
Proof.
  unfold finalLaunchPowerAfter, MAX_CHARGE_DURATION_MS, MIN_LAUNCH_POWER.
  set (raw := elapsedTime / 1500).
  split; [ apply Q.le_max_l | ].
  apply Q.max_lub; [ lra | ].
  destruct (Qlt_le_dec 0 raw) as [Hpos | Hneg].
  - rewrite jsRem_nonneg by lra.
    pose proof (specRemainder_range raw) as Hr.
    unfold MAX_LAUNCH_POWER. destruct (_ && _); lra.
  - pose proof (jsRem_nonpos raw Hneg) as Hr.
    unfold MAX_LAUNCH_POWER in *. destruct (_ && _); lra.
Qed.

(** X9. Whatever the time between press and release, and whatever the state
    of the controller, a release hands over a power only when a charge was
    running, and that power lies between 0.1 and 1.0, which rounds to 10 to
    100 percent. *)
Theorem final_power_bounds (t1 : Q) (st : ChargeState) :
  match snd (handlePointerUpGlobal t1 st) with
  | Some power =>
      isChargingActive st = true
      /\ 1 # 10 <= power <= 1
      /\ (10 <= mathRound (power * 100) <= 100)%Z
  | None => isChargingActive st = false
  end.
Proof.
  unfold handlePointerUpGlobal.
  destruct (isChargingActive st); [ | reflexivity ].
  cbn [snd].
  pose proof (finalLaunchPowerAfter_range (t1 - chargeStartTime st)) as [Hlo Hhi].
  set (power := finalLaunchPowerAfter (t1 - chargeStartTime st)) in *.
  split; [ reflexivity | ]. split; [ now split | ].
  unfold mathRound. split.
  - apply (Qfloor_resp_le 10). lra.
  - apply (Qfloor_resp_le _ (201 # 2)). lra.
Qed.

(** ** Frames, launches and resets *)

Lemma perform_mounted (a : Action) (c : Canvas) :
  mounted (fst (perform a c)) = mounted c.
Proof.
  destruct a; cbn [perform fst];
    [ apply animate_mounted | apply launchProjectile_mounted ].
Qed.

Lemma run_mounted (actions : list Action) :
  forall c, mounted (fst (run actions c)) = mounted c.
Proof.
  induction actions as [| a rest IH]; intro c; [ reflexivity | ].
  rewrite run_cons. simpl fst. now rewrite IH, perform_mounted.
Qed.

(** X10. A reset forgets the session: after any actions, [resetLevel] leaves
    the canvas a reset of the untouched canvas would leave, with the
    structure of the level rebuilt (every block unfallen, at its place in the
    level) and no projectile; a second reset with the same level changes
    nothing but the clock. *)
Theorem reset_forgets_session (levelConfig : LevelConfiguration)
  (now now' : Q) (actions : list Action) (c : Canvas)
  (Hmounted : mounted c = true) :
  let fresh := resetLevel levelConfig now c in
  resetLevel levelConfig now (fst (run actions c))
  = mkCanvas true (physicsObjects fresh) [] now
  /\ physicsObjects fresh
     = map createBlockVisualAndPhysics (structure levelConfig)
  /\ projectiles fresh = []
  /\ (forall o, In o (physicsObjects fresh) -> isFallen o = false)
  /\ map (fun o => position (body o)) (physicsObjects fresh)
     = map (fun b => mkVec3 (bcX b) (bcY b) (bcZ b)) (structure levelConfig)
  /\ physicsObjects (resetLevel levelConfig now' fresh) = physicsObjects fresh
  /\ projectiles (resetLevel levelConfig now' fresh) = [].
Proof.
  intro fresh.
  assert (Hfresh : fresh
                   = mkCanvas true
                       (map createBlockVisualAndPhysics (structure levelConfig))
                       [] now).
  { unfold fresh, resetLevel, createStructure. now rewrite Hmounted. }
  rewrite Hfresh. simpl.
  repeat split.
  - unfold resetLevel, createStructure.
    now rewrite (run_mounted actions c), Hmounted.
  - intros o Ho. apply in_map_iff in Ho. now destruct Ho as [b [<- _]].
  - rewrite map_map. apply map_ext. reflexivity.
Qed.

Lemma perform_same (a : Action) (c : Canvas) (i : nat) (o : PhysicsObject) :
  nth_error (physicsObjects c) i = Some o ->
  exists o', nth_error (physicsObjects (fst (perform a c))) i = Some o'
             /\ sameBlock o o'.
Proof.
  intro Hi. destruct a as [inp | pw t li]; cbn [perform fst].
  - rewrite animate_physicsObjects. destruct (mounted c).
    + rewrite detectFalls_objects.
      set (oc := stepWorld inp _).
      exists (fst (detectFall
                     (setBody o (setKinematics (body o)
                                   (blockKinematics oc i))))).
      split.
      * apply (map_nth_error (fun o0 => fst (detectFall o0))).
        rewrite stepBlocks_nth, Hi. reflexivity.
      * unfold sameBlock.
        rewrite detectFall_id, detectFall_isKing, detectFall_initialY,
          detectFall_body, detectFall_isFallen.
        simpl. repeat split. now intros ->.
    + exists o. unfold sameBlock. now repeat split.
  - rewrite launchProjectile_physicsObjects. exists o.
    unfold sameBlock. now repeat split.
Qed.

Lemma perform_length (a : Action) (c : Canvas) :
  List.length (physicsObjects (fst (perform a c)))
  = List.length (physicsObjects c).
Proof.
  destruct a as [inp | pw t li]; cbn [perform fst].
  - rewrite animate_physicsObjects. destruct (mounted c); [ | reflexivity ].
    rewrite detectFalls_objects, length_map.
    rewrite <- (length_map id), stepBlocks_ids. apply length_map.
  - now rewrite launchProjectile_physicsObjects.
Qed.

(** X11. A session never adds, removes or reorders structure objects, fallen
    or not: the list keeps its length, and the object at each index keeps its
    identifier, golden flag, initial height and shape, and a fallen flag that
    is set stays set. *)
Theorem structure_is_permanent (actions : list Action) :
  forall (c : Canvas),
    List.length (physicsObjects (fst (run actions c)))
    = List.length (physicsObjects c)
    /\ (forall i o,
           nth_error (physicsObjects c) i = Some o ->
           exists o',
             nth_error (physicsObjects (fst (run actions c))) i = Some o'
             /\ sameBlock o o').
Proof.
  induction actions as [| a rest IH]; intro c.
  - split; [ reflexivity | ]. intros i o Hi. exists o.
    unfold sameBlock. now repeat split.
  - rewrite run_cons. simpl fst.
    destruct (IH (fst (perform a c))) as [Hlen Hnth].
    split; [ now rewrite Hlen, perform_length | ].
    intros i o Hi.
    destruct (perform_same a c i o Hi) as [o1 [H1 S1]].
    destruct (Hnth i o1 H1) as [o2 [H2 S2]].
    exists o2. split; [ exact H2 | ].
    destruct S1 as (A1 & B1 & C1 & D1 & E1), S2 as (A2 & B2 & C2 & D2 & E2).
    unfold sameBlock. repeat split; try congruence.
    intro F. now apply E2, E1.
Qed.

(** X12. [getGoldenBlockPosition] with any number of golden blocks: the
    answer is null exactly when every golden block has fallen; otherwise it is
    the position of the first golden block, in the order of the structure,
    that has not. *)
Theorem golden_position_first_standing (c : Canvas) :
  (getGoldenBlockPosition c = None
   <-> forall o, In o (physicsObjects c) ->
                 truthyB (isKing o) = true -> isFallen o = true)
  /\ (forall p,
         getGoldenBlockPosition c = Some p ->
         exists i o,
           nth_error (physicsObjects c) i = Some o
           /\ truthyB (isKing o) = true /\ isFallen o = false
           /\ p = position (body o)
           /\ forall i' o', (i' < i)%nat ->
                            nth_error (physicsObjects c) i' = Some o' ->
                            truthyB (isKing o') = true -> isFallen o' = true).
Proof.
  unfold getGoldenBlockPosition.
  set (standing := fun obj => truthyB (isKing obj) && negb (isFallen obj)).
  split.
  - split.
    + intros Hnone o Hin Hk.
      destruct (find standing (physicsObjects c)) eqn:E; [ discriminate | ].
      pose proof (find_none _ _ E o Hin) as Hf. unfold standing in Hf.
      rewrite Hk in Hf. simpl in Hf. now apply negb_false_iff in Hf.
    + intro Hall. fold standing.
      destruct (find standing (physicsObjects c)) as [g |] eqn:E;
        [ | reflexivity ].
      apply find_some in E. destruct E as [Hin Hg]. unfold standing in Hg.
      apply andb_true_iff in Hg. destruct Hg as [Hk Hf].
      rewrite (Hall g Hin Hk) in Hf. discriminate.
  - intros p Hp. fold standing in Hp.
    induction (physicsObjects c) as [| a l IH]; [ discriminate | ].
    simpl in Hp. destruct (standing a) eqn:Ea.
    + injection Hp as <-. exists 0%nat, a. unfold standing in Ea.
      apply andb_true_iff in Ea. destruct Ea as [Hk Hf].
      apply negb_true_iff in Hf. repeat split; try assumption. lia.
    + destruct (IH Hp) as [i [o (Hi & Hk & Hf & Hpos & Hfirst)]].
      exists (S i), o. repeat split; try assumption.
      intros [| i'] o' Hlt Hi' Hk'.
      * simpl in Hi'. injection Hi' as <-. unfold standing in Ea.
        rewrite Hk' in Ea. simpl in Ea. now apply negb_false_iff in Ea.
      * apply (Hfirst i' o'); [ lia | exact Hi' | exact Hk' ].
Qed.

(** X13. The time step of a frame is the time since the previous frame in
    seconds, cut to the range from 0 to 1/30; it is that time itself when the
    frames are at most a thirtieth of a second apart.  The previous frame is
    remembered whether or not the canvas is mounted. *)
Theorem frame_delta_clamped (previous inp : FrameInput) (c : Canvas) :
  let c1 := fst (animate previous c) in
  outcomeOf inp c1 = stepWorld inp (frameDelta inp c1)
  /\ lastCallTime c1 = currentTime previous
  /\ 0 <= frameDelta inp c1 <= 1 # 30
  /\ (currentTime previous <= currentTime inp <= currentTime previous + (100 # 3)
      -> frameDelta inp c1
         == (currentTime inp - currentTime previous) / 1000).
Proof.
  intro c1.
  assert (Hlast : lastCallTime c1 = currentTime previous).
  { unfold c1, animate. destruct (mounted c); [ | reflexivity ].
    now destruct (stepProjectiles _ _ _ _), (detectFalls _). }
  split; [ reflexivity | ]. split; [ exact Hlast | ].
  unfold frameDelta. rewrite Hlast.
  set (d := (currentTime inp - currentTime previous) / 1000).
  change (1 / 30) with (1 # 30).
  split.
  - split; [ apply Q.le_max_l | ].
    apply Q.max_lub; [ lra | apply Q.le_min_l ].
  - intros [Hlo Hhi].
    assert (Hd : 0 <= d <= 1 # 30).
    { unfold d. constant_divisions. lra. }
    rewrite Q.min_r by lra. apply Q.max_r. lra.
Qed.

Lemma lengthSquared_offset (a d : Vec3) (k : Q) :
  lengthSquared (vminus (vadd a (vscale k d)) a) == k * k * lengthSquared d.
Proof. unfold lengthSquared, vminus, vadd, vscale. simpl. ring. Qed.

(** X14. A shot released after any charge time, with the camera looking
    along a unit vector: [launchProjectile] appends one projectile and touches
    nothing else; it flies along the view direction at a speed between 2.5
    and 25, and starts on the view axis in front of the camera: at the camera
    position plus the view direction scaled by the launch offset, which is
    the radius plus one and at least 1.25, so at that distance from the
    camera. *)
Theorem manual_launch (elapsedTime : Q) (t : ProjectileType)
  (li : LaunchInput) (c : Canvas)
  (Hmounted : mounted c = true)
  (Hunit : lengthSquared (camDir li) == 1) :
  let power := finalLaunchPowerAfter elapsedTime in
  let p := newProjectile power t li in
  let launchOffset := projectileRadius t + (5 # 10) + BLOCK_SIZE / 2 in
  launchProjectile power t li c
  = mkCanvas true (physicsObjects c) (projectiles c ++ [p]) (lastCallTime c)
  /\ velocity (body p) = vscale (PROJECTILE_VELOCITY_MULTIPLIER * power)
                           (camDir li)
  /\ (25 # 10) * (25 # 10) <= lengthSquared (velocity (body p))
  /\ lengthSquared (velocity (body p)) <= 25 * 25
  /\ lengthSquared (vminus (position (body p)) (camPos li))
     == (projectileRadius t + 1) * (projectileRadius t + 1)
  /\ 125 # 100 <= projectileRadius t + 1
  /\ position (body p) = vadd (camPos li) (vscale launchOffset (camDir li))
  /\ launchOffset == projectileRadius t + 1
  /\ vx (position (body p)) - vx (camPos li) == launchOffset * vx (camDir li)
  /\ vy (position (body p)) - vy (camPos li) == launchOffset * vy (camDir li)
  /\ vz (position (body p)) - vz (camPos li) == launchOffset * vz (camDir li).
Proof.
  intros power p launchOffset.
  destruct (finalLaunchPowerAfter_range elapsedTime) as [Hlo Hhi].
  fold power in Hlo, Hhi.
  assert (Hposition : position (body p)
                      = vadd (camPos li) (vscale launchOffset (camDir li))).
  { reflexivity. }
  assert (Hoffset : launchOffset == projectileRadius t + 1).
  { unfold launchOffset, BLOCK_SIZE. constant_divisions. ring. }
  assert (Haxis :
            vx (position (body p)) - vx (camPos li)
            == launchOffset * vx (camDir li)
            /\ vy (position (body p)) - vy (camPos li)
               == launchOffset * vy (camDir li)
            /\ vz (position (body p)) - vz (camPos li)
               == launchOffset * vz (camDir li)).
  { rewrite Hposition. unfold vadd, vscale. cbn [vx vy vz].
    repeat split; ring. }
  cut (launchProjectile power t li c
       = mkCanvas true (physicsObjects c) (projectiles c ++ [p])
           (lastCallTime c)
       /\ velocity (body p) = vscale (PROJECTILE_VELOCITY_MULTIPLIER * power)
                                (camDir li)
       /\ (25 # 10) * (25 # 10) <= lengthSquared (velocity (body p))
       /\ lengthSquared (velocity (body p)) <= 25 * 25
       /\ lengthSquared (vminus (position (body p)) (camPos li))
          == (projectileRadius t + 1) * (projectileRadius t + 1)
       /\ 125 # 100 <= projectileRadius t + 1).
  { intros (A & B & C & D & E & F).
    repeat (split; [ assumption | ]). exact Haxis. }
  split; [ unfold launchProjectile; now rewrite Hmounted | ].
  split; [ reflexivity | ].
  assert (Hv : lengthSquared (velocity (body p))
               == 25 * power * (25 * power)).
  { unfold p, newProjectile. cbn [body velocity setVelocity].
    rewrite lengthSquared_vscale, Hunit.
    unfold PROJECTILE_VELOCITY_MULTIPLIER. ring. }
  split; [ rewrite Hv; nra | ].
  split; [ rewrite Hv; nra | ].
  split.
  - unfold p, newProjectile.
    cbn [body position setVelocity setPosition].
    rewrite lengthSquared_offset, Hunit. unfold BLOCK_SIZE.
    constant_divisions. ring.
  - unfold projectileRadius, PROJECTILE_RADIUS, HEAVY_PROJECTILE_RADIUS,
      EXPLOSIVE_PROJECTILE_RADIUS, CLUSTER_PROJECTILE_RADIUS.
    destruct t; unfold Qle; simpl; lia.
Qed.

(** ** The properties above at sample inputs *)

Lemma automatic_framing_witness :
  In crownConf (structure towerLevel)
  /\ encloses (boundsOf baseConf [drumConf; ballConf; crownConf]) crownConf
  /\ lookingAt (frameStructure None None (structure towerLevel))
     = centerOf (boundsOf baseConf [drumConf; ballConf; crownConf]).
Proof.
  assert (Hin : In crownConf (baseConf :: [drumConf; ballConf; crownConf])).
  { simpl. tauto. }
  pose proof (automatic_framing baseConf [drumConf; ballConf; crownConf]
                crownConf Hin) as H.
  split; [ exact Hin | ].
  split; [ exact (proj1 H) | exact (proj1 (proj2 H)) ].
Defined.

Lemma particle_bursts_fade_witness :
  In (advanceSystem 500 (1 # 60) sampleBurst)
     (advanceSystems 500 (1 # 60) [sampleBurst])
  /\ 500 - systemCreationTime (advanceSystem 500 (1 # 60) sampleBurst)
     <= EXPLOSION_PARTICLE_LIFESPAN_MS.
Proof.
  assert (Hin : In (advanceSystem 500 (1 # 60) sampleBurst)
                   (advanceSystems 500 (1 # 60) [sampleBurst])).
  { left. reflexivity. }
  split; [ exact Hin | ].
  exact (proj1 (particle_bursts_fade 500 (1 # 60) [sampleBurst] _ Hin)).
Defined.

Lemma new_burst_speeds_witness :
  (forall i : nat, lengthSquared (northEast i) == 1)
  /\ (forall i : nat, 0 <= (fun _ : nat => 1 # 2) i < 1)
  /\ In sampleParticle (particles sampleBurst)
  /\ List.length (particles sampleBurst) = 80%nat
  /\ lengthSquared (particleVelocity sampleParticle) < (75 # 10) * (75 # 10).
Proof.
  assert (Hunit : forall i : nat, lengthSquared (northEast i) == 1).
  { intro i. reflexivity. }
  assert (Hrandom : forall i : nat, 0 <= (fun _ : nat => 1 # 2) i < 1).
  { intro i. split; [ discriminate | reflexivity ]. }
  assert (Hin : In sampleParticle (particles sampleBurst)).
  { left. reflexivity. }
  pose proof (new_burst_speeds (mkVec3 0 1 0) 100 northEast
                (fun _ => 1 # 2) sampleParticle Hunit Hrandom Hin) as H.
  split; [ exact Hunit | ]. split; [ exact Hrandom | ].
  split; [ exact Hin | ].
  split; [ exact (proj1 H) | exact (proj2 (proj2 (proj2 H))) ].
Defined.

Lemma explosive_triggers_witness :
  launchedExplosive 100 explosiveShot
  /\ 0 < 100
  /\ explosionsOf (physicsObjects towerCanvas) struck 0 116 northEast
       explosiveShot
     = [mkVec3 0 (7 # 2) (1 # 2)]
  /\ explosionsOf (physicsObjects towerCanvas) standing 0 116 northEast
       explosiveShot
     = [].
Proof.
  assert (Hex : launchedExplosive 100 explosiveShot).
  { unfold launchedExplosive. repeat split. }
  split; [ exact Hex | ]. split; [ reflexivity | ].
  split.
  - exact (proj1 (explosive_triggers (physicsObjects towerCanvas) struck 0 116
                    northEast explosiveShot 100 Hex eq_refl)
             _ eq_refl).
  - exact (proj1 (proj2 (explosive_triggers (physicsObjects towerCanvas)
                           standing 0 116 northEast explosiveShot 100 Hex
                           eq_refl))
             eq_refl).
Defined.

Lemma submunition_life_witness :
  spawnedSubmunition 1200 sunkSubmunition
  /\ 0 < 1200
  /\ explosionsOf (physicsObjects towerCanvas) standing 0 1216 northEast
       sunkSubmunition
     = []
  /\ spawnedSubmunition 1200
       (setBody sunkSubmunition
          (setKinematics (body sunkSubmunition)
             (projectileKinematics standing 0))).
Proof.
  assert (Hsub : spawnedSubmunition 1200 sunkSubmunition).
  { unfold spawnedSubmunition. repeat split. }
  pose proof (submunition_life (physicsObjects towerCanvas) standing 0 1216
                northEast sunkSubmunition 1200 Hsub eq_refl) as H.
  split; [ exact Hsub | ]. split; [ reflexivity | ].
  split; [ exact (proj1 (proj2 H)) | exact (proj2 (proj2 H)) ].
Defined.

Lemma cluster_waits_witness :
  launchedCluster 100 clusterParent
  /\ 0 < 100
  /\ 600 <= 100 + CLUSTER_SPLIT_DELAY_MS
  /\ launchedCluster 100
       (setBody clusterParent
          (setKinematics (body clusterParent)
             (projectileKinematics standing 0))).
Proof.
  assert (Hcl : launchedCluster 100 clusterParent).
  { unfold launchedCluster. repeat split. }
  assert (Hearly : 600 <= 100 + CLUSTER_SPLIT_DELAY_MS).
  { discriminate. }
  split; [ exact Hcl | ]. split; [ reflexivity | ].
  split; [ exact Hearly | ].
  exact (proj2 (cluster_waits (physicsObjects towerCanvas) standing 0 600
                  northEast clusterParent 100 Hcl eq_refl Hearly)).
Defined.

Lemma reset_forgets_session_witness :
  mounted towerCanvas = true
  /\ physicsObjects (resetLevel towerLevel 64 towerCanvas)
     = map createBlockVisualAndPhysics (structure towerLevel)
  /\ resetLevel towerLevel 64 (fst (run towerSession towerCanvas))
     = mkCanvas true (physicsObjects (resetLevel towerLevel 64 towerCanvas))
         [] 64.
Proof.
  pose proof (reset_forgets_session towerLevel 64 80 towerSession towerCanvas
                eq_refl) as H.
  split; [ reflexivity | ].
  split; [ exact (proj1 (proj2 H)) | exact (proj1 H) ].
Defined.

Lemma manual_launch_witness :
  mounted towerCanvas = true
  /\ lengthSquared (camDir (shot 100 1700000000100)) == 1
  /\ launchProjectile (finalLaunchPowerAfter 750) STANDARD
       (shot 100 1700000000100) towerCanvas
     = mkCanvas true (physicsObjects towerCanvas)
         (projectiles towerCanvas
          ++ [newProjectile (finalLaunchPowerAfter 750) STANDARD
                (shot 100 1700000000100)])
         (lastCallTime towerCanvas).
Proof.
  assert (Hunit : lengthSquared (camDir (shot 100 1700000000100)) == 1).
  { reflexivity. }
  split; [ reflexivity | ]. split; [ exact Hunit | ].
  exact (proj1 (manual_launch 750 STANDARD (shot 100 1700000000100)
                  towerCanvas eq_refl Hunit)).
Defined.

(** * The game state of [App] *)

Module AppFacts.
Import App.

Lemma countOf_setCount (c : Counts) (t t' : ProjectileType) (n : Z) :
  countOf (setCount c t n) t'
  = if ProjectileType_eqb t t' then n else countOf c t'.
Proof. destruct t, t'; reflexivity. Qed.

Lemma ProjectileType_eqb_eq (a b : ProjectileType) :
  ProjectileType_eqb a b = true <-> a = b.
Proof. destruct a, b; simpl; split; congruence. Qed.

Lemma ProjectileType_eqb_refl (a : ProjectileType) :
  ProjectileType_eqb a a = true.
Proof. now destruct a. Qed.

Lemma default_counts :
  getDefaultProjectileCounts = mkCounts 5 3 2 2.
Proof. reflexivity. Qed.

Lemma move_keeps (m : Move) (gs : GameState) :
  score (move m gs) = score gs
  /\ currentLevelIndex (move m gs) = currentLevelIndex gs
  /\ isGameOver (move m gs) = isGameOver gs
  /\ isLevelWon (move m gs) = isLevelWon gs.
Proof.
  destruct m as [d pw t | t]; simpl.
  - now repeat split.
  - unfold handleSelectProjectileType. destruct (_ || _); now repeat split.
Qed.

Lemma move_consistent (m : Move) (gs : GameState) :
  consistent gs -> consistent (move m gs).
Proof.
  intro H. destruct m as [d pw t | t]; simpl.
  - reflexivity.
  - unfold handleSelectProjectileType. destruct (_ || _); [ reflexivity | exact H ].
Qed.

Lemma move_counts (m : Move) (gs : GameState) (t : ProjectileType) :
  countOf (projectileCounts (move m gs)) t
  = match m with
    | Shoot _ _ type =>
        if ProjectileType_eqb type t
        then Z.max 0 (countOf (projectileCounts gs) t - 1)
        else countOf (projectileCounts gs) t
    | Pick _ => countOf (projectileCounts gs) t
    end.
Proof.
  destruct m as [d pw type | type]; simpl.
  - rewrite countOf_setCount.
    destruct (ProjectileType_eqb type t) eqn:E; [ | reflexivity ].
    apply ProjectileType_eqb_eq in E. now subst.
  - unfold handleSelectProjectileType. now destruct (_ || _).
Qed.

Lemma play_cons (m : Move) (moves : list Move) (gs : GameState) :
  play (m :: moves) gs = play moves (move m gs).
Proof. reflexivity. Qed.

Lemma shotsOf_cons (t : ProjectileType) (m : Move) (moves : list Move) :
  shotsOf t (m :: moves)
  = ((match m with
      | Shoot _ _ type => if ProjectileType_eqb type t then 1 else 0
      | Pick _ => 0
      end) + shotsOf t moves)%Z.
Proof.
  unfold shotsOf. simpl.
  destruct m as [d pw type | type]; [ | reflexivity ].
  destruct (ProjectileType_eqb type t); [ | reflexivity ].
  simpl List.length. lia.
Qed.

Lemma shotsOf_nonneg (t : ProjectileType) (moves : list Move) :
  (0 <= shotsOf t moves)%Z.
Proof. unfold shotsOf. lia. Qed.

(** X15. Ammunition over any sequence of launches and selections: the count
    of each type is its count at the start less the number of launches of
    that type, but never below zero; the number shown for the selected type
    follows its count; score, level and the end flags are not touched. *)
Theorem ammunition_accounting (moves : list Move) :
  forall (gs : GameState)
         (Hstocked : stocked (projectileCounts gs))
         (Hconsistent : consistent gs),
    (forall t,
        countOf (projectileCounts (play moves gs)) t
        = Z.max 0 (countOf (projectileCounts gs) t - shotsOf t moves))
    /\ stocked (projectileCounts (play moves gs))
    /\ consistent (play moves gs)
    /\ score (play moves gs) = score gs
    /\ currentLevelIndex (play moves gs) = currentLevelIndex gs
    /\ isGameOver (play moves gs) = isGameOver gs
    /\ isLevelWon (play moves gs) = isLevelWon gs.
Proof.
  induction moves as [| m rest IH]; intros gs Hst Hco.
  - simpl. repeat split; try assumption.
    intro t. specialize (Hst t). unfold shotsOf. simpl. lia.
  - rewrite play_cons.
    assert (Hst1 : stocked (projectileCounts (move m gs))).
    { intro t. rewrite move_counts. specialize (Hst t).
      destruct m as [d pw type | type]; [ | exact Hst ].
      destruct (ProjectileType_eqb type t); lia. }
    destruct (IH (move m gs) Hst1 (move_consistent m gs Hco))
      as (Hc & Hs & Hk & H1 & H2 & H3 & H4).
    destruct (move_keeps m gs) as (K1 & K2 & K3 & K4).
    repeat split; try assumption; try congruence.
    intro t. rewrite Hc, move_counts, shotsOf_cons.
    pose proof (shotsOf_nonneg t rest) as Hn. specialize (Hst t).
    destruct m as [d pw type | type]; [ | lia ].
    destruct (ProjectileType_eqb type t); lia.
Qed.

(** ** Starting a level *)

Lemma levelAt_Some (levels : list Level) (index : Z) :
  (0 <= index < levelCount levels)%Z ->
  exists l, levelAt levels index = Some l.
Proof.
  intros [H0 H1]. unfold levelAt, levelCount in *.
  destruct (Z.ltb_spec index 0) as [Hn | _]; [ lia | ].
  destruct (nth_error levels (Z.to_nat index)) as [l |] eqn:E;
    [ now exists l | ].
  apply nth_error_None in E. lia.
Qed.

Lemma levelAt_range (levels : list Level) (index : Z) (l : Level) :
  levelAt levels index = Some l -> (0 <= index < levelCount levels)%Z.
Proof.
  unfold levelAt, levelCount.
  destruct (Z.ltb_spec index 0) as [Hn | Hp]; [ discriminate | ].
  intro H. assert (Hlt : (Z.to_nat index < List.length levels)%nat).
  { apply nth_error_Some. congruence. }
  lia.
Qed.

Lemma setupLevel_fields (levels : list Level) (selected : ProjectileType)
  (delegate : bool) (levelIndex : Z) (prev : GameState) :
  levels <> [] ->
  let gs := setupLevel levels selected delegate levelIndex prev in
  currentLevelIndex gs
  = (if Z.leb 0 levelIndex && Z.ltb levelIndex (levelCount levels)
     then levelIndex else 0%Z)
  /\ score gs = 0%Z /\ isGameOver gs = false /\ isLevelWon gs = false
  /\ projectileCounts gs = getDefaultProjectileCounts
  /\ selectedProjectileType gs = selected
  /\ projectilesLeft gs = countOf getDefaultProjectileCounts selected.
Proof.
  intro Hne. destruct levels as [| l0 rest]; [ congruence | ].
  simpl. now repeat split.
Qed.

Lemma setupLevel_index_valid (levels : list Level) (selected : ProjectileType)
  (delegate : bool) (levelIndex : Z) (prev : GameState) :
  levels <> [] ->
  (0 <= currentLevelIndex (setupLevel levels selected delegate levelIndex prev)
   < levelCount levels)%Z.
Proof.
  intro Hne.
  destruct (setupLevel_fields levels selected delegate levelIndex prev Hne)
    as (Hi & _).
  rewrite Hi.
  assert (Hpos : (0 < levelCount levels)%Z).
  { unfold levelCount. destruct levels; [ congruence | simpl; lia ]. }
  destruct (Z.leb_spec 0 levelIndex), (Z.ltb_spec levelIndex (levelCount levels));
    simpl; lia.
Qed.

Lemma levelAt_map {A : Type} (f : Level -> A) (levels : list Level)
  (index : Z) :
  option_map f (levelAt levels index)
  = if Z.ltb index 0 then None
    else nth_error (map f levels) (Z.to_nat index).
Proof.
  unfold levelAt. destruct (Z.ltb index 0); [ reflexivity | ].
  now rewrite nth_error_map.
Qed.

(** X16. [setupLevel] from any state.  With no playable level the game is
    over and no charge can start.  Otherwise the level index is the requested
    one when that names a level and 0 when it does not, so it always names a
    level; the score is zero, the end flags are off, every type holds its
    default count (5, 3, 2, 2) whatever the level declares, the selected
    type is kept, and a charge can start exactly when the delegate mode is
    off.  The state depends on the levels only through their names and
    start messages. *)
Theorem setup_level (levels : list Level) (selected : ProjectileType)
  (delegate : bool) (levelIndex : Z) (prev : GameState) :
  let gs := setupLevel levels selected delegate levelIndex prev in
  (levels = [] ->
   isGameOver gs = true /\ projectilesLeft gs = 0%Z
   /\ canAttemptCharge gs delegate = false)
  /\ (levels <> [] ->
      ((0 <= levelIndex < levelCount levels)%Z ->
       currentLevelIndex gs = levelIndex)
      /\ (~ (0 <= levelIndex < levelCount levels)%Z ->
          currentLevelIndex gs = 0%Z)
      /\ (exists l,
             levelAt levels (currentLevelIndex gs) = Some l
             /\ (delegate = false ->
                 gameMessage gs = openingMessage (currentLevelIndex gs) l))
      /\ score gs = 0%Z /\ isGameOver gs = false /\ isLevelWon gs = false
      /\ projectileCounts gs = mkCounts 5 3 2 2
      /\ selectedProjectileType gs = selected
      /\ consistent gs
      /\ canAttemptCharge gs delegate = negb delegate)
  /\ (forall levels',
         map name levels' = map name levels ->
         map startMessage levels' = map startMessage levels ->
         setupLevel levels' selected delegate levelIndex prev = gs).
Proof.
  intro gs. split; [ | split ].
  - intros ->. now repeat split.
  - intro Hne.
    destruct (setupLevel_fields levels selected delegate levelIndex prev Hne)
      as (Hi & Hs & Ho & Hw & Hc & Hsel & Hleft).
    fold gs in Hi, Hs, Ho, Hw, Hc, Hsel, Hleft.
    pose proof (setupLevel_index_valid levels selected delegate levelIndex
                  prev Hne) as Hvalid. fold gs in Hvalid.
    destruct (levelAt_Some levels _ Hvalid) as [l Hl].
    repeat split; try assumption.
    + intros [H0 H1]. rewrite Hi.
      destruct (Z.leb_spec 0 levelIndex), (Z.ltb_spec levelIndex (levelCount levels));
        simpl; lia.
    + intro Hout. rewrite Hi.
      destruct (Z.leb_spec 0 levelIndex), (Z.ltb_spec levelIndex (levelCount levels));
        simpl; lia.
    + exists l. split; [ exact Hl | ]. intros ->.
      rewrite Hi in Hl. unfold gs in *.
      destruct levels as [| l0 rest]; [ congruence | ].
      cbn [setupLevel gameMessage currentLevelIndex].
      now rewrite Hl.
    + unfold consistent. now rewrite Hleft, Hc, Hsel.
    + unfold canAttemptCharge. rewrite Hleft, Ho, Hw.
      destruct selected; reflexivity.
  - intros levels' Hn Hm. unfold gs.
    assert (Hlen : List.length levels' = List.length levels).
    { rewrite <- (length_map name levels'), Hn. apply length_map. }
    destruct levels as [| l0 rest], levels' as [| l0' rest'];
      try discriminate Hlen; [ reflexivity | ].
    unfold setupLevel, levelCount. rewrite Hlen.
    set (targetIndex := if _ && _ then levelIndex else 0%Z).
    assert (Hmsg : option_map (openingMessage targetIndex)
                     (levelAt (l0' :: rest') targetIndex)
                   = option_map (openingMessage targetIndex)
                       (levelAt (l0 :: rest) targetIndex)).
    { pose proof (levelAt_map name (l0' :: rest') targetIndex) as A1.
      pose proof (levelAt_map name (l0 :: rest) targetIndex) as A2.
      pose proof (levelAt_map startMessage (l0' :: rest') targetIndex) as B1.
      pose proof (levelAt_map startMessage (l0 :: rest) targetIndex) as B2.
      rewrite Hn, <- A2 in A1. rewrite Hm, <- B2 in B1.
      destruct (levelAt (l0' :: rest') targetIndex) as [a |],
               (levelAt (l0 :: rest) targetIndex) as [b |];
        simpl in *; try congruence.
      unfold openingMessage. injection A1 as ->. injection B1 as ->.
      reflexivity. }
    destruct (levelAt (l0' :: rest') targetIndex) as [a |],
             (levelAt (l0 :: rest) targetIndex) as [b |];
      simpl in Hmsg; try congruence.
    now injection Hmsg as ->.
Qed.

Lemma levelCount_nonempty (levels : list Level) :
  (0 < levelCount levels)%Z -> levels <> [].
Proof. destruct levels; [ unfold levelCount; simpl; lia | discriminate ]. Qed.

Lemma advance_succ (levels : list Level) (delegate : bool) (n : nat)
  (gs : GameState) :
  advance levels delegate (S n) gs
  = handleNextLevel levels delegate (advance levels delegate n gs)
      (advance levels delegate n gs).
Proof. reflexivity. Qed.

(** X17. [handleNextLevel] never leaves the list of levels: called [n] times
    from a state whose index names a level, it leaves the index at the
    smaller of the index plus [n] and the last index; on the last level it
    changes nothing at all. *)
Theorem next_level_stops_at_last (levels : list Level) (delegate : bool)
  (n : nat) (gs : GameState)
  (Hvalid : (0 <= currentLevelIndex gs < levelCount levels)%Z) :
  currentLevelIndex (advance levels delegate n gs)
  = Z.min (currentLevelIndex gs + Z.of_nat n) (levelCount levels - 1)
  /\ (currentLevelIndex gs = (levelCount levels - 1)%Z ->
      advance levels delegate n gs = gs).
Proof.
  assert (Hne : levels <> []) by (apply levelCount_nonempty; lia).
  split.
  - induction n as [| n IH]; [ simpl; lia | ].
    rewrite advance_succ. unfold handleNextLevel.
    set (s := advance levels delegate n gs) in *.
    destruct (Z.ltb_spec (currentLevelIndex s) (levelCount levels - 1))
      as [Hlt | Hge].
    + destruct (setupLevel_fields levels (selectedProjectileType s) delegate
                  (currentLevelIndex s + 1) s Hne) as (Hi & _).
      rewrite Hi.
      destruct (Z.leb_spec 0 (currentLevelIndex s + 1)),
               (Z.ltb_spec (currentLevelIndex s + 1) (levelCount levels));
        simpl; lia.
    + lia.
  - intro Hlast. induction n as [| n IH]; [ reflexivity | ].
    rewrite advance_succ, IH. unfold handleNextLevel.
    destruct (Z.ltb_spec (currentLevelIndex gs) (levelCount levels - 1));
      [ lia | reflexivity ].
Qed.

(** ** Fallen blocks *)

Lemma existsb_eqb_In (x : string) (l : list string) :
  existsb (String.eqb x) l = true <-> In x l.
Proof.
  rewrite existsb_exists. split.
  - intros [y [Hin Heq]]. apply String.eqb_eq in Heq. now subst.
  - intro Hin. exists x. split; [ exact Hin | apply String.eqb_refl ].
Qed.

Lemma addFallen_NoDup (prev : list string) (blockId : string) :
  NoDup prev -> NoDup (addFallen prev blockId).
Proof.
  intro H. unfold addFallen.
  destruct (existsb (String.eqb blockId) prev) eqn:E; [ exact H | ].
  apply NoDup_app; [ exact H | repeat constructor; intros [] | ].
  intros x Hin [<- | []].
  apply existsb_eqb_In in Hin. congruence.
Qed.

Lemma addFallen_In (prev : list string) (blockId b : string) :
  In b (addFallen prev blockId) <-> In b prev \/ b = blockId.
Proof.
  unfold addFallen.
  destruct (existsb (String.eqb blockId) prev) eqn:E.
  - apply existsb_eqb_In in E. split; [ now left | ].
    intros [H | ->]; assumption.
  - rewrite in_app_iff. simpl. intuition congruence.
Qed.

Lemma handleBlockFallen_counted (levels : list Level) (r : FallReport)
  (st : GameState * list string) :
  handleBlockFallen levels (snapshotAt r) (fallenAt r) (fallenBlock r)
    (fallenKing r) st
  = if counted r
    then (scoreFall levels (fallenKing r) (fst st),
          addFallen (snd st) (fallenBlock r))
    else st.
Proof.
  unfold handleBlockFallen, counted. now destruct (fallIgnored _ _ _).
Qed.

Lemma reportFalls_cons (levels : list Level) (r : FallReport)
  (reports : list FallReport) (st : GameState * list string) :
  reportFalls levels (r :: reports) st
  = reportFalls levels reports
      (handleBlockFallen levels (snapshotAt r) (fallenAt r) (fallenBlock r)
         (fallenKing r) st).
Proof. reflexivity. Qed.

Lemma countedFalls_cons (king : bool) (r : FallReport)
  (reports : list FallReport) :
  countedFalls king (r :: reports)
  = ((if counted r && Bool.eqb (fallenKing r) king then 1 else 0)
     + countedFalls king reports)%Z.
Proof.
  unfold countedFalls. cbn [filter].
  destruct (counted r && Bool.eqb (fallenKing r) king); [ | reflexivity ].
  cbn [List.length]. lia.
Qed.

Lemma countedFalls_nonneg (king : bool) (reports : list FallReport) :
  (0 <= countedFalls king reports)%Z.
Proof. unfold countedFalls. lia. Qed.

Lemma reportFalls_closed_form (levels : list Level)
  (reports : list FallReport) :
  forall st : GameState * list string,
    let st' := reportFalls levels reports st in
    let last := Z.eqb (currentLevelIndex (fst st)) (levelCount levels - 1) in
    score (fst st')
    = (score (fst st) + 10 * countedFalls false reports
       + 100 * countedFalls true reports)%Z
    /\ isLevelWon (fst st')
       = isLevelWon (fst st) || Z.ltb 0 (countedFalls true reports)
    /\ isGameOver (fst st')
       = isGameOver (fst st)
         || (Z.ltb 0 (countedFalls true reports) && last)
    /\ projectileCounts (fst st') = projectileCounts (fst st)
    /\ projectilesLeft (fst st') = projectilesLeft (fst st)
    /\ selectedProjectileType (fst st') = selectedProjectileType (fst st)
    /\ currentLevelIndex (fst st') = currentLevelIndex (fst st)
    /\ (NoDup (snd st) -> NoDup (snd st'))
    /\ (forall b, In b (snd st')
                  <-> In b (snd st)
                      \/ exists r, In r reports /\ counted r = true
                                   /\ fallenBlock r = b).
Proof.
  induction reports as [| r rest IH]; intro st.
  - cbv zeta. unfold reportFalls, countedFalls. cbn [fold_left filter].
    cbn [List.length Z.of_nat Z.ltb Z.compare andb].
    rewrite !orb_false_r.
    repeat split; try lia; try tauto.
    intros [H | [r [[] _]]]. exact H.
  - cbv zeta. rewrite reportFalls_cons, handleBlockFallen_counted.
    rewrite !countedFalls_cons.
    pose proof (countedFalls_nonneg true rest) as Hg.
    destruct (counted r) eqn:Ec.
    + specialize (IH (scoreFall levels (fallenKing r) (fst st),
                      addFallen (snd st) (fallenBlock r))).
      cbv zeta in IH. cbn [fst snd] in IH.
      destruct IH as (A & B & C & D & E & F & G & H & I).
      cbn [scoreFall score isLevelWon isGameOver projectileCounts
           projectilesLeft selectedProjectileType currentLevelIndex]
        in A, B, C, D, E, F, G.
      cbn [andb].
      split; [ rewrite A; unfold POINTS_PER_KING, POINTS_PER_BLOCK;
               destruct (fallenKing r); cbn [Bool.eqb]; lia | ].
      split.
      { rewrite B. destruct (fallenKing r); cbn [Bool.eqb].
        - assert (Hpos : Z.ltb 0 (1 + countedFalls true rest) = true)
            by (apply Z.ltb_lt; lia).
          rewrite Hpos. now rewrite !orb_true_r.
        - reflexivity. }
      split.
      { rewrite C. destruct (fallenKing r); cbn [Bool.eqb].
        - assert (Hpos : Z.ltb 0 (1 + countedFalls true rest) = true)
            by (apply Z.ltb_lt; lia).
          rewrite Hpos. cbn [andb].
          destruct (Z.eqb (currentLevelIndex (fst st)) (levelCount levels - 1));
            [ now rewrite !orb_true_r
            | now rewrite andb_false_r, !orb_false_r ].
        - reflexivity. }
      split; [ exact D | ]. split; [ exact E | ]. split; [ exact F | ].
      split; [ exact G | ].
      split; [ intro Hnd; now apply H, addFallen_NoDup | ].
      intro b. rewrite I, addFallen_In. split.
      * intros [[Hin | ->] | [r' (Hr' & Hc' & Hb')]].
        -- now left.
        -- right. exists r. split; [ now left | now split ].
        -- right. exists r'. split; [ now right | now split ].
      * intros [Hin | [r' ([<- | Hr'] & Hc' & Hb')]].
        -- left. now left.
        -- left. right. now symmetry.
        -- right. exists r'. now split.
    + specialize (IH st). cbv zeta in IH.
      destruct IH as (A & B & C & D & E & F & G & H & I).
      cbn [andb].
      split; [ rewrite A; lia | ].
      split; [ exact B | ]. split; [ exact C | ].
      split; [ exact D | ]. split; [ exact E | ]. split; [ exact F | ].
      split; [ exact G | ]. split; [ exact H | ].
      intro b. rewrite I. split.
      * intros [Hin | [r' (Hr' & Hc' & Hb')]]; [ now left | ].
        right. exists r'. split; [ now right | now split ].
      * intros [Hin | [r' ([<- | Hr'] & Hc' & Hb')]];
          [ now left | congruence | ].
        right. exists r'. now split.
Qed.

Lemma frameReports_counted (snapshot : GameState)
  (fallenBlockIds : list string) (falls : list (string * bool))
  (king : bool) :
  isGameOver snapshot = false -> isLevelWon snapshot = false ->
  (forall f, In f falls -> ~ In (fst f) fallenBlockIds) ->
  countedFalls king (frameReports snapshot fallenBlockIds falls)
  = fallsOf king falls.
Proof.
  intros Ho Hw Hnew. unfold countedFalls, fallsOf, frameReports. f_equal.
  induction falls as [| f rest IH]; [ reflexivity | ].
  cbn [map filter]. unfold counted at 1, fallIgnored.
  cbn [snapshotAt fallenAt fallenBlock fallenKing]. rewrite Ho, Hw.
  assert (Hf : existsb (String.eqb (fst f)) fallenBlockIds = false).
  { apply not_true_iff_false. rewrite existsb_eqb_In.
    apply Hnew. now left. }
  rewrite Hf. cbn [orb negb andb].
  assert (Hrest : forall f0, In f0 rest -> ~ In (fst f0) fallenBlockIds).
  { intros f0 H0. apply Hnew. now right. }
  destruct (Bool.eqb (snd f) king); cbn [List.length];
    now rewrite (IH Hrest).
Qed.

Lemma reportFalls_closed (levels : list Level) (snapshot : GameState)
  (fallenBlockIds : list string) (falls : list (string * bool))
  (st : GameState * list string) :
  isGameOver snapshot = true \/ isLevelWon snapshot = true ->
  reportFalls levels (frameReports snapshot fallenBlockIds falls) st = st.
Proof.
  intro Hclosed.
  assert (H0 : isGameOver snapshot || isLevelWon snapshot = true).
  { destruct Hclosed as [-> | ->]; [ reflexivity | apply orb_true_r ]. }
  unfold reportFalls, frameReports.
  induction falls as [| f rest IH]; [ reflexivity | ].
  cbn [map fold_left]. unfold handleBlockFallen at 2, fallIgnored.
  cbn [snapshotAt fallenAt fallenBlock fallenKing].
  rewrite H0. cbn [orb]. exact IH.
Qed.

(** X18. Fall reports, each handled with whatever snapshot of the game state
    and whatever set of fallen blocks its callback reads.  A report is
    counted when its snapshot is neither over nor won and its set does not
    hold the block.  The score grows by 10 for every counted report of a
    block and by 100 for every counted report of a golden block; the level
    is won when a golden report was counted, or was won before; the game is
    over when it was over before, or a golden report was counted on the last
    level; the set of fallen blocks gains the blocks of the counted reports
    and never holds one twice; ammunition and level index are not touched.
    The reports of one frame share one snapshot and one set: with the level
    open and no block in the set every one of them is counted, so two golden
    blocks falling in one frame score 200; with the level won or over none
    is. *)
Theorem fall_scoring (levels : list Level) (reports : list FallReport)
  (st : GameState * list string) :
  let st' := reportFalls levels reports st in
  let last := Z.eqb (currentLevelIndex (fst st)) (levelCount levels - 1) in
  score (fst st')
  = (score (fst st) + 10 * countedFalls false reports
     + 100 * countedFalls true reports)%Z
  /\ isLevelWon (fst st')
     = isLevelWon (fst st) || Z.ltb 0 (countedFalls true reports)
  /\ isGameOver (fst st')
     = isGameOver (fst st) || (Z.ltb 0 (countedFalls true reports) && last)
  /\ projectileCounts (fst st') = projectileCounts (fst st)
  /\ projectilesLeft (fst st') = projectilesLeft (fst st)
  /\ currentLevelIndex (fst st') = currentLevelIndex (fst st)
  /\ (NoDup (snd st) -> NoDup (snd st'))
  /\ (forall b, In b (snd st')
                <-> In b (snd st)
                    \/ exists r, In r reports /\ counted r = true
                                 /\ fallenBlock r = b)
  /\ (forall snapshot fallenBlockIds falls,
         reports = frameReports snapshot fallenBlockIds falls ->
         (isGameOver snapshot = false -> isLevelWon snapshot = false ->
          (forall f, In f falls -> ~ In (fst f) fallenBlockIds) ->
          score (fst st')
          = (score (fst st) + 10 * fallsOf false falls
             + 100 * fallsOf true falls)%Z)
         /\ (isGameOver snapshot = true \/ isLevelWon snapshot = true ->
             st' = st)).
Proof.
  intros st' last.
  destruct (reportFalls_closed_form levels reports st)
    as (A & B & C & D & E & F & G & H & I).
  fold st' in A, B, C, D, E, F, G, H, I.
  split; [ exact A | ]. split; [ exact B | ]. split; [ exact C | ].
  split; [ exact D | ]. split; [ exact E | ]. split; [ exact G | ].
  split; [ exact H | ]. split; [ exact I | ].
  intros snapshot fallenBlockIds falls ->. split.
  - intros Ho Hw Hnew.
    now rewrite A, !(frameReports_counted snapshot fallenBlockIds falls _
                       Ho Hw Hnew).
  - intro Hclosed. apply reportFalls_closed, Hclosed.
Qed.

(** ** Running out of ammunition *)

Lemma stocked_total_zero (c : Counts) :
  stocked c ->
  (totalProjectilesLeft c = 0%Z <-> forall t, countOf c t = 0%Z).
Proof.
  intro H. unfold totalProjectilesLeft.
  pose proof (H STANDARD) as H1. pose proof (H HEAVY) as H2.
  pose proof (H EXPLOSIVE) as H3. pose proof (H CLUSTER) as H4.
  simpl in *. split.
  - intros Hsum t. destruct t; simpl; lia.
  - intro Hall.
    pose proof (Hall STANDARD). pose proof (Hall HEAVY).
    pose proof (Hall EXPLOSIVE). pose proof (Hall CLUSTER).
    simpl in *. lia.
Qed.

(** X19. The effect that watches the ammunition, for counts that are not
    negative.  It fires exactly when every count is zero, the level is
    neither won nor over and there is a level; it then ends the game, which
    closes the charge gate, and touches nothing but the message; once it has
    fired it does not fire again. *)
Theorem out_of_ammunition (levels : list Level) (delegateRef : bool)
  (gs : GameState)
  (Hstocked : stocked (projectileCounts gs)) :
  let gs' := ammunitionEffect levels delegateRef gs gs in
  (outOfAmmunition levels gs = true
   <-> (forall t, countOf (projectileCounts gs) t = 0%Z)
       /\ isLevelWon gs = false /\ isGameOver gs = false /\ levels <> [])
  /\ (isGameOver gs' = true
      <-> isGameOver gs = true \/ outOfAmmunition levels gs = true)
  /\ (outOfAmmunition levels gs = true ->
      forall delegate, canAttemptCharge gs' delegate = false)
  /\ (outOfAmmunition levels gs = false -> gs' = gs)
  /\ score gs' = score gs
  /\ projectileCounts gs' = projectileCounts gs
  /\ projectilesLeft gs' = projectilesLeft gs
  /\ selectedProjectileType gs' = selectedProjectileType gs
  /\ currentLevelIndex gs' = currentLevelIndex gs
  /\ isLevelWon gs' = isLevelWon gs
  /\ ammunitionEffect levels delegateRef gs' gs' = gs'.
Proof.
  intro gs'.
  assert (Hfire : outOfAmmunition levels gs = true
                  <-> (forall t, countOf (projectileCounts gs) t = 0%Z)
                      /\ isLevelWon gs = false /\ isGameOver gs = false
                      /\ levels <> []).
  { unfold outOfAmmunition.
    rewrite !andb_true_iff, !negb_true_iff, Z.eqb_eq, Z.ltb_lt,
      (stocked_total_zero _ Hstocked).
    unfold levelCount. destruct levels as [| l0 rest]; simpl List.length.
    - split.
      + intros (((_ & _) & _) & Hl). simpl in Hl. lia.
      + intros (_ & _ & _ & Hne). congruence.
    - split.
      + intros (((A & B) & C) & _). repeat split; try assumption.
        discriminate.
      + intros (A & B & C & _). repeat split; assumption || lia. }
  split; [ exact Hfire | ].
  unfold gs', ammunitionEffect.
  destruct (outOfAmmunition levels gs) eqn:E.
  - cbn [isGameOver score projectileCounts projectilesLeft
         selectedProjectileType currentLevelIndex isLevelWon].
    repeat split; try tauto; try discriminate.
    + intro delegate. unfold canAttemptCharge. cbn [isGameOver].
      now rewrite andb_false_r.
    + unfold outOfAmmunition. cbn [isGameOver]. simpl negb.
      now rewrite andb_false_r.
  - repeat split; try tauto; try discriminate.
    + intros [H | H]; [ exact H | discriminate H ].
    + now rewrite E.
Qed.

(** ** The projectile selector *)

(** X20. The selector and the reducer agree, for counts that are not
    negative: a button the selector leaves enabled selects its type and shows
    the count of that type; a button it disables for want of ammunition
    would be refused by the reducer as well; while the selector is disabled
    as a whole every button is. *)
Theorem selector_matches_reducer (gs : GameState) (config : ProjectileConfig)
  (Hstocked : stocked (projectileCounts gs)) :
  let enabled :=
    negb (selectorDisabled false (projectileCounts gs)
            (selectedProjectileType gs) config) in
  let gs' := handleSelectProjectileType (pcId config) gs in
  (enabled = true ->
   selectedProjectileType gs' = pcId config
   /\ projectilesLeft gs' = countOf (projectileCounts gs) (pcId config)
   /\ projectileCounts gs' = projectileCounts gs)
  /\ (enabled = false ->
      gs' = gs /\ countOf (projectileCounts gs) (pcId config) = 0%Z
      /\ selectedProjectileType gs <> pcId config)
  /\ selectorDisabled true (projectileCounts gs) (selectedProjectileType gs)
       config = true.
Proof.
  intros enabled gs'. unfold enabled, gs', selectorDisabled,
    handleSelectProjectileType.
  specialize (Hstocked (pcId config)).
  set (count := countOf (projectileCounts gs) (pcId config)) in *.
  cbn [orb].
  destruct (ProjectileType_eqb (pcId config) (selectedProjectileType gs))
    eqn:Esel.
  - rewrite orb_true_r, andb_false_r. simpl.
    repeat split; discriminate.
  - rewrite orb_false_r, andb_true_r.
    destruct (Z.eqb_spec count 0) as [Hz | Hnz]; simpl.
    + assert (E : Z.ltb 0 count = false) by (apply Z.ltb_ge; lia).
      rewrite E. repeat split; try discriminate; try assumption.
      intro Heq. symmetry in Heq. apply ProjectileType_eqb_eq in Heq.
      congruence.
    + assert (E : Z.ltb 0 count = true) by (apply Z.ltb_lt; lia).
      rewrite E. repeat split; discriminate.
Qed.

(** ** From the release of the pointer to the launch *)

Lemma Qmax_again (a b : Q) : Qmax a (Qmax a b) = Qmax a b.
Proof.
  unfold Qmax, GenericMinMax.gmax.
  destruct (a ?= b) eqn:E; try rewrite E; try reflexivity;
    now rewrite (proj1 (Qeq_alt a a) (Qeq_refl a)).
Qed.

Lemma finalLaunchPowerAfter_floor (elapsedTime : Q) :
  Qmax MIN_LAUNCH_POWER (finalLaunchPowerAfter elapsedTime)
  = finalLaunchPowerAfter elapsedTime.
Proof. unfold finalLaunchPowerAfter. apply Qmax_again. Qed.

Lemma percent_range (power : Q) :
  1 # 10 <= power <= 1 -> (10 <= percent power <= 100)%Z.
Proof.
  intros [Hlo Hhi]. unfold percent, mathRound. split.
  - apply (Qfloor_resp_le 10). lra.
  - apply (Qfloor_resp_le _ (201 # 2)). lra.
Qed.

(** X21. Press and release with the game state of one render, whose shown
    count follows the count of the selected type.  When [App] allows a
    charge, a press with the left button on the canvas (camera not dragged)
    starts one, and the release launches the selected type at exactly the
    power the canvas computed, between 10 and 100 percent, taking one
    projectile of that type if one is left.  When [App] does not allow a
    charge, the press starts nothing and the release reports nothing. *)
Theorem release_launches (ev : PointerDown) (t0 t1 : Q) (delegateRef : bool)
  (rendered prev : GameState)
  (Hconsistent : consistent rendered)
  (Hgate : chargeAllowed ev
           = canAttemptCharge rendered (isDelegateModeActive ev))
  (Hbutton : button ev = 0%Z)
  (Hcamera : isDraggingCamera ev = false)
  (Hcanvas : onCanvas ev = true) :
  let pressed := handlePointerDown ev t0 (mkCharge false 0) in
  let type := selectedProjectileType rendered in
  (canAttemptCharge rendered (isDelegateModeActive ev) = true ->
   exists power,
     snd (handlePointerUpGlobal t1 pressed) = Some power
     /\ power = finalLaunchPowerAfter (t1 - t0)
     /\ handleChargeComplete (isDelegateModeActive ev) delegateRef power
          rendered prev
        = handleLaunchProjectile delegateRef power type prev
     /\ (10 <= percent power <= 100)%Z
     /\ countOf (projectileCounts
                   (handleLaunchProjectile delegateRef power type prev)) type
        = Z.max 0 (countOf (projectileCounts prev) type - 1))
  /\ (canAttemptCharge rendered (isDelegateModeActive ev) = false ->
      pressed = mkCharge false 0
      /\ snd (handlePointerUpGlobal t1 pressed) = None).
Proof.
  intros pressed type. unfold pressed, handlePointerDown.
  unfold chargeAllowed in Hgate.
  rewrite Hbutton, Hcamera, Hcanvas, Hgate. cbn [Z.eqb negb isChargingActive].
  split.
  - intro Hcan. rewrite Hcan.
    unfold canAttemptCharge in Hcan.
    apply andb_true_iff in Hcan. destruct Hcan as [Hcan Hd].
    apply andb_true_iff in Hcan. destruct Hcan as [Hcan Hw].
    apply andb_true_iff in Hcan. destruct Hcan as [Hleft Ho].
    apply negb_true_iff in Hd. rewrite Hd. cbn [negb orb].
    exists (finalLaunchPowerAfter (t1 - t0)).
    pose proof (finalLaunchPowerAfter_range (t1 - t0)) as Hrange.
    split; [ reflexivity | ]. split; [ reflexivity | ].
    split; [ | split ].
    + unfold handleChargeComplete, canCurrentlyLaunch.
      rewrite <- Hconsistent, Hleft, Ho, Hw. cbn [andb negb].
      now rewrite finalLaunchPowerAfter_floor.
    + now apply percent_range.
    + cbn [handleLaunchProjectile projectileCounts].
      now rewrite countOf_setCount, ProjectileType_eqb_refl.
  - intro Hcannot. rewrite Hcannot. cbn [negb orb]. now split.
Qed.

(** ** The delegate mode *)

Lemma availableProjectileTypes_In (gs : GameState) (config : ProjectileConfig) :
  In config (availableProjectileTypes gs) ->
  In config PROJECTILE_TYPES_CONFIG
  /\ (0 < countOf (projectileCounts gs) (pcId config))%Z.
Proof.
  unfold availableProjectileTypes. rewrite filter_In, Z.ltb_lt. tauto.
Qed.

Lemma config_of_type (t : ProjectileType) :
  exists c, In c PROJECTILE_TYPES_CONFIG /\ pcId c = t.
Proof.
  pose (d := mkConfig STANDARD "" 0).
  destruct t;
    [ exists (nth 0 PROJECTILE_TYPES_CONFIG d)
    | exists (nth 1 PROJECTILE_TYPES_CONFIG d)
    | exists (nth 2 PROJECTILE_TYPES_CONFIG d)
    | exists (nth 3 PROJECTILE_TYPES_CONFIG d) ];
    (split; [ simpl; tauto | reflexivity ]).
Qed.

Lemma randomProjectileConfig_Some (gs : GameState) (random : Q) :
  availableProjectileTypes gs <> [] -> 0 <= random < 1 ->
  exists config, randomProjectileConfig gs random = Some config
                 /\ In config (availableProjectileTypes gs).
Proof.
  intros Hne [H0 H1]. unfold randomProjectileConfig.
  set (available := availableProjectileTypes gs) in *.
  set (n := Z.of_nat (List.length available)).
  assert (Hn : (0 < n)%Z).
  { unfold n. destruct available; [ congruence | simpl; lia ]. }
  assert (HnQ : 0 < inject_Z n).
  { change 0 with (inject_Z 0). now rewrite <- Zlt_Qlt. }
  assert (Hlo : (0 <= Qfloor (random * inject_Z n))%Z).
  { apply (Qfloor_resp_le 0). nra. }
  assert (Hhi : (Qfloor (random * inject_Z n) < n)%Z).
  { rewrite Zlt_Qlt.
    apply Qle_lt_trans with (random * inject_Z n); [ apply Qfloor_le | nra ]. }
  destruct (Z.ltb_spec (Qfloor (random * inject_Z n)) 0) as [Hneg | _];
    [ lia | ].
  destruct (nth_error available (Z.to_nat (Qfloor (random * inject_Z n))))
    as [config |] eqn:E.
  - exists config. split; [ reflexivity | ]. eapply nth_error_In, E.
  - apply nth_error_None in E. unfold n in *. lia.
Qed.

Lemma delegatePower_range (random : Q) :
  0 <= random < 1 -> 7 # 10 <= delegatePower random < 1.
Proof.
  intros [H0 H1]. unfold delegatePower, MIN_LAUNCH_POWER, MAX_LAUNCH_POWER.
  set (f := ((7 # 10) + random * (3 # 10)) * 1).
  assert (Hf : 7 # 10 <= f < 1) by (unfold f; split; lra).
  assert (Hmax : Qmax (1 # 10) f == f) by (apply Q.max_r; lra).
  assert (Hmin : Qmin 1 (Qmax (1 # 10) f) == f).
  { rewrite Hmax. apply Q.min_r. lra. }
  rewrite Hmin. exact Hf.
Qed.

(** X22. A round of the delegate mode with random numbers in [0, 1).  With
    no type left it turns the mode off and leaves the ammunition alone.
    Otherwise it picks a type that has ammunition left, selects it, and aims
    with a power of at least 0.7 and below 1, shown as 70 to 100 percent; the
    launch of its timer, if the mode is still on and the level still open,
    takes exactly one projectile of that type. *)
Theorem delegate_round (gs : GameState) (random1 random2 : Q) (aimed : bool)
  (Hrandom1 : 0 <= random1 < 1)
  (Hrandom2 : 0 <= random2 < 1) :
  ((forall t, (countOf (projectileCounts gs) t <= 0)%Z) ->
   exists gs', performDelegateAction gs random1 random2 aimed gs
               = Some (gs', false)
               /\ projectileCounts gs' = projectileCounts gs
               /\ selectedProjectileType gs' = selectedProjectileType gs)
  /\ ((exists t, (0 < countOf (projectileCounts gs) t)%Z) ->
      exists config gs',
        randomProjectileConfig gs random1 = Some config
        /\ performDelegateAction gs random1 random2 aimed gs
           = Some (gs', true)
        /\ In config PROJECTILE_TYPES_CONFIG
        /\ (0 < countOf (projectileCounts gs) (pcId config))%Z
        /\ selectedProjectileType gs' = pcId config
        /\ projectilesLeft gs' = countOf (projectileCounts gs) (pcId config)
        /\ projectileCounts gs' = projectileCounts gs
        /\ 7 # 10 <= delegatePower random2 < 1
        /\ (70 <= percent (delegatePower random2) <= 100)%Z
        /\ (isGameOver gs' = false -> isLevelWon gs' = false ->
            let shot := delegateLaunch true gs' (delegatePower random2)
                          (pcId config) gs' in
            countOf (projectileCounts shot) (pcId config)
            = (countOf (projectileCounts gs) (pcId config) - 1)%Z
            /\ projectilesLeft shot
               = (countOf (projectileCounts gs) (pcId config) - 1)%Z
            /\ forall t, t <> pcId config ->
                         countOf (projectileCounts shot) t
                         = countOf (projectileCounts gs) t)).
Proof.
  split.
  - intro Hnone.
    assert (Hav : availableProjectileTypes gs = []).
    { unfold availableProjectileTypes.
      destruct (filter _ _) as [| c rest] eqn:E; [ reflexivity | ].
      assert (Hin : In c (c :: rest)) by now left.
      rewrite <- E in Hin. apply filter_In in Hin. destruct Hin as [_ Hc].
      apply Z.ltb_lt in Hc. specialize (Hnone (pcId c)). lia. }
    unfold performDelegateAction. rewrite Hav.
    eexists. split; [ reflexivity | ]. now split.
  - intros [t Ht].
    assert (Hne : availableProjectileTypes gs <> []).
    { destruct (config_of_type t) as [c [Hc Ht']]. subst t.
      assert (Hin : In c (availableProjectileTypes gs)).
      { unfold availableProjectileTypes. apply filter_In.
        split; [ exact Hc | now apply Z.ltb_lt ]. }
      intro Hempty. rewrite Hempty in Hin. exact Hin. }
    destruct (randomProjectileConfig_Some gs random1 Hne Hrandom1)
      as [config [Hconfig Hin]].
    destruct (availableProjectileTypes_In gs config Hin) as [Hknown Hcount].
    pose proof (delegatePower_range random2 Hrandom2) as Hpower.
    assert (Haccept : handleSelectProjectileType (pcId config) gs
                      = mkGame (score gs)
                          (countOf (projectileCounts gs) (pcId config))
                          (projectileCounts gs) (pcId config) (isGameOver gs)
                          (gameMessage gs) (currentLevelIndex gs)
                          (isLevelWon gs)).
    { unfold handleSelectProjectileType.
      apply Z.ltb_lt in Hcount. now rewrite Hcount. }
    exists config. eexists.
    split; [ exact Hconfig | ].
    split.
    { unfold performDelegateAction. rewrite Hconfig.
      destruct (availableProjectileTypes gs); [ congruence | ].
      rewrite Haccept. reflexivity. }
    cbn [selectedProjectileType projectilesLeft projectileCounts isGameOver
         isLevelWon].
    repeat split; try assumption; try apply Hpower.
    + apply (Qfloor_resp_le 70). unfold percent.
      destruct Hpower as [Hlo _]. lra.
    + apply percent_range. destruct Hpower as [Hlo Hhi]. split; lra.
    + unfold delegateLaunch. cbn [isGameOver isLevelWon]. rewrite H, H0.
      cbn [andb negb handleLaunchProjectile projectileCounts].
      rewrite countOf_setCount, ProjectileType_eqb_refl. lia.
    + unfold delegateLaunch. cbn [isGameOver isLevelWon]. rewrite H, H0.
      cbn [andb negb handleLaunchProjectile projectileCounts projectilesLeft
           selectedProjectileType].
      rewrite countOf_setCount, ProjectileType_eqb_refl. lia.
    + intros t' Hneq. unfold delegateLaunch. cbn [isGameOver isLevelWon].
      rewrite H, H0.
      cbn [andb negb handleLaunchProjectile projectileCounts].
      rewrite countOf_setCount.
      destruct (ProjectileType_eqb (pcId config) t') eqn:E; [ | reflexivity ].
      apply ProjectileType_eqb_eq in E. congruence.
Qed.

(** ** The library of custom levels *)

Lemma sameId_refl (a : LevelId) : sameId a a = true.
Proof.
  destruct a as [s | n | | r]; simpl;
    [ apply String.eqb_refl | apply Qeq_bool_iff, Qeq_refl | reflexivity
    | apply Nat.eqb_refl ].
Qed.

Lemma sameId_sym (a b : LevelId) : sameId a b = sameId b a.
Proof.
  destruct a as [s | n | | r], b as [s' | n' | | r']; simpl;
    try reflexivity.
  - apply String.eqb_sym.
  - destruct (Qeq_bool n n') eqn:E, (Qeq_bool n' n) eqn:E'; try reflexivity.
    + apply Qeq_bool_iff in E. symmetry in E. apply Qeq_bool_iff in E.
      congruence.
    + apply Qeq_bool_iff in E'. symmetry in E'. apply Qeq_bool_iff in E'.
      congruence.
  - apply Nat.eqb_sym.
Qed.

Lemma findIndex_spec {A : Type} (f : A -> bool) (l : list A) :
  (findIndex f l = (-1)%Z /\ forall x, In x l -> f x = false)
  \/ (exists x,
         (0 <= findIndex f l < Z.of_nat (List.length l))%Z
         /\ nth_error l (Z.to_nat (findIndex f l)) = Some x
         /\ f x = true
         /\ forall j y, (j < Z.to_nat (findIndex f l))%nat ->
                        nth_error l j = Some y -> f y = false).
Proof.
  induction l as [| a rest IH]; [ left; split; [ reflexivity | intros x [] ] | ].
  cbn [findIndex]. destruct (f a) eqn:Ea.
  - right. exists a. simpl List.length.
    split; [ lia | ]. split; [ reflexivity | ]. split; [ exact Ea | ].
    intros j y Hj. simpl in Hj. lia.
  - destruct IH as [[Hnone Hall] | [x (Hr & Hn & Hx & Hfirst)]].
    + left. rewrite Hnone. simpl. split; [ reflexivity | ].
      intros x [<- | Hin]; [ exact Ea | now apply Hall ].
    + right. exists x.
      destruct (Z.eqb_spec (findIndex f rest) (-1)) as [Hm | _]; [ lia | ].
      simpl List.length.
      replace (Z.to_nat (findIndex f rest + 1))
        with (S (Z.to_nat (findIndex f rest))) by lia.
      split; [ lia | ]. split; [ exact Hn | ]. split; [ exact Hx | ].
      intros [| j] y Hj Hy.
      * simpl in Hy. now injection Hy as <-.
      * simpl in Hy. apply (Hfirst j y); [ lia | exact Hy ].
Qed.

Lemma commit_inStep (updated : list Level) (lib : Library) :
  inStep (commit true updated lib).
Proof. now split. Qed.

Lemma levelsChanged_playing (levels : list Level) (delegate : bool)
  (rendered prev : GameState) :
  levels <> [] ->
  exists l,
    levelAt levels (currentLevelIndex (levelsChanged levels delegate rendered prev))
    = Some l.
Proof.
  intro Hne. apply levelAt_Some.
  destruct levels as [| l0 rest]; [ congruence | ].
  unfold levelsChanged. apply setupLevel_index_valid. discriminate.
Qed.

Lemma predefined_playable (custom : list Level) :
  PREDEFINED_LEVELS ++ custom <> [].
Proof. discriminate. Qed.

Lemma operate_invariant (delegate : bool) (op : LibraryOp)
  (st : Library * GameState) :
  inStep (fst st) -> playing (fst st) (snd st) ->
  inStep (fst (operate delegate op st))
  /\ playing (fst (operate delegate op st)) (snd (operate delegate op st)).
Proof.
  intros Hstep Hplay. destruct st as [lib gs]. cbn [fst snd] in *.
  destruct op as [ok levelData original | ok imported | ok ident];
    cbn [operate fst snd].
  - unfold handleSaveCustomLevel. destruct ok; cbn [commit allPlayableLevels].
    + split; [ now split | ].
      apply levelsChanged_playing, predefined_playable.
    + now split.
  - unfold handleImportLibrary.
    destruct (Nat.ltb 0 _); [ | rewrite andb_false_r; now split ].
    destruct ok; cbn [commit andb allPlayableLevels].
    + split; [ now split | ].
      apply levelsChanged_playing, predefined_playable.
    + now split.
  - unfold handleDeleteCustomLevelFromLibrary.
    destruct ok; cbn [fst snd commit allPlayableLevels].
    + split; [ now split | ].
      apply levelsChanged_playing, predefined_playable.
    + now split.
Qed.

(** X23. Saving, importing and deleting, in any order and whether or not the
    storage accepts the write: the playable levels stay the predefined levels
    followed by the custom levels, so the three predefined levels are never
    removed or moved; the storage holds the custom levels; and the level
    index of the game keeps naming a playable level. *)
Theorem library_stays_in_step (delegate : bool) (ops : list LibraryOp) :
  forall (st : Library * GameState)
         (Hstep : inStep (fst st))
         (Hplaying : playing (fst st) (snd st)),
    let st' := operateAll delegate ops st in
    inStep (fst st')
    /\ playing (fst st') (snd st')
    /\ firstn 3 (allPlayableLevels (fst st')) = PREDEFINED_LEVELS
    /\ levelCount (allPlayableLevels (fst st'))
       = (3 + Z.of_nat (List.length (customLevels (fst st'))))%Z
    /\ stored (fst st') = Some (customLevels (fst st')).
Proof.
  induction ops as [| op rest IH]; intros st Hstep Hplaying.
  - cbv zeta. unfold operateAll. cbn [fold_left].
    destruct Hstep as [Hall Hstored].
    repeat split; try assumption.
    + now rewrite Hall.
    + rewrite Hall. unfold levelCount. rewrite length_app.
      change (List.length PREDEFINED_LEVELS) with 3%nat. lia.
  - destruct (operate_invariant delegate op st Hstep Hplaying) as [H1 H2].
    exact (IH (operate delegate op st) H1 H2).
Qed.

Lemma validNewLevels_filter (existing : list Level)
  (file : list ImportedLevel) :
  validNewLevels existing file
  = filter (fun l => negb (isDuplicate existing l)) (validLevels file).
Proof.
  induction file as [| i rest IH]; [ reflexivity | ].
  cbn [validNewLevels validLevels].
  destruct (importedAsLevel i) as [l |]; [ | exact IH ].
  cbn [filter]. destruct (isDuplicate existing l); cbn [negb];
    now rewrite IH.
Qed.

Lemma validLevels_In (file : list ImportedLevel) (l : Level) :
  In l (validLevels file)
  <-> exists i, In i file /\ importedAsLevel i = Some l.
Proof.
  induction file as [| i rest IH]; simpl.
  - split; [ intros [] | intros [i [[] _]] ].
  - destruct (importedAsLevel i) as [l0 |] eqn:Ei.
    + simpl. rewrite IH. split.
      * intros [<- | [j [Hj Hl]]].
        -- exists i. split; [ now left | exact Ei ].
        -- exists j. split; [ now right | exact Hl ].
      * intros [j [[<- | Hj] Hl]].
        -- left. congruence.
        -- right. now exists j.
    + rewrite IH. split.
      * intros [j [Hj Hl]]. exists j. split; [ now right | exact Hl ].
      * intros [j [[<- | Hj] Hl]]; [ congruence | now exists j ].
Qed.

Lemma validNewLevels_In (existing : list Level)
  (importedLevels : list ImportedLevel) (l : Level) :
  In l (validNewLevels existing importedLevels)
  <-> exists i, In i importedLevels /\ importedAsLevel i = Some l
                /\ isDuplicate existing l = false.
Proof.
  rewrite validNewLevels_filter, filter_In, validLevels_In, negb_true_iff.
  split.
  - intros [[i [Hi Hl]] Hd]. exists i. now repeat split.
  - intros [i (Hi & Hl & Hd)]. split; [ now exists i | exact Hd ].
Qed.

Lemma importedAsLevel_truthy (i : ImportedLevel) (l : Level) :
  importedAsLevel i = Some l ->
  truthyId (levelId l) = true /\ truthyName (name l) = true
  /\ importedId i = Some (levelId l) /\ importedName i = Some (name l)
  /\ importedStructure i = Some (blocks l)
  /\ importedProjectiles i = Some (initialProjectiles l).
Proof.
  unfold importedAsLevel.
  destruct (importedId i) as [ident |]; [ | discriminate ].
  destruct (importedName i) as [title |]; [ | discriminate ].
  destruct (importedStructure i) as [structure |]; [ | discriminate ].
  destruct (importedProjectiles i) as [count |]; [ | discriminate ].
  destruct (truthyId ident) eqn:E1; [ | discriminate ].
  destruct (truthyName title) eqn:E2; [ | discriminate ].
  simpl. intro H. injection H as <-. now repeat split.
Qed.

Lemma isDuplicate_true (existing : list Level) (l : Level) :
  isDuplicate existing l = true
  <-> exists e, In e existing
                /\ (sameId (levelId e) (levelId l) = true
                    \/ sameName (name e) (name l) = true).
Proof.
  unfold isDuplicate. rewrite orb_true_iff, !existsb_exists. split.
  - intros [[e [He Hs]] | [e [He Hs]]]; exists e; tauto.
  - intros [e [He [Hs | Hs]]]; [ left | right ]; now exists e.
Qed.

Lemma isDuplicate_false (existing : list Level) (l : Level) :
  isDuplicate existing l = false
  <-> forall e, In e existing ->
                sameId (levelId e) (levelId l) = false
                /\ sameName (name e) (name l) = false.
Proof.
  rewrite <- not_true_iff_false, isDuplicate_true. split.
  - intros Hnone e He. split; apply not_true_iff_false; intro Hs;
      apply Hnone; exists e; tauto.
  - intros Hall [e [He [Hs | Hs]]]; destruct (Hall e He); congruence.
Qed.

Lemma isDuplicate_app (existing more : list Level) (l : Level) :
  isDuplicate existing l = true -> isDuplicate (existing ++ more) l = true.
Proof.
  rewrite !isDuplicate_true. intros [e [He Hs]]. exists e.
  split; [ apply in_or_app; now left | exact Hs ].
Qed.

Lemma sameName_refl (n : LevelName) : sameName n n = true.
Proof.
  destruct n as [s | q s | | r s]; simpl;
    [ apply String.eqb_refl | apply Qeq_bool_iff, Qeq_refl | reflexivity
    | apply Nat.eqb_refl ].
Qed.

Lemma sameId_object (i : LevelId) (r : nat) :
  sameId i (ObjectId r) = true -> i = ObjectId r.
Proof.
  destruct i as [s | n | | r0]; simpl; try discriminate.
  intro H. apply Nat.eqb_eq in H. now subst.
Qed.

Lemma sameName_object (n : LevelName) (r : nat) (shown : string) :
  sameName n (ObjectName r shown) = true ->
  exists shown', n = ObjectName r shown'.
Proof.
  destruct n as [s | q s | | r0 s]; simpl; try discriminate.
  intro H. apply Nat.eqb_eq in H. subst. now exists s.
Qed.

Lemma eraseId_by_value (a b : LevelId) :
  eraseId a = eraseId b ->
  (exists r r', a = ObjectId r /\ b = ObjectId r') \/ a = b.
Proof.
  destruct a as [s | n | | r], b as [s' | n' | | r']; simpl;
    try discriminate; try (intro H; right; exact H).
  intros _. left. now exists r, r'.
Qed.

Lemma eraseName_by_value (a b : LevelName) :
  eraseName a = eraseName b ->
  (exists r r' shown, a = ObjectName r shown /\ b = ObjectName r' shown)
  \/ a = b.
Proof.
  destruct a as [s | n s | | r s], b as [s' | n' s' | | r' s']; simpl;
    try discriminate; try (intro H; right; exact H).
  intros [= ->]. left. now exists r, r', s'.
Qed.

Lemma importedAsLevel_erase (i : ImportedLevel) :
  importedAsLevel (eraseMember i) = option_map eraseLevel (importedAsLevel i).
Proof.
  unfold importedAsLevel, eraseMember.
  cbn [importedId importedName importedStructure importedProjectiles
       importedCameraPosition importedCameraTarget importedMessage].
  destruct (importedId i) as [ident |]; [ | reflexivity ].
  destruct (importedName i) as [title |]; [ | reflexivity ].
  destruct (importedStructure i) as [structure |]; [ | reflexivity ].
  destruct (importedProjectiles i) as [count |]; [ | reflexivity ].
  cbn [option_map].
  assert (Hi : truthyId (eraseId ident) = truthyId ident)
    by now destruct ident.
  assert (Hn : truthyName (eraseName title) = truthyName title)
    by now destruct title.
  rewrite Hi, Hn. now destruct (truthyId ident && truthyName title).
Qed.

Lemma validLevels_erase (file : list ImportedLevel) :
  validLevels (map eraseMember file) = map eraseLevel (validLevels file).
Proof.
  induction file as [| i rest IH]; [ reflexivity | ].
  cbn [map validLevels]. rewrite importedAsLevel_erase.
  destruct (importedAsLevel i) as [l |]; cbn [option_map map];
    now rewrite IH.
Qed.

Lemma sameText_level (file file' : list ImportedLevel) (l' : Level) :
  sameText file file' -> In l' (validLevels file') ->
  exists l, In l (validLevels file) /\ eraseLevel l = eraseLevel l'.
Proof.
  intros Hsame Hin. unfold sameText in Hsame.
  apply (in_map eraseLevel) in Hin.
  rewrite <- validLevels_erase, Hsame, validLevels_erase in Hin.
  apply in_map_iff in Hin. destruct Hin as [l [Hl Hin]]. now exists l.
Qed.

Lemma reimport_duplicates (existing : list Level)
  (file file' : list ImportedLevel) (l' : Level) :
  sameText file file' ->
  freshParse existing file ->
  freshParse (existing ++ validNewLevels existing file) file' ->
  In l' (validLevels file') ->
  isDuplicate (existing ++ validNewLevels existing file) l'
  = negb (boxed l').
Proof.
  intros Hsame Hfresh Hfresh' Hin'.
  pose proof Hin' as Hmember'. apply validLevels_In in Hmember'.
  destruct Hmember' as [i' [Hi' Hl']].
  destruct (importedAsLevel_truthy i' l' Hl') as (_ & _ & Hid' & Hname' & _).
  destruct (sameText_level file file' l' Hsame Hin') as [l [Hin Herase]].
  pose proof Hin as Hmember. apply validLevels_In in Hmember.
  destruct Hmember as [i [Hi Hl]].
  destruct (importedAsLevel_truthy i l Hl) as (_ & _ & Hid & Hname & _).
  assert (Heid : eraseId (levelId l) = eraseId (levelId l'))
    by (injection Herase; congruence).
  assert (Hename : eraseName (name l) = eraseName (name l'))
    by (injection Herase; congruence).
  assert (Hold : isDuplicate existing l = true ->
                 isDuplicate existing l' = true).
  { rewrite !isDuplicate_true. intros [e [He Hs]]. exists e.
    split; [ exact He | ].
    destruct Hs as [Hs | Hs].
    - left. destruct (eraseId_by_value _ _ Heid) as [[r [r' [Hr _]]] | <-];
        [ | exact Hs ].
      rewrite Hr in Hs, Hid. apply sameId_object in Hs.
      destruct (Hfresh i e r Hi He) as [Hno _]. now elim (Hno Hid).
    - right.
      destruct (eraseName_by_value _ _ Hename)
        as [[r [r' [shown [Hr _]]]] | <-]; [ | exact Hs ].
      rewrite Hr in Hs, Hname. apply sameName_object in Hs.
      destruct Hs as [shown' Hs].
      destruct (Hfresh i e r Hi He) as [_ Hno].
      now elim (Hno shown shown' Hname). }
  destruct (boxed l') eqn:Eb; cbn [negb].
  - apply isDuplicate_false. intros e He. unfold boxed in Eb.
    destruct (levelId l') as [ | | | r] eqn:Eid; try discriminate Eb.
    destruct (name l') as [ | | | r2 shown] eqn:Ename; try discriminate Eb.
    split; apply not_true_iff_false; intro Hs.
    + apply sameId_object in Hs.
      destruct (Hfresh' i' e r Hi' He) as [Hno _]. now elim (Hno Hid').
    + apply sameName_object in Hs. destruct Hs as [shown' Hs].
      destruct (Hfresh' i' e r2 Hi' He) as [_ Hno].
      now elim (Hno shown shown' Hname').
  - destruct (isDuplicate existing l) eqn:Ed.
    + apply isDuplicate_app, Hold, eq_refl.
    + apply isDuplicate_true. exists l. split.
      * apply in_or_app. right. apply validNewLevels_In.
        exists i. now repeat split.
      * unfold boxed in Eb.
        destruct (eraseId_by_value _ _ Heid) as [[r [r' [_ Hr']]] | Hsame_id].
        -- rewrite Hr' in Eb.
           destruct (eraseName_by_value _ _ Hename)
             as [[r2 [r2' [shown [_ Hr2']]]] | Hsame_name].
           ++ rewrite Hr2' in Eb. discriminate Eb.
           ++ right. rewrite Hsame_name. apply sameName_refl.
        -- left. rewrite Hsame_id. apply sameId_refl.
Qed.

Lemma handleImportLibrary_custom (importedLevels : list ImportedLevel)
  (lib : Library) :
  customLevels (handleImportLibrary true importedLevels lib)
  = customLevels lib ++ validNewLevels (customLevels lib) importedLevels.
Proof.
  unfold handleImportLibrary.
  destruct (validNewLevels (customLevels lib) importedLevels) as [| l rest];
    [ now rewrite app_nil_r | reflexivity ].
Qed.

(** X24. An import appends levels to the custom levels and changes none that
    was there.  Every level it appends comes from the file with a truthy
    identifier and name, a structure array and a number of projectiles, and
    neither its identifier nor its name is found among those of the levels
    that were in the library.  When the storage refuses the write, or
    nothing in the file is new, the library stays as it was.  When the same
    text is imported again after an import the storage accepted, the members
    added are exactly the valid ones whose identifier and name are both
    arrays or objects: a parse makes them anew, and they are compared by
    reference; a text whose valid members carry a string, a number or [true]
    as identifier or as name adds nothing the second time. *)
Theorem import_adds_only_new (storageAccepts : bool)
  (importedLevels : list ImportedLevel) (lib : Library) :
  let lib' := handleImportLibrary storageAccepts importedLevels lib in
  (exists added,
      customLevels lib' = customLevels lib ++ added
      /\ forall l, In l added ->
           (exists i, In i importedLevels /\ importedAsLevel i = Some l
                      /\ importedStructure i = Some (blocks l)
                      /\ importedProjectiles i = Some (initialProjectiles l))
           /\ truthyId (levelId l) = true /\ truthyName (name l) = true
           /\ forall e, In e (customLevels lib) ->
                        sameId (levelId e) (levelId l) = false
                        /\ sameName (name e) (name l) = false)
  /\ (storageAccepts = false -> lib' = lib)
  /\ (validNewLevels (customLevels lib) importedLevels = [] -> lib' = lib)
  /\ (storageAccepts = true ->
      forall again reparsed,
        sameText importedLevels reparsed ->
        freshParse (customLevels lib) importedLevels ->
        freshParse (customLevels lib') reparsed ->
        validNewLevels (customLevels lib') reparsed
        = filter boxed (validLevels reparsed)
        /\ ((forall l, In l (validLevels reparsed) -> boxed l = false) ->
            handleImportLibrary again reparsed lib' = lib')).
Proof.
  intro lib'.
  set (valid := validNewLevels (customLevels lib) importedLevels).
  assert (Hvalid : forall l, In l valid ->
            (exists i, In i importedLevels /\ importedAsLevel i = Some l
                       /\ importedStructure i = Some (blocks l)
                       /\ importedProjectiles i = Some (initialProjectiles l))
            /\ truthyId (levelId l) = true /\ truthyName (name l) = true
            /\ forall e, In e (customLevels lib) ->
                         sameId (levelId e) (levelId l) = false
                         /\ sameName (name e) (name l) = false).
  { intros l Hl. apply validNewLevels_In in Hl.
    destruct Hl as [i (Hi & Hl & Hd)].
    destruct (importedAsLevel_truthy i l Hl) as (T1 & T2 & _ & _ & T5 & T6).
    split; [ exists i; now repeat split | ].
    split; [ exact T1 | ]. split; [ exact T2 | ].
    now apply isDuplicate_false. }
  split; [ | split; [ | split ] ].
  - unfold lib', handleImportLibrary. fold valid.
    destruct (Nat.ltb 0 (List.length valid)) eqn:En.
    + destruct storageAccepts; cbn [commit customLevels].
      * exists valid. split; [ reflexivity | exact Hvalid ].
      * exists []. split; [ now rewrite app_nil_r | intros l [] ].
    + exists []. split; [ now rewrite app_nil_r | intros l [] ].
  - intros ->. unfold lib', handleImportLibrary.
    now destruct (Nat.ltb 0 _).
  - intro Hnil. unfold lib', handleImportLibrary. fold valid.
    now rewrite Hnil.
  - intros -> again reparsed Hsame Hfresh Hfresh'.
    assert (Hcustom : customLevels lib' = customLevels lib ++ valid)
      by apply handleImportLibrary_custom.
    rewrite Hcustom in *.
    assert (Hagain : validNewLevels (customLevels lib ++ valid) reparsed
                     = filter boxed (validLevels reparsed)).
    { rewrite validNewLevels_filter. apply filter_ext_in. intros l' Hl'.
      unfold valid.
      rewrite (reimport_duplicates (customLevels lib) importedLevels reparsed
                 l' Hsame Hfresh Hfresh' Hl').
      apply negb_involutive. }
    split; [ exact Hagain | ].
    intro Hplain.
    assert (Hnone : validNewLevels (customLevels lib') reparsed = []).
    { rewrite Hcustom, Hagain. clear - Hplain.
      revert Hplain.
      induction (validLevels reparsed) as [| l rest IH]; [ reflexivity | ].
      intro Hplain. cbn [filter]. rewrite (Hplain l (or_introl eq_refl)).
      apply IH. intros l0 H0. apply Hplain. now right. }
    unfold handleImportLibrary at 1. now rewrite Hnone.
Qed.

Lemma import_adds_only_new_witness :
  sameText [boxedCastle 1] [boxedCastle 3]
  /\ let lib' := handleImportLibrary true [boxedCastle 1] sampleLibrary in
     validNewLevels (customLevels lib') [boxedCastle 3]
     = filter boxed (validLevels [boxedCastle 3])
     /\ List.length (filter boxed (validLevels [boxedCastle 3])) = 1%nat
     /\ List.length (customLevels lib') = 2%nat.
Proof.
  split; [ reflexivity | ]. cbv zeta. split; [ | split; reflexivity ].
  refine (proj1 (proj2 (proj2 (proj2
            (import_adds_only_new true [boxedCastle 1] sampleLibrary)))
            eq_refl true [boxedCastle 3] eq_refl _ _)).
  - intros i e r [<- | []] [<- | []]. split.
    + intros _. discriminate.
    + intros shown shown' _. discriminate.
  - intros i e r [<- | []] [<- | [<- | []]]; split;
      [ intro H | intros shown shown' H | intro H | intros shown shown' H ];
      injection H as <-; discriminate.
Defined.

Lemma levelAt_In (levels : list Level) (index : Z) (l : Level) :
  levelAt levels index = Some l -> In l levels.
Proof.
  unfold levelAt. destruct (Z.ltb index 0); [ discriminate | ].
  apply nth_error_In.
Qed.

Lemma restartIndex_eq (lib : Library) (rendered : GameState)
  (levelIdToDelete : LevelId) :
  restartIndex lib rendered levelIdToDelete
  = match levelAt (allPlayableLevels lib) (currentLevelIndex rendered) with
    | Some current =>
        if sameId (levelId current) levelIdToDelete then 0%Z
        else
          let i :=
            findIndex (fun level => sameId (levelId level) (levelId current))
              (PREDEFINED_LEVELS
               ++ filter (fun level =>
                            negb (sameId (levelId level) levelIdToDelete))
                         (customLevels lib)) in
          if Z.eqb i (-1) then 0%Z else i
    | None => 0%Z
    end.
Proof.
  unfold restartIndex. cbv zeta.
  set (newAllPlayable := PREDEFINED_LEVELS ++ _).
  assert (Hne : newAllPlayable <> []) by apply predefined_playable.
  destruct newAllPlayable as [| l0 rest]; [ congruence | reflexivity ].
Qed.

Lemma levelCount_filter (f : Level -> bool) (custom : list Level) :
  (levelCount (PREDEFINED_LEVELS ++ filter f custom)
   <= levelCount (PREDEFINED_LEVELS ++ custom))%Z.
Proof.
  unfold levelCount. rewrite !length_app.
  pose proof (filter_length_le f custom). lia.
Qed.

(** X25. Deleting a level from an in-step library, the storage accepting the
    write.  Exactly the custom levels with that identifier go; the
    predefined levels stay even when one of them bears it.  The game then
    restarts: on the first level when the level being played was deleted or
    the index named none, and otherwise on a level that bears the
    identifier of the level being played, the first such level of the new
    list.  When the storage refuses the write nothing changes. *)
Theorem delete_level (delegate : bool) (levelIdToDelete : LevelId)
  (rendered gs : GameState) (lib : Library)
  (Hstep : inStep lib) :
  let st' := handleDeleteCustomLevelFromLibrary true delegate levelIdToDelete
               rendered (lib, gs) in
  let played := levelAt (allPlayableLevels lib) (currentLevelIndex rendered) in
  (forall l, In l (customLevels (fst st'))
             <-> In l (customLevels lib)
                 /\ sameId (levelId l) levelIdToDelete = false)
  /\ allPlayableLevels (fst st')
     = PREDEFINED_LEVELS ++ customLevels (fst st')
  /\ (played = None -> currentLevelIndex (snd st') = 0%Z)
  /\ (forall current,
         played = Some current ->
         (sameId (levelId current) levelIdToDelete = true ->
          currentLevelIndex (snd st') = 0%Z)
         /\ (sameId (levelId current) levelIdToDelete = false ->
             exists l',
               levelAt (allPlayableLevels (fst st'))
                       (currentLevelIndex (snd st')) = Some l'
               /\ sameId (levelId l') (levelId current) = true
               /\ forall j y,
                    (j < Z.to_nat (currentLevelIndex (snd st')))%nat ->
                    nth_error (allPlayableLevels (fst st')) j = Some y ->
                    sameId (levelId y) (levelId current) = false))
  /\ score (snd st') = 0%Z /\ isLevelWon (snd st') = false
  /\ handleDeleteCustomLevelFromLibrary false delegate levelIdToDelete
       rendered (lib, gs) = (lib, gs).
Proof.
  intros st' played. destruct Hstep as [Hall Hstored].
  unfold st', handleDeleteCustomLevelFromLibrary.
  cbn [fst snd commit customLevels allPlayableLevels].
  set (keep := fun level => negb (sameId (levelId level) levelIdToDelete)).
  assert (Hne : allPlayableLevels lib <> []).
  { rewrite Hall. apply predefined_playable. }
  pose proof (setupLevel_fields (allPlayableLevels lib)
                (selectedProjectileType rendered) delegate
                (restartIndex lib rendered levelIdToDelete) gs Hne)
    as (Hi & Hs & _ & Hw & _).
  split; [ | split; [ reflexivity | ] ].
  { intro l. unfold keep. rewrite filter_In, negb_true_iff. tauto. }
  assert (Hzero : restartIndex lib rendered levelIdToDelete = 0%Z ->
                  currentLevelIndex
                    (setupLevel (allPlayableLevels lib)
                       (selectedProjectileType rendered) delegate
                       (restartIndex lib rendered levelIdToDelete) gs) = 0%Z).
  { intro Hz. rewrite Hi, Hz.
    destruct (Z.ltb 0 (levelCount (allPlayableLevels lib))); reflexivity. }
  split; [ | split; [ | split; [ exact Hs | split; [ exact Hw | reflexivity ] ] ] ].
  - intro Hnone. apply Hzero. rewrite restartIndex_eq. fold played.
    now rewrite Hnone.
  - intros current Hcur. split.
    + intro Hsame. apply Hzero. rewrite restartIndex_eq. fold played.
      now rewrite Hcur, Hsame.
    + intro Hother.
      assert (Hin : In current (PREDEFINED_LEVELS ++ filter keep (customLevels lib))).
      { apply levelAt_In in Hcur. rewrite Hall in Hcur.
        apply in_app_or in Hcur. apply in_or_app.
        destruct Hcur as [Hp | Hc]; [ now left | right ].
        apply filter_In. split; [ exact Hc | ]. unfold keep. now rewrite Hother. }
      destruct (findIndex_spec
                  (fun level => sameId (levelId level) (levelId current))
                  (PREDEFINED_LEVELS ++ filter keep (customLevels lib)))
        as [[_ Hnone] | [x (Hr & Hn & Hx & Hfirst)]].
      { specialize (Hnone current Hin). cbv beta in Hnone.
        rewrite sameId_refl in Hnone. discriminate. }
      set (i := findIndex _ _) in *.
      assert (Hrestart : restartIndex lib rendered levelIdToDelete = i).
      { rewrite restartIndex_eq. fold played. rewrite Hcur, Hother.
        fold keep. cbv zeta. fold i.
        destruct (Z.eqb_spec i (-1)); [ lia | reflexivity ]. }
      assert (Hkept : currentLevelIndex
                        (setupLevel (allPlayableLevels lib)
                           (selectedProjectileType rendered) delegate
                           (restartIndex lib rendered levelIdToDelete) gs) = i).
      { rewrite Hi, Hrestart.
        pose proof (levelCount_filter keep (customLevels lib)) as Hle.
        rewrite <- Hall in Hle. unfold levelCount in Hle at 1.
        destruct (Z.leb_spec 0 i), (Z.ltb_spec i (levelCount (allPlayableLevels lib)));
          simpl; lia. }
      rewrite Hkept. exists x. split; [ | split; [ exact Hx | exact Hfirst ] ].
      unfold levelAt. destruct (Z.ltb_spec i 0); [ lia | exact Hn ].
Qed.

(** X26. Playing a level from the dialog of an in-step library.  When no
    custom level bears its identifier nothing happens.  Otherwise the game
    starts anew on the first custom level that bears it, whose index among
    the playable levels is its index among the custom levels plus the three
    predefined ones. *)
Theorem play_from_library (lib : Library) (delegate : bool)
  (levelToPlay : Level) (rendered prev : GameState)
  (Hstep : inStep lib) :
  let gs := handlePlayCustomLevelFromLibrary lib delegate levelToPlay
              rendered prev in
  ((forall l, In l (customLevels lib) ->
              sameId (levelId l) (levelId levelToPlay) = false) ->
   gs = prev)
  /\ ((exists l, In l (customLevels lib)
                 /\ sameId (levelId l) (levelId levelToPlay) = true) ->
      exists i l,
        nth_error (customLevels lib) i = Some l
        /\ sameId (levelId l) (levelId levelToPlay) = true
        /\ (forall j y, (j < i)%nat ->
                        nth_error (customLevels lib) j = Some y ->
                        sameId (levelId y) (levelId levelToPlay) = false)
        /\ currentLevelIndex gs = (3 + Z.of_nat i)%Z
        /\ levelAt (allPlayableLevels lib) (currentLevelIndex gs) = Some l
        /\ score gs = 0%Z /\ isGameOver gs = false /\ isLevelWon gs = false
        /\ projectileCounts gs = mkCounts 5 3 2 2).
Proof.
  intro gs. destruct Hstep as [Hall _].
  unfold gs, handlePlayCustomLevelFromLibrary.
  destruct (findIndex_spec
              (fun l => sameId (levelId l) (levelId levelToPlay))
              (customLevels lib))
    as [[Hnone Hall0] | [x (Hr & Hn & Hx & Hfirst)]].
  - rewrite Hnone. cbn [Z.eqb]. split; [ reflexivity | ].
    intros [l [Hin Hsame]]. specialize (Hall0 l Hin). cbv beta in Hall0.
    congruence.
  - set (i := findIndex _ _) in *.
    destruct (Z.eqb_spec i (-1)) as [Hm | _]; [ lia | ].
    assert (Hcount : levelCount (allPlayableLevels lib)
                     = (3 + Z.of_nat (List.length (customLevels lib)))%Z).
    { rewrite Hall. unfold levelCount. rewrite length_app.
      change (List.length PREDEFINED_LEVELS) with 3%nat. lia. }
    change (levelCount PREDEFINED_LEVELS) with 3%Z.
    rewrite Hcount.
    destruct (Z.leb_spec 0 (3 + i)) as [_ | Hneg]; [ | lia ].
    destruct (Z.ltb_spec (3 + i) (3 + Z.of_nat (List.length (customLevels lib))))
      as [Hlt | Hge]; [ | lia ].
    cbn [andb].
    assert (Hne : allPlayableLevels lib <> []).
    { rewrite Hall. apply predefined_playable. }
    destruct (setupLevel_fields (allPlayableLevels lib)
                (selectedProjectileType rendered) delegate (3 + i) prev Hne)
      as (Hi & Hs & Ho & Hw & Hc & _).
    assert (Hindex : currentLevelIndex
                       (setupLevel (allPlayableLevels lib)
                          (selectedProjectileType rendered) delegate (3 + i)
                          prev) = (3 + i)%Z).
    { rewrite Hi, Hcount.
      destruct (Z.leb_spec 0 (3 + i)),
               (Z.ltb_spec (3 + i)
                  (3 + Z.of_nat (List.length (customLevels lib))));
        simpl; lia. }
    split.
    + intro Hnone. specialize (Hnone x (nth_error_In _ _ Hn)). congruence.
    + intros _. exists (Z.to_nat i), x.
      split; [ exact Hn | ]. split; [ exact Hx | ].
      split; [ exact Hfirst | ].
      split; [ rewrite Hindex; lia | ].
      split; [ | now rewrite Hs, Ho, Hw, Hc ].
      rewrite Hindex, Hall. unfold levelAt.
      destruct (Z.ltb_spec (3 + i) 0); [ lia | ].
      replace (Z.to_nat (3 + i)) with (3 + Z.to_nat i)%nat by lia.
      exact Hn.
Qed.

(** X27. Saving from the editor, the storage accepting the write.  Without
    an identifier to update the level is appended.  With one, the library
    keeps its length and order and every level keeps its identifier: the
    levels that bear the identifier are replaced by the saved data under the
    old identifier, the others are left alone, and when no level bears it the
    library stays as it was.  When the storage refuses the write nothing
    changes. *)
Theorem save_level (storageAccepts : bool) (levelData : Level)
  (originalLevelIdToUpdate : option LevelId) (lib : Library) :
  let lib' := handleSaveCustomLevel storageAccepts levelData
                originalLevelIdToUpdate lib in
  let updating := match originalLevelIdToUpdate with
                  | Some i => truthyId i
                  | None => false
                  end in
  (storageAccepts = false -> lib' = lib)
  /\ (storageAccepts = true -> updating = false ->
      customLevels lib' = customLevels lib ++ [levelData])
  /\ (storageAccepts = true ->
      forall i, originalLevelIdToUpdate = Some i -> truthyId i = true ->
        List.length (customLevels lib') = List.length (customLevels lib)
        /\ (forall k lvl,
               nth_error (customLevels lib) k = Some lvl ->
               exists lvl',
                 nth_error (customLevels lib') k = Some lvl'
                 /\ sameId (levelId lvl') (levelId lvl) = true
                 /\ (sameId (levelId lvl) i = false -> lvl' = lvl)
                 /\ (sameId (levelId lvl) i = true ->
                     lvl' = withLevelId levelData i))
        /\ ((forall lvl, In lvl (customLevels lib) ->
                         sameId (levelId lvl) i = false) ->
            customLevels lib' = customLevels lib)).
Proof.
  intros lib' updating. unfold lib', updating, handleSaveCustomLevel.
  split; [ intros ->; reflexivity | ].
  split.
  - intros -> Hup. cbn [commit customLevels].
    destruct originalLevelIdToUpdate as [i |]; [ | reflexivity ].
    now rewrite Hup.
  - intros -> i -> Hi. rewrite Hi. cbn [commit customLevels].
    split; [ apply length_map | ]. split.
    + intros k lvl Hk. rewrite nth_error_map, Hk. cbn [option_map].
      eexists. split; [ reflexivity | ].
      destruct (sameId (levelId lvl) i) eqn:E.
      * split; [ | split; [ discriminate | reflexivity ] ].
        cbn [withLevelId levelId]. now rewrite sameId_sym.
      * split; [ apply sameId_refl | ]. split; [ reflexivity | discriminate ].
    + intro Hnone. rewrite <- (map_id (customLevels lib)) at 2.
      apply map_ext_in. intros lvl Hin. now rewrite (Hnone lvl Hin).
Qed.

(** ** The properties above at sample inputs *)

Lemma initial_stocked : stocked (projectileCounts initialGameState).
Proof. intro t. destruct t; simpl; lia. Defined.

Lemma sampleLibrary_inStep : inStep sampleLibrary.
Proof. split; reflexivity. Defined.

Lemma ammunition_accounting_witness :
  stocked (projectileCounts initialGameState)
  /\ consistent initialGameState
  /\ (forall t,
         countOf (projectileCounts (play sampleMoves initialGameState)) t
         = Z.max 0 (countOf (projectileCounts initialGameState) t
                    - shotsOf t sampleMoves))
  /\ consistent (play sampleMoves initialGameState).
Proof.
  assert (Hco : consistent initialGameState) by reflexivity.
  pose proof (ammunition_accounting sampleMoves initialGameState
                initial_stocked Hco) as H.
  split; [ exact initial_stocked | ]. split; [ exact Hco | ].
  split; [ exact (proj1 H) | exact (proj1 (proj2 (proj2 H))) ].
Defined.

Lemma next_level_stops_at_last_witness :
  (0 <= currentLevelIndex initialGameState < levelCount PREDEFINED_LEVELS)%Z
  /\ currentLevelIndex (advance PREDEFINED_LEVELS false 5 initialGameState)
     = Z.min (currentLevelIndex initialGameState + Z.of_nat 5)
             (levelCount PREDEFINED_LEVELS - 1).
Proof.
  assert (Hvalid : (0 <= currentLevelIndex initialGameState
                    < levelCount PREDEFINED_LEVELS)%Z).
  { split; [ discriminate | reflexivity ]. }
  split; [ exact Hvalid | ].
  exact (proj1 (next_level_stops_at_last PREDEFINED_LEVELS false 5
                  initialGameState Hvalid)).
Defined.

Lemma fall_scoring_witness :
  fallsOf true sampleFalls = 2%Z
  /\ score (fst (reportFalls PREDEFINED_LEVELS
                   (frameReports initialGameState [] sampleFalls)
                   (initialGameState, [])))
     = (score initialGameState + 10 * fallsOf false sampleFalls
        + 100 * fallsOf true sampleFalls)%Z.
Proof.
  split; [ reflexivity | ].
  pose proof (fall_scoring PREDEFINED_LEVELS
                (frameReports initialGameState [] sampleFalls)
                (initialGameState, [])) as H.
  destruct H as (_ & _ & _ & _ & _ & _ & _ & _ & Hframe).
  exact (proj1 (Hframe initialGameState [] sampleFalls eq_refl)
           eq_refl eq_refl (fun f _ H => H)).
Defined.

Lemma out_of_ammunition_witness :
  stocked (projectileCounts emptyHanded)
  /\ (isGameOver (ammunitionEffect PREDEFINED_LEVELS false emptyHanded
                    emptyHanded) = true
      <-> isGameOver emptyHanded = true
          \/ outOfAmmunition PREDEFINED_LEVELS emptyHanded = true).
Proof.
  assert (Hst : stocked (projectileCounts emptyHanded)).
  { intro t. destruct t; simpl; lia. }
  split; [ exact Hst | ].
  exact (proj1 (proj2 (out_of_ammunition PREDEFINED_LEVELS false emptyHanded
                         Hst))).
Defined.

Lemma selector_matches_reducer_witness :
  stocked (projectileCounts initialGameState)
  /\ selectorDisabled true (projectileCounts initialGameState)
       (selectedProjectileType initialGameState) heavyConfig = true.
Proof.
  split; [ exact initial_stocked | ].
  exact (proj2 (proj2 (selector_matches_reducer initialGameState heavyConfig
                         initial_stocked))).
Defined.

Lemma release_launches_witness :
  consistent initialGameState
  /\ chargeAllowed leftPress
     = canAttemptCharge initialGameState (isDelegateModeActive leftPress)
  /\ button leftPress = 0%Z
  /\ isDraggingCamera leftPress = false
  /\ onCanvas leftPress = true
  /\ exists power,
       snd (handlePointerUpGlobal 1750
              (handlePointerDown leftPress 1000 (mkCharge false 0)))
       = Some power
       /\ handleChargeComplete (isDelegateModeActive leftPress) false power
            initialGameState initialGameState
          = handleLaunchProjectile false power
              (selectedProjectileType initialGameState) initialGameState
       /\ (10 <= percent power <= 100)%Z.
Proof.
  assert (Hco : consistent initialGameState) by reflexivity.
  split; [ exact Hco | ]. split; [ reflexivity | ].
  split; [ reflexivity | ]. split; [ reflexivity | ].
  split; [ reflexivity | ].
  destruct (proj1 (release_launches leftPress 1000 1750 false initialGameState
                     initialGameState Hco eq_refl eq_refl eq_refl eq_refl)
              eq_refl)
    as [power (H1 & _ & H3 & H4 & _)].
  exists power. split; [ exact H1 | ]. split; [ exact H3 | exact H4 ].
Defined.

Lemma delegate_round_witness :
  0 <= 1 # 2 < 1
  /\ exists config gs',
       performDelegateAction initialGameState (1 # 2) (1 # 2) true
         initialGameState
       = Some (gs', true)
       /\ selectedProjectileType gs' = pcId config
       /\ (0 < countOf (projectileCounts initialGameState) (pcId config))%Z
       /\ 7 # 10 <= delegatePower (1 # 2) < 1.
Proof.
  assert (Hr : 0 <= 1 # 2 < 1).
  { split; [ discriminate | reflexivity ]. }
  assert (Hsome : exists t,
             (0 < countOf (projectileCounts initialGameState) t)%Z).
  { exists STANDARD. reflexivity. }
  split; [ exact Hr | ].
  destruct (proj2 (delegate_round initialGameState (1 # 2) (1 # 2) true Hr Hr)
              Hsome)
    as [config [gs' (_ & H2 & _ & H4 & H5 & _ & _ & Hpower & _)]].
  exists config, gs'.
  split; [ exact H2 | ]. split; [ exact H5 | ]. split; [ exact H4 | exact Hpower ].
Defined.

Lemma library_stays_in_step_witness :
  inStep sampleLibrary
  /\ playing sampleLibrary initialGameState
  /\ firstn 3 (allPlayableLevels
                 (fst (operateAll false sampleOps
                         (sampleLibrary, initialGameState))))
     = PREDEFINED_LEVELS.
Proof.
  assert (Hplay : playing sampleLibrary initialGameState).
  { eexists. reflexivity. }
  split; [ exact sampleLibrary_inStep | ]. split; [ exact Hplay | ].
  exact (proj1 (proj2 (proj2
           (library_stays_in_step false sampleOps
              (sampleLibrary, initialGameState) sampleLibrary_inStep Hplay)))).
Defined.

Lemma delete_level_witness :
  inStep sampleLibrary
  /\ allPlayableLevels
       (fst (handleDeleteCustomLevelFromLibrary true false
               (levelId customCastle) initialGameState
               (sampleLibrary, initialGameState)))
     = PREDEFINED_LEVELS
       ++ customLevels
            (fst (handleDeleteCustomLevelFromLibrary true false
                    (levelId customCastle) initialGameState
                    (sampleLibrary, initialGameState))).
Proof.
  split; [ exact sampleLibrary_inStep | ].
  exact (proj1 (proj2 (delete_level false (levelId customCastle)
                         initialGameState initialGameState sampleLibrary
                         sampleLibrary_inStep))).
Defined.

Lemma play_from_library_witness :
  inStep sampleLibrary
  /\ exists i l,
       nth_error (customLevels sampleLibrary) i = Some l
       /\ currentLevelIndex
            (handlePlayCustomLevelFromLibrary sampleLibrary false customCastle
               initialGameState emptyHanded)
          = (3 + Z.of_nat i)%Z
       /\ score (handlePlayCustomLevelFromLibrary sampleLibrary false
                   customCastle initialGameState emptyHanded) = 0%Z.
Proof.
  assert (Hfound : exists l, In l (customLevels sampleLibrary)
                             /\ sameId (levelId l) (levelId customCastle)
                                = true).
  { exists customCastle. split; [ now left | reflexivity ]. }
  split; [ exact sampleLibrary_inStep | ].
  destruct (proj2 (play_from_library sampleLibrary false customCastle
                     initialGameState emptyHanded sampleLibrary_inStep)
              Hfound)
    as [i [l (H1 & _ & _ & H4 & _ & H6 & _)]].
  exists i, l. split; [ exact H1 | ]. split; [ exact H4 | exact H6 ].
Defined.

End AppFacts.

(** * The level editor *)

Module EditorFacts.
Import App.
Import Editor.

Lemma goldenBlocks_app (s t : list BlockConfig) :
  goldenBlocks (s ++ t) = goldenBlocks s ++ goldenBlocks t.
Proof. apply filter_app. Qed.

Lemma goldenBlocks_cleared (s : list BlockConfig) :
  goldenBlocks (map (fun b => setKing b false) s) = [].
Proof. induction s as [| b rest IH]; [ reflexivity | exact IH ]. Qed.

Lemma goldenBlocks_removed (f : BlockConfig -> bool) (s : list BlockConfig) :
  (List.length (goldenBlocks (filter f s)) <= List.length (goldenBlocks s))%nat.
Proof.
  induction s as [| b rest IH]; [ apply Nat.le_refl | ].
  simpl. destruct (f b), (truthyB (bcIsKing b)) eqn:E; simpl;
    try rewrite E; simpl; lia.
Qed.

Lemma handleMouseClick_golden (c : Click) (s : list BlockConfig) :
  (List.length (goldenBlocks s) <= 1)%nat ->
  (List.length (goldenBlocks (handleMouseClick c s s)) <= 1)%nat.
Proof.
  intro H. destruct c as [shape golden dateNow pos | blockId]; simpl.
  - destruct (existingBlock s pos); [ exact H | ].
    destruct golden.
    + rewrite goldenBlocks_app, goldenBlocks_cleared. simpl. lia.
    + rewrite goldenBlocks_app. simpl. rewrite app_nil_r. exact H.
  - eapply Nat.le_trans; [ apply goldenBlocks_removed | exact H ].
Qed.

(** X28. The editor never holds two golden blocks.  From a structure with at
    most one, any sequence of clicks leaves at most one; a golden block
    placed on a free spot becomes the only golden block, the others keeping
    their place, and a click on an occupied spot changes nothing. *)
Theorem golden_block_unique (cs : list Click) :
  forall (structure : list BlockConfig)
         (Hone : (List.length (goldenBlocks structure) <= 1)%nat),
    let s := clicks cs structure in
    (List.length (goldenBlocks s) <= 1)%nat
    /\ (forall shape golden dateNow pos b,
           existingBlock s pos = Some b ->
           handleMouseClick (LeftClick shape golden dateNow pos) s s = s)
    /\ (forall shape dateNow pos,
           existingBlock s pos = None ->
           let s' := handleMouseClick (LeftClick shape true dateNow pos) s s in
           exists newBlock,
             s' = map (fun b => setKing b false) s ++ [newBlock]
             /\ goldenBlocks s' = [newBlock]
             /\ mkVec3 (bcX newBlock) (bcY newBlock) (bcZ newBlock) = pos
             /\ bcShape newBlock = Some shape
             /\ sameBlocks s (firstn (List.length s) s')).
Proof.
  induction cs as [| c rest IH]; intros structure Hone.
  - cbv zeta. unfold clicks. cbn [fold_left].
    split; [ exact Hone | ]. split.
    + intros shape golden dateNow pos b Hb. simpl. now rewrite Hb.
    + intros shape dateNow pos Hfree. simpl. rewrite Hfree.
      eexists. split; [ reflexivity | ].
      split; [ now rewrite goldenBlocks_app, goldenBlocks_cleared | ].
      split; [ now destruct pos | ]. split; [ reflexivity | ].
      rewrite <- (length_map (fun b => setKing b false) structure) at 1.
      rewrite firstn_app, firstn_all, Nat.sub_diag. cbn [firstn].
      rewrite app_nil_r. unfold sameBlocks. rewrite map_map. apply map_ext.
      reflexivity.
  - exact (IH (handleMouseClick c structure structure)
              (handleMouseClick_golden c structure Hone)).
Qed.

Lemma goldenBlocks_single_find (structure : list BlockConfig)
  (king : BlockConfig) (others : list BlockConfig) :
  goldenBlocks structure = king :: others ->
  find (fun b => truthyB (bcIsKing b)) structure = Some king.
Proof.
  induction structure as [| b rest IH]; [ discriminate | ].
  unfold goldenBlocks. simpl. destruct (truthyB (bcIsKing b)).
  - now intros [= -> _].
  - exact IH.
Qed.

Lemma golden_position_of_structure (bs : list BlockConfig) (now : Q) :
  getGoldenBlockPosition (initCanvas (mkLevel bs) now)
  = option_map (fun b => mkVec3 (bcX b) (bcY b) (bcZ b))
               (find (fun b => truthyB (bcIsKing b)) bs).
Proof.
  unfold getGoldenBlockPosition, initCanvas, createStructure.
  cbn [mounted physicsObjects structure].
  induction bs as [| b rest IH]; [ reflexivity | ].
  cbn [map find]. cbn [createBlockVisualAndPhysics isKing isFallen truthyB].
  destruct (truthyB (bcIsKing b)); [ reflexivity | exact IH ].
Qed.

Lemma validate_Some (finalLevelName : string) (initialProjectiles : Q)
  (structure : list BlockConfig) (editingLevelId : option LevelId)
  (freshId : string) (l : Level) :
  validateAndGetLevelConfig finalLevelName initialProjectiles structure
    editingLevelId freshId = Some l ->
  truthyText finalLevelName = true /\ 1 <= initialProjectiles
  /\ List.length (goldenBlocks structure) = 1%nat
  /\ exists first rest,
       structure = first :: rest
       /\ l = mkPlayable
                match editingLevelId with
                | Some i => if truthyId i then i else TextId freshId
                | None => TextId freshId
                end
                finalLevelName initialProjectiles structure
                (Some (cameraAt (frameStructure None None structure)))
                (Some (lookingAt (frameStructure None None structure)))
                (Some ("커스텀 레벨: " ++ finalLevelName
                       ++ ". 황금 블록을 무너뜨리세요!")%string).
Proof.
  unfold validateAndGetLevelConfig.
  destruct (truthyText finalLevelName); [ | discriminate ].
  destruct (Qltb initialProjectiles 1) eqn:Ep; [ discriminate | ].
  destruct structure as [| first rest]; [ discriminate | ].
  cbn [negb]. cbv zeta.
  destruct (Nat.eqb_spec (List.length (goldenBlocks (first :: rest))) 0)
    as [| H0]; [ discriminate | ].
  destruct (Nat.ltb_spec 1 (List.length (goldenBlocks (first :: rest))))
    as [| H1]; [ discriminate | ].
  intro H. injection H as <-.
  split; [ reflexivity | ]. split; [ now apply Qltb_false | ].
  split; [ lia | ]. now exists first, rest.
Qed.

(** X29. What the editor lets through.  [validateAndGetLevelConfig] returns
    a level exactly when the trimmed name is not empty, the projectiles are
    at least one and the structure holds exactly one golden block.  The
    level carries the structure as it is, keeps the identifier being edited,
    and stores the camera the canvas would choose by itself; its export is
    accepted by the import of the library when its identifier is truthy;
    and the canvas loaded with it reports the position of its golden
    block. *)
Theorem validated_level (finalLevelName : string) (initialProjectiles : Q)
  (structure : list BlockConfig) (editingLevelId : option LevelId)
  (freshId : string) :
  let result := validateAndGetLevelConfig finalLevelName initialProjectiles
                  structure editingLevelId freshId in
  (result <> None
   <-> truthyText finalLevelName = true /\ 1 <= initialProjectiles
       /\ List.length (goldenBlocks structure) = 1%nat)
  /\ (forall l,
         result = Some l ->
         name l = finalLevelName /\ blocks l = structure
         /\ App.initialProjectiles l = initialProjectiles
         /\ (forall i, editingLevelId = Some i -> truthyId i = true ->
                       levelId l = i)
         /\ cameraPosition l
            = Some (cameraAt (frameStructure None None structure))
         /\ cameraTarget l
            = Some (lookingAt (frameStructure None None structure))
         /\ (truthyId (levelId l) = true ->
             importedAsLevel (exported l) = Some l)
         /\ exists king,
              goldenBlocks structure = [king]
              /\ forall now,
                   getGoldenBlockPosition (initCanvas (canvasLevel l) now)
                   = Some (mkVec3 (bcX king) (bcY king) (bcZ king))).
Proof.
  intro result. split.
  - split.
    + intro Hsome. destruct result as [l |] eqn:E; [ | congruence ].
      destruct (validate_Some _ _ _ _ _ _ E) as (A & B & C & _).
      now repeat split.
    + intros (Hname & Hcount & Hgolden). unfold result,
        validateAndGetLevelConfig.
      rewrite Hname. cbn [negb].
      assert (Ep : Qltb initialProjectiles 1 = false).
      { unfold Qltb. apply negb_false_iff. now apply Qle_bool_iff. }
      rewrite Ep. destruct structure as [| first rest]; [ discriminate | ].
      cbv zeta. rewrite Hgolden. discriminate.
  - intros l Hl.
    destruct (validate_Some _ _ _ _ _ _ Hl)
      as (Hname & Hcount & Hgolden & first & rest & Hs & ->).
    cbn [name blocks App.initialProjectiles levelId cameraPosition
         cameraTarget].
    repeat split.
    + intros i -> Hi. now rewrite Hi.
    + intro Hid. unfold importedAsLevel, exported.
      cbn [importedId importedName importedStructure importedProjectiles
           importedCameraPosition importedCameraTarget importedMessage
           levelId name blocks App.initialProjectiles cameraPosition
           cameraTarget startMessage truthyName] in *.
      now rewrite Hid, Hname.
    + destruct (goldenBlocks structure) as [| king others] eqn:Eg;
        [ discriminate | ].
      destruct others; [ | discriminate ].
      exists king. split; [ reflexivity | ]. intro now.
      unfold canvasLevel. cbn [blocks].
      rewrite golden_position_of_structure.
      now rewrite (goldenBlocks_single_find structure king [] Eg).
Qed.

(** ** Generated levels *)

Lemma completeBlocks_length (blockNow : nat -> Z)
  (structure : list BlockConfig) :
  forall index,
    List.length (completeBlocks blockNow index structure)
    = List.length structure.
Proof.
  induction structure as [| b rest IH]; intro index; [ reflexivity | ].
  cbn [completeBlocks List.length]. now rewrite IH.
Qed.

Lemma completeBlocks_golden (blockNow : nat -> Z)
  (structure : list BlockConfig) :
  forall index,
    List.length (goldenBlocks (completeBlocks blockNow index structure))
    = List.length (goldenBlocks structure).
Proof.
  induction structure as [| b rest IH]; intro index; [ reflexivity | ].
  cbn [completeBlocks]. unfold goldenBlocks in *. cbn [filter].
  unfold completeBlock at 1. cbn [bcIsKing].
  destruct (truthyB (bcIsKing b)); cbn [List.length]; now rewrite IH.
Qed.

Lemma completeBlocks_nth (blockNow : nat -> Z)
  (structure : list BlockConfig) :
  forall index n b,
    nth_error structure n = Some b ->
    nth_error (completeBlocks blockNow index structure) n
    = Some (completeBlock (blockNow (index + n)%nat) (index + n) b).
Proof.
  induction structure as [| first rest IH]; intros index n b Hn.
  - destruct n; discriminate.
  - destruct n as [| n].
    + injection Hn as <-. cbn [completeBlocks nth_error].
      now rewrite Nat.add_0_r.
    + cbn [completeBlocks nth_error] in *.
      rewrite (IH (S index) n b Hn). now rewrite Nat.add_succ_r.
Qed.

Lemma repairGoldenBlocks_single (structure : list BlockConfig) :
  List.length (goldenBlocks structure) = 1%nat ->
  repairGoldenBlocks structure = Some structure.
Proof.
  intro Hone. unfold repairGoldenBlocks.
  destruct structure as [| first rest]; [ discriminate | ].
  now rewrite Hone.
Qed.

Lemma generateLevelWithGemini_Some (answer : option ParsedLevel)
  (blockNow : nat -> Z) (levelNow : Z) (random : string) (level : Level) :
  generateLevelWithGemini answer blockNow levelNow random = Some level ->
  exists parsedData structure,
    answer = Some parsedData
    /\ parsedStructure parsedData = Some structure
    /\ parsedName parsedData = Some (name level)
    /\ parsedProjectiles parsedData = Some (App.initialProjectiles level)
    /\ truthyName (name level) = true
    /\ (1 <= List.length structure <= 25)%nat
    /\ List.length (goldenBlocks structure) = 1%nat
    /\ blocks level = completeBlocks blockNow 0 structure
    /\ truthyId (levelId level) = true.
Proof.
  unfold generateLevelWithGemini.
  destruct answer as [parsedData |]; [ | discriminate ].
  destruct (parsedName parsedData) as [title |] eqn:En; [ | discriminate ].
  destruct (parsedStructure parsedData) as [structure |] eqn:Es;
    [ | discriminate ].
  destruct (parsedProjectiles parsedData) as [count |] eqn:Ec;
    [ | discriminate ].
  destruct (truthyName title) eqn:Et; [ | discriminate ]. cbn [negb].
  destruct (Nat.ltb_spec 25 (List.length structure)) as [| Hmost];
    [ discriminate | ].
  destruct (Nat.eqb_spec (List.length structure) 0) as [| Hleast];
    [ discriminate | ].
  destruct (Nat.eqb_spec (List.length (goldenBlocks structure)) 1)
    as [Hone |]; [ | discriminate ].
  cbn [negb]. cbv zeta. intro H. injection H as <-.
  exists parsedData, structure.
  cbn [name App.initialProjectiles blocks levelId].
  repeat (split; [ first [ reflexivity | assumption | lia ] | ]).
  destruct (parsedLevelId parsedData) as [i |]; [ | reflexivity ].
  destruct (truthyId i) eqn:Ei; [ exact Ei | reflexivity ].
Qed.

(** X30. A generated level reaches the editor only as
    [generateLevelWithGemini] returns it: it returns a level exactly when
    the parsed answer has a truthy name, an array of 1 to 25 blocks, a
    number of projectiles and exactly one golden block, and throws
    otherwise.  The level it returns has the name and the projectiles of the
    answer, a truthy identifier, and the blocks of the answer in their order
    with their positions and golden flags, every block with an identifier
    and a shape.  On such a level [handleAiGenerateLevel] finds one golden
    block, so it repairs nothing: the editor takes the structure as it is,
    the name, at least one projectile, and no level being edited.  When the
    generation throws, the draft of the editor keeps its name, projectiles,
    structure and edited level, and only the message tells the failure. *)
Theorem generated_level (answer : option ParsedLevel) (blockNow : nat -> Z)
  (levelNow : Z) (random : string) (d : Draft) :
  let result := generateLevelWithGemini answer blockNow levelNow random in
  let d' := handleAiGenerateLevel result d in
  (result <> None
   <-> exists parsedData title structure count,
         answer = Some parsedData
         /\ parsedName parsedData = Some title /\ truthyName title = true
         /\ parsedStructure parsedData = Some structure
         /\ parsedProjectiles parsedData = Some count
         /\ (1 <= List.length structure <= 25)%nat
         /\ List.length (goldenBlocks structure) = 1%nat)
  /\ (forall level, result = Some level ->
        exists parsedData structure,
          answer = Some parsedData
          /\ parsedStructure parsedData = Some structure
          /\ parsedName parsedData = Some (name level)
          /\ parsedProjectiles parsedData
             = Some (App.initialProjectiles level)
          /\ truthyId (levelId level) = true
          /\ List.length (blocks level) = List.length structure
          /\ (forall n b, nth_error structure n = Some b ->
                exists b',
                  nth_error (blocks level) n = Some b'
                  /\ (bcX b', bcY b', bcZ b', bcIsKing b')
                     = (bcX b, bcY b, bcZ b, bcIsKing b)
                  /\ bcId b'
                     = (if truthyText (bcId b) then bcId b
                        else ("ai_block_" ++ showZ (blockNow n) ++ "_"
                              ++ showZ (Z.of_nat n))%string)
                  /\ bcShape b'
                     = Some (match bcShape b with
                             | Some shape => shape
                             | None => cube
                             end)
                  /\ truthyText (bcId b') = true)
          /\ List.length (goldenBlocks (blocks level)) = 1%nat
          /\ repairGoldenBlocks (blocks level) = Some (blocks level)
          /\ d' = mkDraft (name level)
                          (Qmax 1 (App.initialProjectiles level))
                          (blocks level) None (Some success))
  /\ (result = None -> d' = generationFailed d)
  /\ (draftMessageType d' = Some success <-> result <> None).
Proof.
  intros result d'.
  assert (Hsome : forall level, result = Some level ->
            truthyName (name level) = true
            /\ repairGoldenBlocks (blocks level) = Some (blocks level)
            /\ d' = mkDraft (name level)
                            (Qmax 1 (App.initialProjectiles level))
                            (blocks level) None (Some success)).
  { intros level Hl.
    destruct (generateLevelWithGemini_Some _ _ _ _ _ Hl)
      as (p & s & _ & _ & _ & _ & Ht & _ & Hone & Hb & _).
    assert (Hrepair : repairGoldenBlocks (blocks level) = Some (blocks level)).
    { apply repairGoldenBlocks_single.
      now rewrite Hb, completeBlocks_golden. }
    split; [ exact Ht | ]. split; [ exact Hrepair | ].
    unfold d', handleAiGenerateLevel. rewrite Hl, Ht. cbn [negb].
    now rewrite Hrepair. }
  split; [ | split; [ | split ] ].
  - split.
    + intro Hne. destruct result as [level |] eqn:E; [ | congruence ].
      destruct (generateLevelWithGemini_Some _ _ _ _ _ E)
        as (p & s & Ha & Hs & Hn & Hc & Ht & Hlen & Hone & _).
      exists p, (name level), s, (App.initialProjectiles level).
      now repeat split.
    + intros (p & title & s & count & -> & Hn & Ht & Hs & Hc & Hlen & Hone).
      unfold result, generateLevelWithGemini. rewrite Hn, Hs, Hc, Ht.
      cbn [negb].
      destruct (Nat.ltb_spec 25 (List.length s)); [ lia | ].
      destruct (Nat.eqb_spec (List.length s) 0); [ lia | ].
      rewrite Hone. cbn [Nat.eqb negb]. discriminate.
  - intros level Hl.
    destruct (generateLevelWithGemini_Some _ _ _ _ _ Hl)
      as (p & s & Ha & Hs & Hn & Hc & Ht & Hlen & Hone & Hb & Hid).
    destruct (Hsome level Hl) as (_ & Hrepair & Hd).
    exists p, s.
    repeat (split; [ assumption | ]).
    split; [ now rewrite Hb, completeBlocks_length | ].
    split.
    { intros n b Hnth. exists (completeBlock (blockNow n) n b).
      split; [ rewrite Hb; exact (completeBlocks_nth blockNow s 0 n b Hnth) | ].
      split; [ reflexivity | ].
      unfold completeBlock. cbn [bcId bcShape].
      destruct (truthyText (bcId b)) eqn:Eid; cbn [negb].
      - split; [ reflexivity | ]. split; [ now destruct (bcShape b) | ].
        exact Eid.
      - split; [ reflexivity | ]. split; [ now destruct (bcShape b) | ].
        reflexivity. }
    split; [ now rewrite Hb, completeBlocks_golden | ].
    split; [ exact Hrepair | exact Hd ].
  - intro Hnone. unfold d'. now rewrite Hnone.
  - split.
    + intros Hmsg Hnone. unfold d' in Hmsg. rewrite Hnone in Hmsg.
      discriminate Hmsg.
    + intro Hne. destruct result as [level |] eqn:E; [ | congruence ].
      destruct (Hsome level eq_refl) as (_ & _ & Hd). now rewrite Hd.
Qed.

(** ** The properties above at sample inputs *)

Lemma golden_block_unique_witness :
  (List.length (goldenBlocks []) <= 1)%nat
  /\ (List.length (goldenBlocks (clicks sampleClicks [])) <= 1)%nat.
Proof.
  assert (Hone : (List.length (goldenBlocks []) <= 1)%nat).
  { simpl. lia. }
  split; [ exact Hone | ].
  exact (proj1 (golden_block_unique sampleClicks [] Hone)).
Defined.

Lemma generated_level_witness :
  let blockNow := fun _ : nat => 1700000000000%Z in
  let made := generateLevelWithGemini (Some generatedTower) blockNow
                1700000000001 "k3x9f" in
  let refused := generateLevelWithGemini (Some generatedTwoCrowns) blockNow
                   1700000000001 "k3x9f" in
  option_map (fun level => map bcId (blocks level)) made
  = Some [ "ai_block_1700000000000_0"; "crown" ]%string
  /\ draftMessageType (handleAiGenerateLevel made initialDraft) = Some success
  /\ refused = None
  /\ handleAiGenerateLevel refused initialDraft
     = generationFailed initialDraft.
Proof.
  cbv zeta. split; [ reflexivity | ]. split; [ | split ].
  - apply (proj2 (proj2 (proj2 (generated_level (Some generatedTower)
             (fun _ => 1700000000000%Z) 1700000000001 "k3x9f"
             initialDraft)))).
    discriminate.
  - reflexivity.
  - apply (proj1 (proj2 (proj2 (generated_level (Some generatedTwoCrowns)
             (fun _ => 1700000000000%Z) 1700000000001 "k3x9f"
             initialDraft)))).
    reflexivity.
Defined.

End EditorFacts.
